(** * ynab-toolkit: shipment matching, allocation, categorisation and sync

    A shallow embedding of the transaction-processing core of the
    repository (process_transactions.py, utils.py, sync_to_ynab.py) and the
    properties its specification states about it.

    Conventions of the embedding
    - a Python [str] is a list of Unicode code points ([list N]);
      [lower()] folds the ASCII letters, which is what [str.lower] does on
      text of ASCII characters and emoji, and [\w] is the ASCII word
      characters;
    - a [Decimal] is an exact rational ([Q]); a Python [float] is the
      rational it holds. The allocation is computed as the code computes
      it: a Decimal quotient of 28 digits, converted to the nearest
      binary64 number, multiplied in binary64 and rounded to two decimals;
      a float that holds a Decimal amount or a rounded amount is
      identified with the decimal number it prints as;
    - a [datetime.date] is its proleptic ordinal ([Z]);
    - the classifier, the ledger and the CSV/regex/date parsers are
      collaborators: their outputs are inputs of the model. *)

From Stdlib Require Import ZArith QArith Qabs Qround Lia List Bool String Ascii.
From Stdlib Require Import DecimalString Sorted.
From stdpp Require Import base decidable option list gmap.
Import ListNotations.
Local Open Scope Z_scope.

(** ** Python strings *)

Module PyStr.

Abbreviation pystr := (list N).

(** A string literal: its characters as code points. *)
Fixpoint py (s : string) : pystr :=
  match s with
  | EmptyString => []
  | String a r => N_of_ascii a :: py r
  end.

Definition is_upper (c : N) : bool := ((65 <=? c) && (c <=? 90))%N.
Definition is_lower (c : N) : bool := ((97 <=? c) && (c <=? 122))%N.
Definition is_digit (c : N) : bool := ((48 <=? c) && (c <=? 57))%N.

(** [\s]: the characters [str.strip()] and the regex class remove. *)
Definition is_space (c : N) : bool :=
  (((9 <=? c) && (c <=? 13)) || ((28 <=? c) && (c <=? 32))
   || (c =? 133) || (c =? 160) || (c =? 5760)
   || ((8192 <=? c) && (c <=? 8202))
   || (c =? 8232) || (c =? 8233) || (c =? 8239) || (c =? 8287)
   || (c =? 12288))%N.

(** [\w] *)
Definition is_word (c : N) : bool :=
  is_upper c || is_lower c || is_digit c || (c =? 95)%N.

(** The leading-emoji class [\U0001F300-\U0001F9FF\U00002600-\U000027BF]. *)
Definition is_emoji (c : N) : bool :=
  (((127744 <=? c) && (c <=? 129535)) || ((9728 <=? c) && (c <=? 10175)))%N.

Definition lower_char (c : N) : N := if is_upper c then (c + 32)%N else c.

(** [s.lower()], folding the ASCII letters only. *)
Definition lower (s : pystr) : pystr := map lower_char s.

Fixpoint drop_while (p : N -> bool) (s : pystr) : pystr :=
  match s with
  | [] => []
  | c :: r => if p c then drop_while p r else s
  end.

Definition lstrip (s : pystr) : pystr := drop_while is_space s.
Definition rstrip (s : pystr) : pystr := rev (drop_while is_space (rev s)).

(** [s.strip()] *)
Definition strip (s : pystr) : pystr := rstrip (lstrip s).

(** [s[:n]] *)
Definition prefix (n : nat) (s : pystr) : pystr := firstn n s.
Global Arguments prefix : simpl never.

Definition eqb (a b : pystr) : bool := bool_decide (a = b).

(** [s.startswith(p)] *)
Fixpoint startswith (p s : pystr) : bool :=
  match p, s with
  | [], _ => true
  | _ :: _, [] => false
  | a :: p', b :: s' => (a =? b)%N && startswith p' s'
  end.

(** [p in s] for strings: [p] occurs as a substring of [s]. *)
Fixpoint contains (p s : pystr) : bool :=
  startswith p s ||
  match s with
  | [] => false
  | _ :: r => contains p r
  end.

(** [s.split(sep)[0]] for a non-empty separator: the text before the first
    occurrence of [sep], the whole string when there is none. *)
Fixpoint before (sep s : pystr) : pystr :=
  match s with
  | [] => []
  | c :: r => if startswith sep s then [] else c :: before sep r
  end.

(** Cut [s] at the runs of characters satisfying [sep]; [cur] is the piece
    being read, reversed. Every run ends a piece, so a separator at either
    end yields an empty piece there (as [re.split] does). *)
Fixpoint split_runs (sep : N -> bool) (in_sep : bool) (cur : pystr)
    (s : pystr) : list pystr :=
  match s with
  | [] => if in_sep then [[]] else [rev cur]
  | c :: r =>
      if sep c
      then if in_sep then split_runs sep true [] r
           else rev cur :: split_runs sep true [] r
      else split_runs sep false (c :: (if in_sep then [] else cur)) r
  end.

(** [re.split(r'\W+', s)] *)
Definition re_split_nonword (s : pystr) : list pystr :=
  split_runs (fun c => negb (is_word c)) false [] s.

(** [s.split()]: the maximal runs of non-whitespace, none of them empty. *)
Definition split_ws (s : pystr) : list pystr :=
  filter (fun w => w <> []) (split_runs is_space false [] s).

(** [re.sub(r'^[emoji]+\s*', '', text)] *)
Definition strip_leading_emoji (text : pystr) : pystr :=
  match text with
  | c :: r => if is_emoji c then lstrip (drop_while is_emoji r) else text
  | [] => []
  end.

(** [str(n)] for an integer. *)
Definition of_Z (n : Z) : pystr := py (NilZero.string_of_int (Z.to_int n)).

End PyStr.
Import PyStr.

(** ** Fuzzy category matching (process_transactions.py, match_category) *)

(** [set(words)] *)
Definition word_set (ws : list pystr) : gset pystr := list_to_set ws.

(** The first whitespace-separated word, or the empty string. *)
Definition first_word (s : pystr) : pystr :=
  match split_ws s with
  | w :: _ => w
  | [] => []
  end.

(** [overlap >= len(cat_words) / 2], the division being exact. *)
Definition half_overlap (cat_words ynab_words : gset pystr) : bool :=
  bool_decide (Z.of_nat (size cat_words)
               <= 2 * Z.of_nat (size (cat_words ∩ ynab_words))).

(** The first element of the list the loop returns at. *)
Definition first_match (p : pystr -> bool) (l : list pystr) : option pystr :=
  find p l.

Definition match_category (cat : pystr) (ynab_categories : list pystr)
    : pystr * bool :=
  if bool_decide (cat ∈ ynab_categories) then (cat, true) else
  let cat_lower := lower cat in
  match first_match (fun y => eqb (lower y) cat_lower) ynab_categories with
  | Some y => (y, true)
  | None =>
  let cat_stripped := lower (strip_leading_emoji cat) in
  match first_match
          (fun y => let stripped := strip_leading_emoji y in
                    eqb (lower stripped) cat_lower
                    || eqb (lower stripped) cat_stripped)
          ynab_categories with
  | Some y => (y, true)
  | None =>
  let cat_words := word_set (re_split_nonword cat_lower) in
  match first_match
          (fun y =>
             let ynab_stripped := lower (strip_leading_emoji y) in
             let ynab_words := word_set (re_split_nonword ynab_stripped) in
             let cat_first := first_word cat_lower in
             let ynab_first := first_word ynab_stripped in
             bool_decide (cat_first <> []) && eqb cat_first ynab_first
             && half_overlap cat_words ynab_words)
          ynab_categories with
  | Some y => (y, true)
  | None => (cat, false)
  end end end.

(** ** The category cache (utils.py) *)

(** The module-level cache: the mapping and its dirty flag. *)
Record CategoryCache := {
  _category_cache : gmap pystr pystr;
  _cache_dirty : bool
}.

Definition empty_cache : CategoryCache :=
  {| _category_cache := ∅; _cache_dirty := false |}.

(** [name.strip().lower()[:60]] *)
Definition _normalize_item_name (name : pystr) : pystr :=
  prefix 60 (lower (strip name)).

Definition get_cached_category (c : CategoryCache) (item_name : pystr)
    : option pystr :=
  _category_cache c !! _normalize_item_name item_name.

Definition cache_category (c : CategoryCache) (item_name category : pystr)
    : CategoryCache :=
  let key := _normalize_item_name item_name in
  if bool_decide (key <> []) && bool_decide (category <> [])
  then {| _category_cache := <[key := category]> (_category_cache c);
          _cache_dirty := true |}
  else c.

(** [if cached_cat:] a cached, non-empty category. *)
Definition cached_hit (c : CategoryCache) (item : pystr) : option pystr :=
  match get_cached_category c item with
  | Some cat => if bool_decide (cat <> []) then Some cat else None
  | None => None
  end.

(** ** The classifier and the categorizer (process_transactions.py) *)

(** What a run asks of its environment: the three prompts sent to the
    text-generation service and, after a successful resubmission, the
    write of the miscategorization log file. *)
Inductive Request :=
  | ReqChunk (item_descriptions : list pystr)
  | ReqRetry (item : pystr)
  | ReqResubmit (item original_category : pystr)
  | ReqLog (item original_category new_category : pystr).

(** What comes back: an exception, a response without content, or text.
    For the log write only the exception matters. *)
Inductive Reply :=
  | ApiError
  | EmptyContent
  | Text (t : pystr).

(** [{category: [items]}], in insertion order. *)
Abbreviation CatDict := (list (pystr * list pystr)).

(** [d[cat].append(item)] on a defaultdict(list). *)
Fixpoint dict_append (d : CatDict) (cat item : pystr) : CatDict :=
  match d with
  | [] => [(cat, [item])]
  | (k, v) :: r =>
      if bool_decide (k = cat) then (k, v ++ [item]) :: r
      else (k, v) :: dict_append r cat item
  end.

(** The fourth key as the source file has it: the code points U+F8FF,
    U+00FC, U+00E9, U+00ED and then " Gear" (the bytes of a backpack emoji
    read in another encoding), not the emoji itself. *)
Definition gear_key : pystr := [63743; 252; 233; 237]%N ++ py " Gear".

Definition SUSPICIOUS_RULES : list (pystr * list pystr) :=
  [ (py "Meats", [py "banana"; py "tofu"; py "avocado"]);
    (py "Bananas", [py "chicken"; py "beef"; py "bacon"]);
    (py "Frozen", [py "broccoli"; py "spinach"; py "peas"; py "mango";
                   py "blueberries"]);
    (gear_key, [py "diaper"; py "wipes"]);
    (py "Household Supplies", [py "diaper"; py "wipes"]) ].

Definition rules_get (k : pystr) : option (list pystr) :=
  snd <$> find (fun e => eqb (fst e) k) SUSPICIOUS_RULES.

Definition is_suspicious_categorization (item category : pystr) : bool :=
  let item_lower := lower item in
  let cat_stripped := strip_leading_emoji category in
  existsb (fun cat_key =>
             match rules_get cat_key with
             | Some keywords =>
                 existsb (fun keyword => contains keyword item_lower) keywords
             | None => false
             end)
          [category; cat_stripped].

(** The "looks like a product name" heuristic, on the cleaned text. *)
Definition looks_like_product (cat : pystr) : bool :=
  bool_decide (40 < length cat)%nat
  || contains (py ",") cat
  || contains (py "ounce") (lower cat) || contains (py "oz") (lower cat)
  || contains (py "pack") (lower cat) || contains (py "count") (lower cat)
  || startswith (py "organic ") (lower cat)
  || contains (py "365 ") cat || contains (py "by whole foods") (lower cat).

(** Strip a parenthetical and the explanation markers. *)
Definition strip_paren (cat : pystr) : pystr :=
  if contains (py "(") cat then strip (before (py "(") cat) else cat.

Definition strip_markers (cat : pystr) : pystr :=
  fold_left (fun cat marker =>
               if contains marker (lower cat)
               then strip (before marker cat) else cat)
            [py " - "; py " since "; py " because "] cat.

(** [int(s)]: optional sign and decimal digits, surrounding whitespace
    removed; [None] stands for ValueError. *)
Fixpoint digits_value (acc : Z) (s : pystr) : option Z :=
  match s with
  | [] => Some acc
  | c :: r => if is_digit c
              then digits_value (10 * acc + (Z.of_N c - 48)) r
              else None
  end.

Definition py_int_of_str (s : pystr) : option Z :=
  match strip s with
  | [] => None
  | c :: r =>
      if (c =? 45)%N then
        match r with [] => None | _ => Z.opp <$> digits_value 0 r end
      else if (c =? 43)%N then
        match r with [] => None | _ => digits_value 0 r end
      else digits_value 0 (c :: r)
  end.

(** [text.split("\n")] *)
Fixpoint split_lines_aux (cur : pystr) (s : pystr) : list pystr :=
  match s with
  | [] => [rev cur]
  | c :: r => if (c =? 10)%N then rev cur :: split_lines_aux [] r
              else split_lines_aux (c :: cur) r
  end.
Definition split_lines (s : pystr) : list pystr := split_lines_aux [] s.

(** [line.split(".", 1)] when it has two parts. *)
Fixpoint split_dot (cur : pystr) (s : pystr) : option (pystr * pystr) :=
  match s with
  | [] => None
  | c :: r => if (c =? 46)%N then Some (rev cur, r)
              else split_dot (c :: cur) r
  end.

Section Categorizer.

(** The service: the reply to the [n]-th request of a run. A request is
    identified by the items it is about; the prompt of a chunk shows the
    first 80 characters of each. *)
Variable client : nat -> Request -> Reply.
Variable ynab_categories : list pystr.

(** The state a categorisation run threads: the cache, [results], the
    [unmatched_categories] set and the requests issued so far. *)
Record CatState := {
  cs_cache : CategoryCache;
  cs_results : gmap pystr CatDict;
  cs_unmatched : gset pystr;
  cs_trace : list Request
}.

Definition call (st : CatState) (req : Request) : Reply * CatState :=
  (client (length (cs_trace st)) req,
   {| cs_cache := cs_cache st; cs_results := cs_results st;
      cs_unmatched := cs_unmatched st; cs_trace := cs_trace st ++ [req] |}).

Definition add_unmatched (cat : pystr) (st : CatState) : CatState :=
  {| cs_cache := cs_cache st; cs_results := cs_results st;
     cs_unmatched := {[ cat ]} ∪ cs_unmatched st; cs_trace := cs_trace st |}.

(** [results[import_id][cat].append(item)] *)
Definition results_append (res : gmap pystr CatDict)
    (import_id cat item : pystr) : gmap pystr CatDict :=
  <[import_id := dict_append (default [] (res !! import_id)) cat item]> res.

(** [results[import_id][cat].append(item_name); cache_category(item_name, cat)] *)
Definition store (import_id cat item_name : pystr) (st : CatState)
    : CatState :=
  {| cs_cache := cache_category (cs_cache st) item_name cat;
     cs_results := results_append (cs_results st) import_id cat item_name;
     cs_unmatched := cs_unmatched st; cs_trace := cs_trace st |}.

(** A truthy [str | None]. *)
Definition truthy (o : option pystr) : option pystr :=
  match o with
  | Some (c :: r) => Some (c :: r)
  | _ => None
  end.

Definition retry_categorize_item (item : pystr) (st : CatState)
    : option pystr * CatState :=
  let '(reply, st) := call st (ReqRetry item) in
  match reply with
  | Text t =>
      let cat := strip_paren (strip t) in
      let '(matched_cat, was_matched) := match_category cat ynab_categories in
      (if was_matched then Some matched_cat else None, st)
  | _ => (None, st)
  end.

(** log_miscategorization reads and rewrites a log file inside the [try]
    of resubmit_suspicious_item, so it may raise: [false] when it does.
    The write is asked of the environment at the position the trace has
    reached; it is no request to the service and is not recorded in the
    trace. *)
Definition log_miscategorization (st : CatState)
    (item original_category new_category : pystr) : bool :=
  match client (length (cs_trace st))
               (ReqLog item original_category new_category) with
  | ApiError => false
  | _ => true
  end.

(** The new category needs the match and the log write to succeed; any
    exception gives back the original category. *)
Definition resubmit_suspicious_item (item original_category : pystr)
    (st : CatState) : pystr * CatState :=
  let '(reply, st) := call st (ReqResubmit item original_category) in
  match reply with
  | Text t =>
      let '(matched_cat, was_matched) :=
        match_category (strip t) ynab_categories in
      (if was_matched
          && log_miscategorization st item original_category matched_cat
       then matched_cat else original_category, st)
  | _ => (original_category, st)
  end.

(** The cleaned category text of a response line and whether it matched. *)
Definition clean_and_match (raw : pystr) : pystr * bool :=
  let cat := strip_markers (strip_paren (strip raw)) in
  if looks_like_product cat then (cat, false)
  else match_category cat ynab_categories.

(** One line of a chunk response (the body of the parsing loop of
    batch_categorize_items). *)
Definition categorize_line (item_refs : list (pystr * pystr))
    (st : CatState) (line : pystr) : CatState :=
  let line := strip line in
  if bool_decide (line = []) then st else
  match split_dot [] line with
  | None => st
  | Some (part0, part1) =>
      match py_int_of_str part0 with
      | None => st
      | Some n =>
          let idx := n - 1 in
          let '(cat, matched) := clean_and_match part1 in
          if (0 <=? idx) && (idx <? Z.of_nat (length item_refs)) then
            match item_refs !! Z.to_nat idx with
            | Some (import_id, item_name) =>
                let '(cat, st) :=
                  if matched then (cat, st)
                  else
                    let '(retry_cat, st) := retry_categorize_item item_name st in
                    match truthy retry_cat with
                    | Some rc => (rc, st)
                    | None => (cat, add_unmatched cat st)
                    end in
                let '(cat, st) :=
                  if is_suspicious_categorization item_name cat
                  then resubmit_suspicious_item item_name cat st
                  else (cat, st) in
                store import_id cat item_name st
            | None => st
            end
          else st
      end
  end.

(** One chunk: a single request, then its lines. *)
Definition categorize_chunk (st : CatState) (chunk : list (pystr * pystr))
    : CatState :=
  let '(reply, st) := call st (ReqChunk (map snd chunk)) in
  match reply with
  | Text response_text =>
      fold_left (categorize_line chunk) (split_lines (strip response_text)) st
  | _ => st
  end.

(** [l[i:i+n]] for [i = 0, n, 2n, ...] *)
Fixpoint chunks_of (fuel n : nat) {A} (l : list A) : list (list A) :=
  match fuel, l with
  | S f, _ :: _ => firstn n l :: chunks_of f n (skipn n l)
  | _, _ => []
  end.

(** The cache pass over one transaction's items. *)
Definition cached_into (c : CategoryCache) (import_id : pystr)
    (res : gmap pystr CatDict) (items : list pystr) : gmap pystr CatDict :=
  fold_left (fun res item =>
               match cached_hit c item with
               | Some cat => results_append res import_id cat item
               | None => res
               end) items res.

Definition uncached (c : CategoryCache) (items : list pystr) : list pystr :=
  filter (fun item => cached_hit c item = None) items.

Definition item_chunk_size : nat := 30.

Definition batch_categorize_items (all_items : list (pystr * list pystr))
    (c : CategoryCache) : CatState :=
  let first_pass :=
    fold_left (fun res '(import_id, items) =>
                 cached_into c import_id (<[import_id := []]> res) items)
              all_items ∅ in
  let items_needing_categorization :=
    filter (fun e => uncached c (snd e) <> []) all_items in
  match items_needing_categorization with
  | [] => {| cs_cache := c; cs_results := first_pass;
             cs_unmatched := ∅; cs_trace := [] |}
  | _ :: _ =>
      let second_pass :=
        fold_left (fun res '(import_id, items) =>
                     cached_into c import_id res items)
                  all_items first_pass in
      let all_item_list :=
        flat_map (fun '(import_id, items) =>
                    map (fun item => (import_id, item)) (uncached c items))
                 all_items in
      fold_left categorize_chunk
                (chunks_of (length all_item_list) item_chunk_size all_item_list)
                {| cs_cache := c; cs_results := second_pass;
                   cs_unmatched := ∅; cs_trace := [] |}
  end.

End Categorizer.

(** ** The asynchronous path (retrieve_batch_results) *)

Section BatchResults.

Variable client : nat -> Request -> Reply.
Variable ynab_categories : list pystr.

(** The literal of the source at the fallback: the code points U+F8FF,
    U+00FC, U+00E7, U+00E5 and then "Groceries" with no blank between (the
    bytes of a banana emoji read in another encoding), not the emoji. *)
Definition banana_groceries : pystr :=
  [63743; 252; 231; 229]%N ++ py "Groceries".

(** The fallback of the asynchronous path. *)
Definition fallback_category : pystr :=
  if bool_decide (banana_groceries ∈ ynab_categories)
  then banana_groceries else py "Groceries".

(** One line of one batch result (the body of the parsing loop of
    retrieve_batch_results); [categories] of the result is the entry of
    [import_id] in [cs_results]. *)
Definition batch_result_line (import_id : pystr) (items : list pystr)
    (st : CatState) (line : pystr) : CatState :=
  let line := strip line in
  if bool_decide (line = []) then st else
  match split_dot [] line with
  | None => st
  | Some (part0, part1) =>
      match py_int_of_str part0 with
      | None => st
      | Some n =>
          let idx := n - 1 in
          let cat := strip_markers (strip_paren (strip part1)) in
          if (0 <=? idx) && (idx <? Z.of_nat (length items)) then
            match items !! Z.to_nat idx with
            | Some item_name =>
                let '(matched_cat, was_matched) :=
                  if looks_like_product cat then (cat, false)
                  else match_category cat ynab_categories in
                if was_matched then store import_id matched_cat item_name st
                else
                  let '(retry_cat, st) :=
                    retry_categorize_item client ynab_categories
                      item_name st in
                  match truthy retry_cat with
                  | Some rc => store import_id rc item_name st
                  | None =>
                      store import_id fallback_category item_name
                            (add_unmatched cat st)
                  end
            | None => st
            end
          else st
      end
  end.

End BatchResults.

(** A run in which the classifier names a category the budget does not
    have, and names another such category when asked again. *)
Module UnmatchedRun.

Definition categories : list pystr := [py "Electronics"; py "Groceries"].

Definition client (n : nat) (r : Request) : Reply :=
  match r with
  | ReqChunk _ => Text (py "1. Gadgets")
  | ReqRetry _ => Text (py "Stuff")
  | ReqResubmit _ _ => ApiError
  | ReqLog _ _ _ => EmptyContent
  end.

Definition import_id : pystr := py "AMZ2:111-2222222-3333333:1999:P".
Definition all_items : list (pystr * list pystr) :=
  [(import_id, [py "Widget"])].

Definition start : CatState :=
  {| cs_cache := empty_cache; cs_results := ∅; cs_unmatched := ∅;
     cs_trace := [] |}.

End UnmatchedRun.

(** A run over two transactions that hold the same item, not cached
    before; the classifier answers the two lines of the one chunk with
    two different valid categories. *)
Module RepeatedItem.

Definition categories : list pystr := [py "Electronics"; py "Groceries"].

Definition client (n : nat) (r : Request) : Reply :=
  match r with
  | ReqChunk _ => Text (py "1. Electronics" ++ [10%N] ++ py "2. Groceries")
  | _ => ApiError
  end.

Definition first_id : pystr := py "AMZ2:111-2222222-3333333:1999:P".
Definition second_id : pystr := py "AMZ2:111-2222222-4444444:1999:P".

Definition all_items : list (pystr * list pystr) :=
  [(first_id, [py "Widget"]); (second_id, [py "Widget"])].

End RepeatedItem.

(** ** Amounts *)

Module Money.

Local Open Scope Q_scope.

Definition Qltb (x y : Q) : bool := negb (Qle_bool y x).

(** [int(x)]: truncation towards zero. *)
Definition py_int (x : Q) : Z := Z.quot (Qnum x) (Zpos (Qden x)).

(** The nearest integer, ties to the even one. *)
Definition round_half_even (x : Q) : Z :=
  let n := Qnum x in
  let d := Zpos (Qden x) in
  let f := (n / d)%Z in
  match (2 * (n mod d) ?= d)%Z with
  | Lt => f
  | Gt => (f + 1)%Z
  | Eq => if Z.even f then f else (f + 1)%Z
  end.

(** [round(x, 2)] *)
Definition round2 (x : Q) : Q := inject_Z (round_half_even (x * 100)) / 100.

(** [sum(xs)] *)
Definition Qsum (xs : list Q) : Q := fold_left Qplus xs 0.

(** *** Decimal division and binary floats

    The allocation leaves Decimal arithmetic: it divides two Decimals
    (28 significant digits, ties to even), converts the quotient and the
    item total to binary64 floats, multiplies the floats and rounds the
    product to two decimals. A float is represented by the rational it
    holds exactly. *)

(** [b ** e] for an integer exponent. *)
Definition Qpow (b : positive) (e : Z) : Q :=
  match e with
  | Z0 => 1
  | Zpos p => inject_Z (Zpos (b ^ p))
  | Zneg p => 1 # (b ^ p)
  end.

(** The largest exponent [e' >= e] within [fuel] steps such that
    [b ** e' <= x]. *)
Fixpoint scan_log (fuel : nat) (b : positive) (x : Q) (e : Z) : Z :=
  match fuel with
  | O => e
  | S f => if Qle_bool (Qpow b (e + 1)) x then scan_log f b x (e + 1) else e
  end.

(** [floor(log_b x)] for [x > 0] and [b >= 2]: the scan starts below
    [1 / denominator <= x] and has steps enough to pass the numerator. *)
Definition floor_log (b : positive) (x : Q) : Z :=
  let ld := Z.log2 (Zpos (Qden x)) in
  scan_log (Z.to_nat (Z.log2 (Qnum x) + ld + 2)) b x (- (ld + 1)).

(** [a / b] on Decimals under the default context: the quotient rounded to
    28 significant digits, ties to even. *)
Definition decimal_div (a b : Q) : Q :=
  let q := Qred (a / b) in
  if Qeq_bool q 0 then 0 else
  let scale := Qpow 10 (27 - floor_log 10 (Qabs q)) in
  Qred (inject_Z (round_half_even (q * scale)) / scale).

(** [float(x)]: the binary64 number nearest to [x], ties to the even
    significand; 53 significant bits, gradual underflow below 2 ** -1022.
    Overflow to infinity (beyond about 1.8e308) is not represented. *)
Definition to_float (x : Q) : Q :=
  let x := Qred x in
  if Qeq_bool x 0 then 0 else
  let e := Z.max (floor_log 2 (Qabs x) - 52) (- 1074) in
  Qred (inject_Z (round_half_even (x / Qpow 2 e)) * Qpow 2 e).

(** [x * y] on floats. *)
Definition float_mul (x y : Q) : Q := to_float (x * y).

(** [round(x, 2)] on a float: Python rounds the exact value of the float,
    ties to even, and returns the float nearest to the result; that float
    is identified with the two-decimal number it prints as. *)
Definition float_round2 (x : Q) : Q := Qred (round2 x).

End Money.
Import Money.

(** ** The order history (load_order_history) *)

(** A row of the order-history export, after the CSV reader, the Decimal
    parser and the ISO date parser. *)
Record RawItem := {
  ri_order_id : pystr;
  ri_name : pystr;
  ri_total : Q;
  ri_ship_date : option Z;
  ri_quantity : Z;
  ri_shipping_option : pystr
}.

Record ShipItem := { si_name : pystr; si_total : Q; si_qty : Z }.

Record Shipment := {
  ship_date : option Z;
  shipment_total : Q;
  shipment_items : list ShipItem;
  shipment_is_grocery : bool
}.

Record OrderItem := { oi_name : pystr; oi_total : Q }.

Record Order := {
  order_shipments : list Shipment;
  order_items : list OrderItem;
  order_is_grocery : bool
}.

Definition GROCERY_SHIPPING_OPTIONS : list pystr :=
  [py "scheduled-houdini"; py "scheduled-one-houdini"].

(** [groups[k].append(x)] on a defaultdict(list), keys in insertion order. *)
Fixpoint group_append {K A} `{EqDecision K} (groups : list (K * list A))
    (k : K) (x : A) : list (K * list A) :=
  match groups with
  | [] => [(k, [x])]
  | (k', v) :: r =>
      if decide (k' = k) then (k', v ++ [x]) :: r
      else (k', v) :: group_append r k x
  end.

Definition group_by {K A} `{EqDecision K} (key : A -> K) (l : list A)
    : list (K * list A) :=
  fold_left (fun groups x => group_append groups (key x) x) l [].

(** [all(item.get("shipping_option", "") in GROCERY_SHIPPING_OPTIONS ...)] *)
Definition all_grocery_options (group_items : list RawItem) : bool :=
  forallb (fun item =>
             bool_decide (ri_shipping_option item ∈ GROCERY_SHIPPING_OPTIONS))
          group_items.

(** The shipment built from the items that share a ship date. *)
Definition make_shipment (group_items : list RawItem) : Shipment :=
  {| ship_date := match group_items with
                  | item :: _ => ri_ship_date item
                  | [] => None
                  end;
     shipment_total := Qsum (map ri_total group_items);
     shipment_items :=
       map (fun item => {| si_name := ri_name item; si_total := ri_total item;
                           si_qty := ri_quantity item |}) group_items;
     shipment_is_grocery := all_grocery_options group_items |}.

(** [datetime.max.date()], 9999-12-31, as an ordinal. *)
Definition date_max : Z := 3652059.

(** [s["ship_date"] or datetime.max.date()] *)
Definition sort_key (s : Shipment) : Z := default date_max (ship_date s).

(** [list.sort] is stable: an element goes before the first one with a
    key not smaller than its own that followed it. *)
Fixpoint insert_by_key (s : Shipment) (l : list Shipment) : list Shipment :=
  match l with
  | [] => [s]
  | y :: r => if (sort_key s <=? sort_key y)%Z then s :: y :: r
              else y :: insert_by_key s r
  end.

Definition sort_shipments (l : list Shipment) : list Shipment :=
  foldr insert_by_key [] l.

(** The entry of one order, from its items in file order. *)
Definition make_order (items : list RawItem) : Order :=
  let shipment_groups := group_by ri_ship_date items in
  let shipments :=
    sort_shipments (map (fun g => make_shipment (snd g)) shipment_groups) in
  {| order_shipments := shipments;
     order_items := map (fun item => {| oi_name := ri_name item;
                                        oi_total := ri_total item |}) items;
     order_is_grocery :=
       match shipments with
       | [] => false
       | _ => forallb shipment_is_grocery shipments
       end |}.

Definition load_order_history (all_items : list RawItem) : gmap pystr Order :=
  list_to_map
    (map (fun g => (fst g, make_order (snd g)))
         (group_by ri_order_id (filter (fun i => ri_order_id i <> []) all_items))).

(** ** Shipment matching (main, pass 1) *)

Local Open Scope Q_scope.

(** Strategy 1, the loop body: the state is [(best_match, best_days_diff)]. *)
Definition date_step (charge_date : Z) (st : option Shipment * Z)
    (shipment : Shipment) : option Shipment * Z :=
  match ship_date shipment with
  | Some d =>
      let days_diff := (charge_date - d)%Z in
      if (0 <=? days_diff)%Z && (days_diff <=? 7)%Z
         && (days_diff <? snd st)%Z
      then (Some shipment, days_diff)
      else st
  | None => st
  end.

Definition match_by_date (charge_date : Z) (shipments : list Shipment)
    : option Shipment :=
  fst (fold_left (date_step charge_date) shipments (None, 999%Z)).

(** [abs(x - abs(amount)) < Decimal("1.00")] *)
Definition within_dollar (x amount : Q) : bool :=
  Qltb (Qabs (x - Qabs amount)) 1.

(** Strategy 2 *)
Definition match_by_amount (amount : Q) (shipments : list Shipment)
    : option Shipment :=
  find (fun s => within_dollar (shipment_total s) amount) shipments.

(** Strategy 3 *)
Definition match_single_item (amount : Q) (all_items : list OrderItem)
    : option OrderItem :=
  find (fun i => within_dollar (oi_total i) amount) all_items.

(** Strategy 4, the loop body: the state is [(matched_shipment, best_diff)]. *)
Definition best_fit_step (amount : Q) (st : option Shipment * Q)
    (shipment : Shipment) : option Shipment * Q :=
  let diff := Qabs (shipment_total shipment - Qabs amount) in
  if Qltb diff (snd st) then (Some shipment, diff) else st.

Definition match_best_fit (amount : Q) (shipments : list Shipment)
    : option Shipment :=
  fst (fold_left (best_fit_step amount) shipments (None, 999999)).

(** An entry of [matched_items_with_amounts]; the one-item match of
    Strategy 3 has only a name and an amount. *)
Record MatchedItem := {
  mi_name : pystr;
  mi_base_name : option pystr;
  mi_amount : Q;
  mi_original_total : option Q;
  mi_qty : option Z
}.

(** Proportional allocation over the items of the matched shipment:
    [ratio = float(charge_amount / shipment_total)] and, for each item,
    [round(float(item["total"]) * ratio, 2)]. *)
Definition allocate (charge_amount : Q) (matched_shipment : Shipment)
    : list MatchedItem :=
  let ratio :=
    to_float (decimal_div charge_amount (shipment_total matched_shipment)) in
  map (fun item =>
         let item_amount := float_mul (to_float (si_total item)) ratio in
         let qty := si_qty item in
         let display_name :=
           if (1 <? qty)%Z then of_Z qty ++ py " x " ++ si_name item
           else si_name item in
         {| mi_name := display_name;
            mi_base_name := Some (si_name item);
            mi_amount := float_round2 item_amount;
            mi_original_total := Some (si_total item);
            mi_qty := Some qty |})
      (shipment_items matched_shipment).

(** The four strategies and the allocation, in the order of the source:
    [(matched_shipment, matched_items_with_amounts)]. *)
Definition match_charge (charge_date : option Z) (amount : Q) (order : Order)
    : option Shipment * option (list MatchedItem) :=
  let shipments := order_shipments order in
  let all_items := order_items order in
  let matched_shipment :=
    match charge_date with
    | Some d => match_by_date d shipments
    | None => None
    end in
  let matched_shipment :=
    match matched_shipment with
    | Some s => Some s
    | None => match_by_amount amount shipments
    end in
  let matched_items_with_amounts :=
    match matched_shipment with
    | Some _ => None
    | None =>
        match match_single_item amount all_items with
        | Some item => Some [ {| mi_name := oi_name item;
                                 mi_base_name := None;
                                 mi_amount := amount;
                                 mi_original_total := None;
                                 mi_qty := None |} ]
        | None => None
        end
    end in
  let matched_shipment :=
    match matched_shipment, matched_items_with_amounts with
    | None, None => match_best_fit amount shipments
    | _, _ => matched_shipment
    end in
  let matched_items_with_amounts :=
    match matched_shipment, matched_items_with_amounts with
    | Some s, None =>
        if Qltb 0 (shipment_total s) then Some (allocate (Qabs amount) s)
        else None
    | _, _ => matched_items_with_amounts
    end in
  (matched_shipment, matched_items_with_amounts).

(** ** Building transactions (main, pass 1) *)

(** An amount column after ["$"] and [","] are removed and the text is
    stripped: empty, not a Decimal, or a Decimal. *)
Inductive Cell :=
  | Blank
  | Unparsable
  | Amount (q : Q).

(** A statement row. [row_order_id] is extract_order_id of the memo,
    [row_date_str] the date text after the format loop and
    [row_charge_date] what strptime makes of it. *)
Record Row := {
  row_date_str : pystr;
  row_charge_date : option Z;
  row_payee : pystr;
  row_order_id : option pystr;
  row_outflow : Cell;
  row_inflow : Cell
}.

Record Split := {
  split_category : pystr;
  split_amount : Q;
  split_memo : pystr;
  split_items : list pystr
}.

Record Txn := {
  txn_import_id : option pystr;
  txn_date : pystr;
  txn_order_id : pystr;
  txn_amount : Q;
  txn_payee : pystr;
  txn_memo : pystr;
  txn_is_refund : bool;
  txn_is_grocery : bool;
  txn_flag : pystr;
  txn_splits : list Split;
  txn_items : option (list pystr);
  txn_items_with_amounts : option (list MatchedItem);
  txn_grocery_items : option (list MatchedItem);
  txn_all_items : option (list pystr)
}.

Definition is_amazon_transaction (payee : pystr) : bool :=
  let payee_lower := lower payee in
  existsb (fun x => contains x payee_lower) [py "amazon"; py "amzn"].

Definition is_grocery_transaction (payee : pystr) : bool :=
  let payee_lower := lower payee in
  existsb (fun g => contains g payee_lower)
          [py "amazon fresh"; py "whole foods"; py "amazon groce"].

(** [if inflow: Decimal(inflow) elif outflow: -Decimal(outflow)]; [None]
    when the row is skipped. *)
Definition parse_amount (row : Row) : option Q :=
  match row_inflow row with
  | Amount q => Some q
  | Unparsable => None
  | Blank =>
      match row_outflow row with
      | Amount q => Some (- q)
      | _ => None
      end
  end.

(** [bool(inflow)] *)
Definition has_inflow (row : Row) : bool :=
  match row_inflow row with
  | Blank => false
  | _ => true
  end.

(** [f"AMZ2:{order_id}:{amount_cents}:{direction}"] *)
Definition make_import_id (order_id : pystr) (amount_cents : Z)
    (direction : pystr) : pystr :=
  py "AMZ2:" ++ order_id ++ py ":" ++ of_Z amount_cents ++ py ":" ++ direction.

Definition row_import_id (order_id : pystr) (amount : Q) (row : Row)
    : pystr :=
  let amount_cents := py_int (Qabs amount * 100) in
  let direction := if has_inflow row then py "R" else py "P" in
  make_import_id order_id amount_cents direction.

(** What pass 1 does with a row. *)
Inductive Outcome :=
  | Skipped
  | Cached
  | NotFound (txn : Txn)
  | Processed (txn : Txn)
  | Grocery (txn : Txn)
  | Pending (txn : Txn) (base_items : list pystr).

Definition base_txn (row : Row) (import_id order_id : pystr) (amount : Q)
    : Txn :=
  let is_grocery := is_grocery_transaction (row_payee row) in
  {| txn_import_id := Some import_id;
     txn_date := row_date_str row;
     txn_order_id := order_id;
     txn_amount := amount;
     txn_payee :=
       if contains (py "whole foods") (lower (row_payee row))
       then py "Whole Foods"
       else if is_grocery then py "Amazon Fresh" else py "Amazon.com";
     txn_memo := py "Order " ++ order_id;
     txn_is_refund := has_inflow row;
     txn_is_grocery := is_grocery;
     txn_flag := py "yellow";
     txn_splits := [];
     txn_items := None;
     txn_items_with_amounts := None;
     txn_grocery_items := None;
     txn_all_items := None |}.

(** [-abs(amount)] for a purchase, [abs(amount)] for a refund. *)
Definition signed (is_refund : bool) (amount : Q) : Q :=
  if is_refund then Qabs amount else - Qabs amount.

Definition with_flag_memo (t : Txn) (flag memo : pystr)
    (all_items : option (list pystr)) : Txn :=
  {| txn_import_id := txn_import_id t; txn_date := txn_date t;
     txn_order_id := txn_order_id t; txn_amount := txn_amount t;
     txn_payee := txn_payee t; txn_memo := memo;
     txn_is_refund := txn_is_refund t; txn_is_grocery := txn_is_grocery t;
     txn_flag := flag; txn_splits := txn_splits t;
     txn_items := txn_items t;
     txn_items_with_amounts := txn_items_with_amounts t;
     txn_grocery_items := txn_grocery_items t;
     txn_all_items := all_items |}.

Definition tip_txn (t : Txn) : Txn :=
  {| txn_import_id := txn_import_id t; txn_date := txn_date t;
     txn_order_id := txn_order_id t; txn_amount := txn_amount t;
     txn_payee := txn_payee t; txn_memo := py "Delivery Tip";
     txn_is_refund := txn_is_refund t; txn_is_grocery := txn_is_grocery t;
     txn_flag := txn_flag t;
     txn_splits :=
       [ {| split_category := py "Delivery Fee";
            split_amount := signed (txn_is_refund t) (txn_amount t);
            split_memo := py "Delivery Tip";
            split_items := [] |} ];
     txn_items := Some [];
     txn_items_with_amounts := Some [];
     txn_grocery_items := txn_grocery_items t;
     txn_all_items := txn_all_items t |}.

(** The transaction once its items are matched: [is_grocery], [items] and
    [items_with_amounts] set. *)
Definition matched_txn (t : Txn) (is_grocery : bool)
    (matched : list MatchedItem) : Txn :=
  {| txn_import_id := txn_import_id t; txn_date := txn_date t;
     txn_order_id := txn_order_id t; txn_amount := txn_amount t;
     txn_payee := txn_payee t; txn_memo := txn_memo t;
     txn_is_refund := txn_is_refund t; txn_is_grocery := is_grocery;
     txn_flag := txn_flag t; txn_splits := txn_splits t;
     txn_items := Some (map mi_name matched);
     txn_items_with_amounts := Some matched;
     txn_grocery_items := txn_grocery_items t;
     txn_all_items := txn_all_items t |}.

Definition grocery_txn (t : Txn) (matched : list MatchedItem) : Txn :=
  {| txn_import_id := txn_import_id t; txn_date := txn_date t;
     txn_order_id := txn_order_id t; txn_amount := txn_amount t;
     txn_payee := txn_payee t; txn_memo := txn_memo t;
     txn_is_refund := txn_is_refund t; txn_is_grocery := txn_is_grocery t;
     txn_flag := txn_flag t;
     txn_splits :=
       [ {| split_category := py "Groceries";
            split_amount := signed (txn_is_refund t) (txn_amount t);
            split_memo := py "Groceries";
            split_items := map mi_name matched |} ];
     txn_items := txn_items t;
     txn_items_with_amounts := txn_items_with_amounts t;
     txn_grocery_items := Some matched;
     txn_all_items := txn_all_items t |}.

(** The body of the pass-1 loop. [existing_ids] are the import ids of the
    cache as it was loaded; the loop does not add to them. *)
Definition process_row (order_history : gmap pystr Order)
    (existing_ids : gset pystr) (row : Row) : Outcome :=
  let payee := row_payee row in
  if negb (is_amazon_transaction payee) then Skipped else
  match row_order_id row with
  | None => Skipped
  | Some order_id =>
  match parse_amount row with
  | None => Skipped
  | Some amount =>
  let import_id := row_import_id order_id amount row in
  if bool_decide (import_id ∈ existing_ids) then Cached else
  let txn := base_txn row import_id order_id amount in
  match order_history !! order_id with
  | None =>
      NotFound (with_flag_memo txn (py "blue")
                  (py "Order " ++ order_id ++ py " - NEEDS ITEMIZATION") None)
  | Some order_data =>
  if contains (py "amazon tips") (lower payee) then Processed (tip_txn txn)
  else
  let '(matched_shipment, matched_items_with_amounts) :=
    match_charge (row_charge_date row) amount order_data in
  match matched_items_with_amounts with
  | Some (m :: ms) =>
      let matched := m :: ms in
      let shipment_is_grocery :=
        match matched_shipment with
        | Some s => shipment_is_grocery s
        | None => false
        end in
      let is_grocery :=
        shipment_is_grocery || order_is_grocery order_data
        || is_grocery_transaction payee in
      let txn := matched_txn txn is_grocery matched in
      if is_grocery then Grocery (grocery_txn txn matched)
      else Pending txn (map (fun i => default (mi_name i) (mi_base_name i))
                            matched)
  | _ =>
      NotFound (with_flag_memo txn (py "blue")
                  (py "Order " ++ order_id ++ py " - NO SHIPMENT MATCH")
                  (Some (map oi_name (order_items order_data))))
  end end end end.

(** ** One split per item (main, pass 2, synchronous mode) *)

(** [item_to_category[item_name] = cat] for every category and item, later
    entries replacing earlier ones. *)
Definition item_to_category_of (categorized : CatDict) : gmap pystr pystr :=
  fold_left (fun m '(cat, items) =>
               fold_left (fun m item_name => <[item_name := cat]> m) items m)
            categorized ∅.

Definition item_split (is_refund : bool) (item_to_category : gmap pystr pystr)
    (item_data : MatchedItem) : Split :=
  let display_name := mi_name item_data in
  let base_name := default display_name (mi_base_name item_data) in
  let item_amount := mi_amount item_data in
  {| split_category :=
       default (py "Household Supplies") (item_to_category !! base_name);
     split_amount := signed is_refund item_amount;
     split_memo := prefix 50 display_name;
     split_items := [display_name] |}.

(** [max(categorized.keys(), key=lambda c: len(categorized[c]))]: the
    first key with the longest list. *)
Definition best_category (categorized : CatDict) : pystr :=
  match categorized with
  | [] => py "Household Supplies"
  | e :: r =>
      fst (fold_left (fun best e' =>
                        if (length (snd best) <? length (snd e'))%nat
                        then e' else best) r e)
  end.

(** [", ".join(parts)] *)
Fixpoint join_comma (parts : list pystr) : pystr :=
  match parts with
  | [] => []
  | [p] => p
  | p :: r => p ++ py ", " ++ join_comma r
  end.

Definition items_desc (all_items : list pystr) : pystr :=
  join_comma (map (prefix 25) (firstn 3 all_items))
  ++ (if (3 <? length all_items)%nat
      then py " (+" ++ of_Z (Z.of_nat (length all_items) - 3) ++ py ")"
      else []).

Definition with_splits (t : Txn) (splits : list Split) : Txn :=
  {| txn_import_id := txn_import_id t; txn_date := txn_date t;
     txn_order_id := txn_order_id t; txn_amount := txn_amount t;
     txn_payee := txn_payee t; txn_memo := txn_memo t;
     txn_is_refund := txn_is_refund t; txn_is_grocery := txn_is_grocery t;
     txn_flag := txn_flag t; txn_splits := splits;
     txn_items := txn_items t;
     txn_items_with_amounts := txn_items_with_amounts t;
     txn_grocery_items := txn_grocery_items t;
     txn_all_items := txn_all_items t |}.

(** The splits of a pending transaction, from the categorizer's answer
    for its import id. *)
Definition itemize (categorized : CatDict) (txn : Txn) : Txn :=
  let item_to_category := item_to_category_of categorized in
  match default [] (txn_items_with_amounts txn) with
  | i :: r =>
      with_splits txn
        (txn_splits txn
         ++ map (item_split (txn_is_refund txn) item_to_category) (i :: r))
  | [] =>
      let all_items := default [] (txn_items txn) in
      with_splits txn
        (txn_splits txn
         ++ [ {| split_category := best_category categorized;
                 split_amount := txn_amount txn;
                 split_memo := items_desc all_items;
                 split_items := all_items |} ])
  end.

(** [sum(split.amount)] *)
Definition splits_total (splits : list Split) : Q :=
  Qsum (map split_amount splits).

(** ** The run (main) *)

(** [d[k] = v] on a dict: a new key goes last, an old one keeps its place. *)
Fixpoint dict_set {V} (d : list (pystr * V)) (k : pystr) (v : V)
    : list (pystr * V) :=
  match d with
  | [] => [(k, v)]
  | (k', v') :: r =>
      if bool_decide (k' = k) then (k', v) :: r
      else (k', v') :: dict_set r k v
  end.

(** The transaction pass 1 appends to the cache for a row, if any. *)
Definition emitted (o : Outcome) : option Txn :=
  match o with
  | NotFound t | Processed t | Grocery t => Some t
  | _ => None
  end.

(** The transaction pass 1 queues for categorisation, if any. *)
Definition pending (o : Outcome) : option Txn :=
  match o with
  | Pending t _ => Some t
  | _ => None
  end.

(** [{t["import_id"] for t in cache["transactions"] if t.get("import_id")}] *)
Definition existing_ids_of (transactions : list Txn) : gset pystr :=
  list_to_set
    (omap (fun t => match txn_import_id t with
                    | Some (c :: r) => Some (c :: r)
                    | _ => None
                    end) transactions).

(** [items_to_categorize], filled by pass 1. *)
Definition items_to_categorize_of (outs : list Outcome)
    : list (pystr * list pystr) :=
  fold_left (fun d o =>
               match o with
               | Pending t base_items =>
                   dict_set d (default [] (txn_import_id t)) base_items
               | _ => d
               end) outs [].

(** The state of the cache file and of the in-memory cache after a run. *)
Record RunResult := {
  run_transactions : list Txn;
  run_saved : bool;
  run_category_cache : CategoryCache;
  run_requests : list Request
}.

Section Main.

Variable client : nat -> Request -> Reply.
Variable ynab_categories : list pystr.
Variable order_history : gmap pystr Order.

(** A run of main over [rows], from the loaded cache [transactions];
    [batch] is the --batch flag: the queued transactions are then saved
    without splits, to be categorised when the batch returns. The cache
    file is written only when some transaction was queued. *)
Definition main (batch : bool) (category_cache : CategoryCache)
    (transactions : list Txn) (rows : list Row) : RunResult :=
  let existing_ids := existing_ids_of transactions in
  let outs := map (process_row order_history existing_ids) rows in
  let after_pass1 := transactions ++ omap emitted outs in
  let pending_txns := omap pending outs in
  let items_to_categorize := items_to_categorize_of outs in
  match items_to_categorize with
  | [] =>
      {| run_transactions := after_pass1; run_saved := false;
         run_category_cache := category_cache; run_requests := [] |}
  | _ :: _ =>
      if batch then
        {| run_transactions := after_pass1 ++ pending_txns;
           run_saved := true;
           run_category_cache := category_cache; run_requests := [] |}
      else
        let st := batch_categorize_items client ynab_categories
                    items_to_categorize category_cache in
        let categorized_results := cs_results st in
        {| run_transactions :=
             after_pass1
             ++ map (fun txn =>
                       itemize
                         (default []
                            (categorized_results
                               !! default [] (txn_import_id txn)))
                         txn)
                    pending_txns;
           run_saved := true;
           run_category_cache := cs_cache st;
           run_requests := cs_trace st |}
  end.

(** What the cache file holds after the run. *)
Definition cache_file_after (batch : bool) (category_cache : CategoryCache)
    (transactions : list Txn) (rows : list Row) : list Txn :=
  let r := main batch category_cache transactions rows in
  if run_saved r then run_transactions r else transactions.

End Main.

(** ** Syncing to the ledger (sync_to_ynab.py, sync_transactions) *)

Local Open Scope Z_scope.

Record SubTxn := {
  sub_amount : Z;
  sub_category_id : option pystr;
  sub_memo : pystr
}.

(** What the ledger holds for an import id. *)
Record RemoteSub := { remote_memo : option pystr }.
Record RemoteTxn := {
  transaction_id : pystr;
  remote_subtransactions : list RemoteSub
}.

(** [mapping.get(k)] on the category mapping, a dict in insertion order. *)
Definition mapping_get (mapping : list (pystr * pystr)) (k : pystr)
    : option pystr :=
  snd <$> find (fun e => eqb (fst e) k) mapping.

Definition find_category_id (name : pystr) (mapping : list (pystr * pystr))
    : option pystr :=
  if bool_decide (name = []) then None else
  match mapping_get mapping name with
  | Some cat_id => Some cat_id
  | None =>
  match mapping_get mapping (lower name) with
  | Some cat_id => Some cat_id
  | None =>
      let name_lower := lower name in
      snd <$> find (fun e => contains name_lower (lower (fst e))
                             || contains (lower (fst e)) name_lower) mapping
  end end.

(** [int(Decimal(str(x)) * 1000)] *)
Definition milliunits (x : Q) : Z := py_int (x * 1000)%Q.

Definition sum_amounts (subs : list SubTxn) : Z :=
  fold_left (fun acc s => acc + sub_amount s) subs 0.

(** [subtransactions[-1]["amount"] += rounding_diff] *)
Fixpoint adjust_last (rounding_diff : Z) (subs : list SubTxn) : list SubTxn :=
  match subs with
  | [] => []
  | [s] => [ {| sub_amount := sub_amount s + rounding_diff;
                sub_category_id := sub_category_id s;
                sub_memo := sub_memo s |} ]
  | s :: r => s :: adjust_last rounding_diff r
  end.

(** [None] when the transaction has no splits. *)
Definition build_subtransactions (txn : Txn) (cat_mapping : list (pystr * pystr))
    : option (list SubTxn) :=
  match txn_splits txn with
  | [] => None
  | splits =>
      let subtransactions :=
        map (fun split =>
               {| sub_amount := milliunits (split_amount split);
                  sub_category_id :=
                    find_category_id (split_category split) cat_mapping;
                  sub_memo := prefix 200 (split_memo split) |}) splits in
      let parent_milliunits := milliunits (txn_amount txn) in
      let rounding_diff := parent_milliunits - sum_amounts subtransactions in
      Some (if rounding_diff =? 0 then subtransactions
            else adjust_last rounding_diff subtransactions)
  end.

(** The memo comparison of subtransactions_differ, on the zipped lists. *)
Fixpoint memos_differ (local_subs : list SubTxn) (ynab_subs : list RemoteSub)
    : bool :=
  match local_subs, ynab_subs with
  | l :: ls, r :: rs =>
      negb (eqb (prefix 50 (sub_memo l))
                (prefix 50 (default [] (remote_memo r))))
      || memos_differ ls rs
  | _, _ => false
  end.

Definition subtransactions_differ (local_subs : list SubTxn)
    (ynab_subs : list RemoteSub) : bool :=
  match local_subs, ynab_subs with
  | [], [] => false
  | [], _ | _, [] => true
  | _, _ =>
      if negb (length local_subs =? length ynab_subs)%nat then true
      else memos_differ local_subs ynab_subs
  end.

(** [a < b] on strings. *)
Fixpoint str_ltb (a b : pystr) : bool :=
  match a, b with
  | _, [] => false
  | [], _ :: _ => true
  | x :: a', y :: b' => (x <? y)%N || ((x =? y)%N && str_ltb a' b')
  end.

(** What the first pass of the sync loop decides for a transaction. *)
Inductive SyncAction :=
  | Ignored
  | SyncSkipped
  | SyncDuplicate
  | SyncUpdate (transaction_id : pystr) (subs : list SubTxn)
  | SyncCreate (subs : option (list SubTxn)).

Section Sync.

Variable cat_mapping : list (pystr * pystr).
Variable existing_txns : gmap pystr RemoteTxn.
Variable cutoff_date : pystr.

(** The decision for one transaction, given the [synced] set as the loop
    has it when the transaction is reached. *)
Definition sync_action (synced : gset pystr) (txn : Txn) : SyncAction :=
  match txn_import_id txn with
  | None | Some [] => Ignored
  | Some import_id =>
      if str_ltb (txn_date txn) cutoff_date then SyncSkipped
      else if bool_decide (import_id ∈ synced)
              && bool_decide (existing_txns !! import_id = None)
      then SyncSkipped
      else
        let subtransactions := build_subtransactions txn cat_mapping in
        match existing_txns !! import_id with
        | Some existing =>
            match subtransactions with
            | Some (s :: subs) =>
                if subtransactions_differ (s :: subs)
                     (remote_subtransactions existing)
                then SyncUpdate (transaction_id existing) (s :: subs)
                else if bool_decide (import_id ∈ synced) then SyncSkipped
                     else SyncDuplicate
            | _ => if bool_decide (import_id ∈ synced) then SyncSkipped
                   else SyncDuplicate
            end
        | None => SyncCreate subtransactions
        end
  end.

(** The first pass: every transaction's decision, a duplicate being added
    to [synced] as the loop goes. *)
Fixpoint first_pass (synced : gset pystr) (transactions : list Txn)
    : list (Txn * SyncAction) * gset pystr :=
  match transactions with
  | [] => ([], synced)
  | txn :: rest =>
      let action := sync_action synced txn in
      let synced' :=
        match action, txn_import_id txn with
        | SyncDuplicate, Some import_id => {[ import_id ]} ∪ synced
        | _, _ => synced
        end in
      let '(actions, final) := first_pass synced' rest in
      ((txn, action) :: actions, final)
  end.

Definition is_create (a : SyncAction) : bool :=
  match a with SyncCreate _ => true | _ => false end.

(** [to_create], the transactions queued for creation. *)
Definition to_create (synced : gset pystr) (transactions : list Txn)
    : list Txn :=
  map fst (filter (fun e => is_create (snd e) = true)
                  (fst (first_pass synced transactions))).

End Sync.

(** ** Sample inputs and auxiliary predicates *)

Definition sample_categories : list pystr :=
  [py "Household Supplies"; (127890%N :: py " Gear"); py "Pasta & Grains"].




(** A shipment the date strategy may select: its ship date is known and the
    charge is [days_diff] days later, between 0 and 7. *)
Definition date_eligible (charge_date : Z) (s : Shipment) (days_diff : Z)
    : Prop :=
  exists d, ship_date s = Some d /\ days_diff = (charge_date - d)%Z
            /\ (0 <= days_diff <= 7)%Z.

(** The order load_order_history sorts the shipments by. *)
Definition key_le (a b : Shipment) : Prop := (sort_key a <= sort_key b)%Z.

(** Ship dates in ascending order, read off the [ship_date] fields: a
    shipment without a date stands where 9999-12-31 would. *)
Definition date_order (a b : Shipment) : Prop :=
  match ship_date a, ship_date b with
  | Some x, Some y => (x <= y)%Z
  | Some x, None => (x <= 3652059)%Z
  | None, Some y => (3652059 <= y)%Z
  | None, None => True
  end.

(** Every shipment of the list is in [date_order] with every later one. *)
Definition dates_ascending (l : list Shipment) : Prop :=
  forall pre a mid b post, l = pre ++ a :: mid ++ b :: post -> date_order a b.

(** The invariant of the Strategy 1 loop once the shipments [seen] have
    been visited. *)
Definition date_inv (charge_date : Z) (seen : list Shipment)
    (st : option Shipment * Z) : Prop :=
  match fst st with
  | None =>
      snd st = 999%Z
      /\ forall s k, s ∈ seen -> ~ date_eligible charge_date s k
  | Some s =>
      exists pre post,
        seen = pre ++ s :: post
        /\ date_eligible charge_date s (snd st)
        /\ (forall s' k', s' ∈ pre -> date_eligible charge_date s' k' ->
                          (snd st < k')%Z)
        /\ (forall s' k', s' ∈ post -> date_eligible charge_date s' k' ->
                          (snd st <= k')%Z)
  end.

(** The scenario of the specification: a charge on 2024-01-10 and
    shipments of 2024-01-07 and 2024-01-09 (ordinals 738895, 738892 and
    738894). *)
Module DateScenario.

Definition shipment_of (d : option Z) (name : string) (total : Q)
    : Shipment :=
  {| ship_date := d; shipment_total := total;
     shipment_items := [ {| si_name := py name; si_total := total;
                            si_qty := 1 |} ];
     shipment_is_grocery := false |}.

Definition jan07 : Shipment := shipment_of (Some 738892%Z) "Kettle" 40.
Definition jan09 : Shipment := shipment_of (Some 738894%Z) "Lamp" 25.
Definition undated : Shipment := shipment_of None "Cable" 9.
Definition charge_date : Z := 738895.

(** The rows of one order in the order-history export: the lamp first, the
    cable without a ship date, the kettle last. *)
Definition raw_item_of (d : option Z) (name : string) (total : Q) : RawItem :=
  {| ri_order_id := py "113-7654321-1234567"; ri_name := py name;
     ri_total := total; ri_ship_date := d; ri_quantity := 1;
     ri_shipping_option := py "next-day" |}.

Definition raw_items : list RawItem :=
  [ raw_item_of (Some 738894%Z) "Lamp" 25;
    raw_item_of None "Cable" 9;
    raw_item_of (Some 738892%Z) "Kettle" 40 ].

Definition order : Order := make_order raw_items.

End DateScenario.

Local Open Scope Q_scope.

(** [abs(shipment["total"] - abs(amount))] *)
Definition amount_diff (amount : Q) (s : Shipment) : Q :=
  Qabs (shipment_total s - Qabs amount).

(** The invariant of the Strategy 4 loop once the shipments [seen] have
    been visited. *)
Definition best_fit_inv (amount : Q) (seen : list Shipment)
    (st : option Shipment * Q) : Prop :=
  match fst st with
  | None =>
      snd st = 999999
      /\ forall s, s ∈ seen -> 999999 <= amount_diff amount s
  | Some s =>
      exists pre post,
        seen = pre ++ s :: post
        /\ snd st = amount_diff amount s
        /\ amount_diff amount s < 999999
        /\ (forall s', s' ∈ pre -> amount_diff amount s < amount_diff amount s')
        /\ (forall s', s' ∈ post ->
                       amount_diff amount s <= amount_diff amount s')
  end.

(** The one-item match of Strategy 3. *)
Definition single_item_match (item : OrderItem) (amount : Q) : MatchedItem :=
  {| mi_name := oi_name item; mi_base_name := None; mi_amount := amount;
     mi_original_total := None; mi_qty := None |}.

(** An order whose only item was free, and two charges against it. *)
Module ZeroTotal.

Definition order_id : pystr := py "111-2222222-3333333".

Definition shipment : Shipment :=
  {| ship_date := None; shipment_total := 0;
     shipment_items := [ {| si_name := py "Free sample"; si_total := 0;
                            si_qty := 1 |} ];
     shipment_is_grocery := false |}.

Definition order : Order :=
  {| order_shipments := [shipment];
     order_items := [ {| oi_name := py "Free sample"; oi_total := 0 |} ];
     order_is_grocery := false |}.

Definition order_history : gmap pystr Order := {[ order_id := order ]}.

Definition row_of (outflow : Q) : Row :=
  {| row_date_str := py "2024-01-10"; row_charge_date := Some 738895%Z;
     row_payee := py "Amazon.com"; row_order_id := Some order_id;
     row_outflow := Amount outflow; row_inflow := Blank |}.

(** A charge of 5.00 and a charge of 0.50. *)
Definition row_5_00 : Row := row_of 5.
Definition row_0_50 : Row := row_of (1 # 2).

End ZeroTotal.

(** The grocery scenario of the specification: an order of five items
    that all carry a grocery shipping option, charged 30.00 by a payee
    that does not name a grocery service. *)
Module GroceryScenario.

Definition order_id : pystr := py "112-1234567-7654321".

Definition raw (name : string) (total : Q) : RawItem :=
  {| ri_order_id := order_id; ri_name := py name; ri_total := total;
     ri_ship_date := Some 738894%Z; ri_quantity := 1;
     ri_shipping_option := py "scheduled-houdini" |}.

Definition raw_items : list RawItem :=
  [raw "Bananas" 2; raw "Milk" 4; raw "Bread" 5; raw "Eggs" 6;
   raw "Chicken" 13].

Definition order_history : gmap pystr Order := load_order_history raw_items.

Definition row : Row :=
  {| row_date_str := py "2024-01-10"; row_charge_date := Some 738895%Z;
     row_payee := py "AMAZON.COM"; row_order_id := Some order_id;
     row_outflow := Amount 30; row_inflow := Blank |}.

End GroceryScenario.

(** Two delivery tips: one for the grocery order above, one for an order
    the history does not have. *)
Module TipScenario.

Definition tip_row (order_id : string) : Row :=
  {| row_date_str := py "2024-01-11"; row_charge_date := Some 738896%Z;
     row_payee := py "Amazon Tips"; row_order_id := Some (py order_id);
     row_outflow := Amount 5; row_inflow := Blank |}.

Definition known : Row := tip_row "112-1234567-7654321".
Definition unknown : Row := tip_row "999-0000000-0000000".

End TipScenario.

(** A shipment of three items of 1.00 each, charged 1.00 after a gift
    card; and the allocation scenario of the specification, a shipment of
    120.00 and 80.00 charged 140.00. *)
Module AllocationScenario.

Definition order_id : pystr := py "113-7654321-1234567".

Definition order_of (items : list (string * Q)) : Order :=
  make_order
    (map (fun e => {| ri_order_id := order_id; ri_name := py (fst e);
                      ri_total := snd e; ri_ship_date := Some 738894%Z;
                      ri_quantity := 1;
                      ri_shipping_option := py "next-day" |}) items).

Definition three_items : Order :=
  order_of [("Pen"%string, 1); ("Pencil"%string, 1); ("Eraser"%string, 1)].

Definition two_items : Order :=
  order_of [("Item A"%string, 120); ("Item B"%string, 80)].

Definition row_of (outflow : Q) : Row :=
  {| row_date_str := py "2024-01-10"; row_charge_date := Some 738895%Z;
     row_payee := py "Amazon.com"; row_order_id := Some order_id;
     row_outflow := Amount outflow; row_inflow := Blank |}.

End AllocationScenario.

(** The idempotency key of a row, when pass 1 gets as far as computing
    it. *)
Definition row_key (row : Row) : option pystr :=
  if is_amazon_transaction (row_payee row) then
    match row_order_id row, parse_amount row with
    | Some order_id, Some amount => Some (row_import_id order_id amount row)
    | _, _ => None
    end
  else None.

(** A row that creates no record: skipped, or found in the cache. *)
Definition creates_nothing (o : Outcome) : Prop :=
  o = Skipped \/ o = Cached.

(** A transaction already in the ledger under its import id, whose memo
    there differs from the memo of its split. *)
Module SyncScenario.

Definition import_id : pystr := py "AMZ2:113-7654321-1234567:100:P".

Definition txn : Txn :=
  with_splits
    (base_txn (AllocationScenario.row_of 1) import_id
              AllocationScenario.order_id (- 1))
    [ {| split_category := py "Office"; split_amount := - 1;
         split_memo := py "2 x Pen"; split_items := [py "2 x Pen"] |} ].

Definition existing_txns : gmap pystr RemoteTxn :=
  {[ import_id := {| transaction_id := py "t-1";
                     remote_subtransactions :=
                       [ {| remote_memo := Some (py "Pen") |} ] |} ]}.

Definition synced : gset pystr := {[ import_id ]}.

Definition cutoff_date : pystr := py "2021-11-04".

End SyncScenario.

(** What the sync loop reports for a key it does not create. *)
Definition not_created (a : SyncAction) : Prop :=
  a = SyncSkipped \/ a = SyncDuplicate
  \/ exists transaction_id subs, a = SyncUpdate transaction_id subs.

Definition duplicate_or_skipped (a : SyncAction) : Prop :=
  a = SyncSkipped \/ a = SyncDuplicate.
From Stdlib Require DecimalZ DecimalPos.


(** * Further parts of the code *)

Local Open Scope Q_scope.

(** ** Text whose case folding the model has exactly *)

(** [lower] folds the ASCII letters only, where Python's [str.lower] folds
    every cased character. The two agree on text made of ASCII characters
    and of the symbols of the two emoji ranges, which have no case and are
    no lower-case form of any other character. Statements whose truth
    depends on how other characters fold are made for such text. *)
Definition simple_char (c : N) : Prop := (c < 128)%N \/ is_emoji c = true.

Definition simple_text (s : pystr) : Prop := Forall simple_char s.

(** ** Auxiliary notions for the categorizer *)

(** The items of the chunk requests of a trace, in the order sent. *)
Definition chunk_items (trace : list Request) : list pystr :=
  flat_map (fun r => match r with
                     | ReqChunk items => items
                     | _ => []
                     end) trace.

(** A request that is not a chunk request. *)
Definition single_request (r : Request) : Prop :=
  match r with
  | ReqChunk _ => False
  | _ => True
  end.

(** No chunk request carries more than [item_chunk_size] items. *)
Definition chunk_bounded (r : Request) : Prop :=
  match r with
  | ReqChunk items => (length items <= item_chunk_size)%nat
  | _ => True
  end.

(** Every uncached item of a run, with its transaction, in input order
    ([all_item_list]). *)
Definition all_item_list_of (c : CategoryCache)
    (all_items : list (pystr * list pystr)) : list (pystr * pystr) :=
  flat_map (fun '(import_id, items) =>
              map (fun item => (import_id, item)) (uncached c items))
           all_items.

(** [item] is one of the items of transaction [import_id]. *)
Definition item_of (all_items : list (pystr * list pystr))
    (import_id item : pystr) : Prop :=
  exists items, (import_id, items) ∈ all_items /\ item ∈ items.

(** Every item recorded in [results] belongs to the transaction it is
    recorded under. *)
Definition results_owned (all_items : list (pystr * list pystr))
    (res : gmap pystr CatDict) : Prop :=
  forall import_id d cat items item,
    res !! import_id = Some d -> (cat, items) ∈ d -> item ∈ items ->
    item_of all_items import_id item.

(** [results] after the first cache pass and after the second one. *)
Definition first_pass_results (c : CategoryCache)
    (all_items : list (pystr * list pystr)) : gmap pystr CatDict :=
  fold_left (fun res '(import_id, items) =>
               cached_into c import_id (<[import_id := []]> res) items)
            all_items ∅.

Definition second_pass_results (c : CategoryCache)
    (all_items : list (pystr * list pystr)) : gmap pystr CatDict :=
  fold_left (fun res '(import_id, items) =>
               cached_into c import_id res items)
            all_items (first_pass_results c all_items).

(** The state a run starts its chunks from. *)
Definition start_state (c : CategoryCache) (res : gmap pystr CatDict)
    : CatState :=
  {| cs_cache := c; cs_results := res; cs_unmatched := ∅; cs_trace := [] |}.

(** A run from a cache holding one correction, with two further items. *)
Module CachedRun.

Definition cache : CategoryCache :=
  cache_category empty_cache (py "Widget X") (py "Electronics").

Definition all_items : list (pystr * list pystr) :=
  [(py "AMZ2:1:100:P", [py "Widget X"; py "Cable"]);
   (py "AMZ2:2:200:P", [py "Soap"])].

Definition client (n : nat) (r : Request) : Reply :=
  match r with
  | ReqChunk _ => Text (py "1. Electronics
2. Household Supplies")
  | _ => ApiError
  end.

Definition categories : list pystr :=
  [py "Electronics"; py "Household Supplies"].

End CachedRun.

(** The chunk requests sent so far carry the items [sent], and none of
    them more than a chunk's worth. *)
Definition chunks_sent (sent : list pystr) (st : CatState) : Prop :=
  chunk_items (cs_trace st) = sent /\ Forall chunk_bounded (cs_trace st).

(** ** The asynchronous path: a whole response *)

(** The parsing loop of retrieve_batch_results over the text of one
    result. *)
Definition batch_result_response (client : nat -> Request -> Reply)
    (ynab_categories : list pystr) (import_id : pystr) (items : list pystr)
    (st : CatState) (response_text : pystr) : CatState :=
  fold_left (batch_result_line client ynab_categories import_id items)
            (split_lines (strip response_text)) st.

(** A category the asynchronous path may store: a valid one, or the
    fallback. *)
Definition valid_or_fallback (ynab_categories : list pystr) (cat : pystr)
    : Prop :=
  cat ∈ ynab_categories \/ cat = fallback_category ynab_categories.

(** Every category of [res] satisfies [V]. *)
Definition results_valid (V : pystr -> Prop) (res : gmap pystr CatDict)
    : Prop :=
  forall import_id d cat items,
    res !! import_id = Some d -> (cat, items) ∈ d -> V cat.

(** Every cache entry that [c0] did not have satisfies [V]. *)
Definition cache_new_valid (V : pystr -> Prop) (c0 c : CategoryCache)
    : Prop :=
  forall k v, _category_cache c !! k = Some v ->
              _category_cache c0 !! k = Some v \/ V v.

(** ** Even distribution (distribute_amounts) *)

(** [[base_amount] * (num_splits - 1)] is empty when the count is not
    positive; Decimal division and subtraction are taken as exact. *)
Definition distribute_amounts (total : Q) (num_splits : Z) : list Q :=
  if (num_splits =? 0)%Z then []
  else if (num_splits =? 1)%Z then [total]
  else
    let base_amount := round2 (total / inject_Z num_splits) in
    let amounts := repeat base_amount (Z.to_nat (num_splits - 1)) in
    amounts ++ [total - Qsum amounts].

(** ** Auxiliary notions for grouping *)

(** What [group_by key] has made of the elements [seen]: one group per key
    that occurs, holding the elements of that key in their order. *)
Definition grouped {K A} `{EqDecision K} (key : A -> K) (seen : list A)
    (groups : list (K * list A)) : Prop :=
  NoDup (map fst groups)
  /\ (forall k v, (k, v) ∈ groups ->
                  v = filter (fun x => key x = k) seen /\ v <> [])
  /\ (forall x, x ∈ seen -> key x ∈ map fst groups).

(** The projection of an order-history row kept in a shipment. *)
Definition ship_item_of (item : RawItem) : ShipItem :=
  {| si_name := ri_name item; si_total := ri_total item;
     si_qty := ri_quantity item |}.

(** An order loaded from three rows shipped on two days (2024-01-07 and
    2024-01-09). *)
Module TwoShipments.

Definition order_id : pystr := py "114-1111111-2222222".

Definition raw (name : string) (total : Q) (d : Z) : RawItem :=
  {| ri_order_id := order_id; ri_name := py name; ri_total := total;
     ri_ship_date := Some d; ri_quantity := 1;
     ri_shipping_option := py "standard" |}.

Definition raw_items : list RawItem :=
  [raw "Lamp" 25 738894; raw "Kettle" 40 738892; raw "Bulb" 5 738894].

End TwoShipments.

(** ** Auxiliary notions for the run *)

(** A row whose key the loaded cache does not hold. *)
Definition row_is_new (existing_ids : gset pystr) (row : Row) : bool :=
  match row_key row with
  | Some k => negb (bool_decide (k ∈ existing_ids))
  | None => false
  end.

(** ** Batch custom ids (import_id_to_custom_id, custom_id_to_import_id) *)

(** [s.replace(a, b)] for single characters. *)
Definition replace_char (a b : N) (s : pystr) : pystr :=
  map (fun c => if (c =? a)%N then b else c) s.

(** [s.split(sep)] for a single-character separator; [cur] is the piece
    being read, reversed. *)
Fixpoint split_on_aux (sep : N) (cur : pystr) (s : pystr) : list pystr :=
  match s with
  | [] => [rev cur]
  | c :: r => if (c =? sep)%N then rev cur :: split_on_aux sep [] r
              else split_on_aux sep (c :: cur) r
  end.
Definition split_on (sep : N) (s : pystr) : list pystr :=
  split_on_aux sep [] s.

Definition colon : N := 58.
Definition underscore : N := 95.

Definition import_id_to_custom_id (import_id : pystr) : pystr :=
  replace_char colon underscore import_id.

Definition custom_id_to_import_id (custom_id : pystr) : pystr :=
  match split_on underscore custom_id with
  | part0 :: part1 :: part2 :: part3 :: _ =>
      if eqb part0 (py "AMZ2")
      then py "AMZ2:" ++ part1 ++ py ":" ++ part2 ++ py ":" ++ part3
      else replace_char underscore colon custom_id
  | _ => replace_char underscore colon custom_id
  end.

(** A string without colon and underscore. *)
Definition plain (s : pystr) : Prop :=
  Forall (fun c => c <> colon /\ c <> underscore) s.

(** ** Auxiliary notions for the sync *)

Local Open Scope Z_scope.

(** The one comparison subtransactions_differ makes: the first 50
    characters of the memos. *)
Definition memo_agree (l : SubTxn) (r : RemoteSub) : Prop :=
  prefix 50 (sub_memo l) = prefix 50 (default [] (remote_memo r)).

(** A category of the budget, as the ledger client returns it. *)
Record Category := {
  cat_name : pystr;
  cat_id : pystr;
  cat_group_name : pystr
}.

Definition EXCLUDED_CATEGORY_GROUPS : list pystr := [py "library renovation"].

(** A category whose group is not excluded. No character outside ASCII
    lower-cases to a letter of "library renovation", so folding the ASCII
    letters decides this test as [str.lower] does. *)
Definition included (c : Category) : Prop :=
  lower (cat_group_name c) ∉ EXCLUDED_CATEGORY_GROUPS.

(** The mapping from category name (as is, and lower-cased) to id. *)
Definition get_category_mapping (all_categories : list Category)
    : list (pystr * pystr) :=
  fold_left (fun mapping cat =>
               dict_set (dict_set mapping (cat_name cat) (cat_id cat))
                        (lower (cat_name cat)) (cat_id cat))
            (filter included all_categories) [].

(** An entry of the mapping comes from a category that is not excluded. *)
Definition from_category (all_categories : list Category)
    (e : pystr * pystr) : Prop :=
  exists c, c ∈ all_categories /\ included c /\ snd e = cat_id c
            /\ (fst e = cat_name c \/ fst e = lower (cat_name c)).

(** ** The whole sync run (sync_to_ynab.py, sync_transactions) *)

(** The [stats] dict. *)
Record SyncStats := {
  created : nat;
  updated : nat;
  skipped : nat;
  duplicate : nat;
  failed : nat
}.

Definition add_created (n : nat) (s : SyncStats) : SyncStats :=
  {| created := created s + n; updated := updated s; skipped := skipped s;
     duplicate := duplicate s; failed := failed s |}.
Definition add_updated (n : nat) (s : SyncStats) : SyncStats :=
  {| created := created s; updated := updated s + n; skipped := skipped s;
     duplicate := duplicate s; failed := failed s |}.
Definition add_duplicate (n : nat) (s : SyncStats) : SyncStats :=
  {| created := created s; updated := updated s; skipped := skipped s;
     duplicate := duplicate s + n; failed := failed s |}.
Definition add_failed (n : nat) (s : SyncStats) : SyncStats :=
  {| created := created s; updated := updated s; skipped := skipped s;
     duplicate := duplicate s; failed := failed s + n |}.

(** Every counter together. *)
Definition stats_total (s : SyncStats) : nat :=
  (created s + updated s + skipped s + duplicate s + failed s)%nat.

(** How the ledger answers the creation of one batch: the call returns and
    names the import ids it already had, or it raises a rate-limit error
    and the one retry succeeds or raises, or it raises another error. *)
Inductive BatchReply :=
  | BatchOk (duplicate_import_ids : list pystr)
  | BatchRateLimited (retry_ok : bool)
  | BatchError.

(** [txn["import_id"]] of a queued transaction. *)
Definition import_id_of (txn : Txn) : pystr := default [] (txn_import_id txn).

(** [if not import_id] fails: the transaction takes part in the sync. *)
Definition has_import_id (txn : Txn) : bool :=
  match txn_import_id txn with
  | Some (_ :: _) => true
  | _ => false
  end.

Definition is_skipped (a : SyncAction) : bool :=
  match a with SyncSkipped => true | _ => false end.
Definition is_duplicate (a : SyncAction) : bool :=
  match a with SyncDuplicate => true | _ => false end.

(** How many of the first pass's decisions satisfy [p]. *)
Definition count_actions (p : SyncAction -> bool)
    (actions : list (Txn * SyncAction)) : nat :=
  length (filter (fun e => p (snd e) = true) actions).

(** [to_update], as the first pass leaves it. *)
Definition updates_of (actions : list (Txn * SyncAction))
    : list (Txn * pystr * list SubTxn) :=
  omap (fun e => match snd e with
                 | SyncUpdate transaction_id subs =>
                     Some (fst e, transaction_id, subs)
                 | _ => None
                 end) actions.

(** [to_create], as the first pass leaves it. *)
Definition creates_of (actions : list (Txn * SyncAction)) : list Txn :=
  map fst (filter (fun e => is_create (snd e) = true) actions).

Section SyncRun.

Variable cat_mapping : list (pystr * pystr).
Variable existing_txns : gmap pystr RemoteTxn.
Variable cutoff_date : pystr.

(** Whether the n-th call of update_transaction returns (rather than
    raises), and the ledger's answer to the n-th batch. *)
Variable update_ok : nat -> bool.
Variable create_reply : nat -> BatchReply.

(** The update loop, from its n-th call on. *)
Fixpoint update_pass (n : nat) (to_update : list (Txn * pystr * list SubTxn))
    (stats : SyncStats) (synced : gset pystr) : SyncStats * gset pystr :=
  match to_update with
  | [] => (stats, synced)
  | (txn, _, _) :: rest =>
      if update_ok n
      then update_pass (S n) rest (add_updated 1 stats)
                       ({[ import_id_of txn ]} ∪ synced)
      else update_pass (S n) rest (add_failed 1 stats) synced
  end.

(** One batch of creations, given the ledger's answer. *)
Definition create_batch (reply : BatchReply) (batch : list Txn)
    (stats : SyncStats) (synced : gset pystr) : SyncStats * gset pystr :=
  match reply with
  | BatchOk duplicates =>
      fold_left (fun st txn =>
                   let import_id := import_id_of txn in
                   ((if bool_decide (import_id ∈ duplicates)
                     then add_duplicate 1 (fst st)
                     else add_created 1 (fst st)),
                    {[ import_id ]} ∪ snd st))
                batch (stats, synced)
  | BatchRateLimited true =>
      fold_left (fun st txn =>
                   (add_created 1 (fst st), {[ import_id_of txn ]} ∪ snd st))
                batch (stats, synced)
  | BatchRateLimited false | BatchError =>
      (add_failed (length batch) stats, synced)
  end.

(** The creation loop, from its n-th batch on. *)
Fixpoint create_pass (n : nat) (batches : list (list Txn))
    (stats : SyncStats) (synced : gset pystr) : SyncStats * gset pystr :=
  match batches with
  | [] => (stats, synced)
  | batch :: rest =>
      let '(stats1, synced1) :=
        create_batch (create_reply n) batch stats synced in
      create_pass (S n) rest stats1 synced1
  end.

Definition batch_size : nat := 50.

(** sync_transactions from the first pass on: the final [stats] and the
    [synced] set written back to the cache file. *)
Definition sync_transactions (dry_run : bool) (synced : gset pystr)
    (transactions : list Txn) : SyncStats * gset pystr :=
  let '(actions, synced1) :=
    first_pass cat_mapping existing_txns cutoff_date synced transactions in
  let to_update := updates_of actions in
  let to_create := creates_of actions in
  let stats :=
    {| created := 0; updated := 0;
       skipped := count_actions is_skipped actions;
       duplicate := count_actions is_duplicate actions;
       failed := 0 |} in
  let '(stats1, synced2) :=
    if dry_run then (add_updated (length to_update) stats, synced1)
    else update_pass 0 to_update stats synced1 in
  if dry_run then (add_created (length to_create) stats1, synced2)
  else create_pass 0 (chunks_of (length to_create) batch_size to_create)
                   stats1 synced2.

End SyncRun.

(** * Properties *)

(** ** Properties of match_category *)

Lemma first_match_elem (p : pystr -> bool) (l : list pystr) (y : pystr) :
  first_match p l = Some y -> y ∈ l /\ p y = true.
Proof.
  unfold first_match. intros H. apply find_some in H as [Hin Hp].
  split; [by apply list_elem_of_In | done].
Qed.

(** C10. Whenever match_category reports a match, the category it returns
    is one of the valid categories; and an input that is itself a valid
    category is returned unchanged, as matched. *)
Theorem match_category_sound (cat : pystr) (ynab_categories : list pystr) :
  (forall y, match_category cat ynab_categories = (y, true) ->
             y ∈ ynab_categories)
  /\ (cat ∈ ynab_categories ->
      match_category cat ynab_categories = (cat, true)).
Proof.
  split.
  - intros y. unfold match_category.
    case_bool_decide as Hmem.
    + intros [= ?]; subst. exact Hmem.
    + repeat match goal with
        | |- context [match first_match ?p ?l with _ => _ end] =>
            let E := fresh "E" in
            destruct (first_match p l) eqn:E;
            [ intros [= ?]; subst; by apply first_match_elem in E as [? _] | ]
        end.
      intros H; inversion H.
  - intros Hmem. unfold match_category. by rewrite bool_decide_eq_true_2.
Qed.

Lemma match_category_sound_witness :
  (127890%N :: py " Gear") ∈ sample_categories
  /\ match_category (py "Pasta & Grains") sample_categories
     = (py "Pasta & Grains", true).
Proof.
  split.
  - apply (proj1 (match_category_sound (py "gear") sample_categories)).
    vm_compute. reflexivity.
  - apply (proj2 (match_category_sound (py "Pasta & Grains")
                    sample_categories)).
    unfold sample_categories. set_solver.
Defined.

(** ** Properties of the cache and the categorizer *)

Lemma cache_category_lookup (c : CategoryCache) (name category : pystr) :
  _normalize_item_name name <> [] -> category <> [] ->
  get_cached_category (cache_category c name category) name = Some category.
Proof.
  intros Hk Hc. unfold get_cached_category, cache_category.
  rewrite !bool_decide_eq_true_2 by done. simpl.
  apply lookup_insert_eq.
Qed.

Section CategorizerFacts.

Variable client : nat -> Request -> Reply.
Variable ynab_categories : list pystr.
Variable P : pystr -> Prop.







End CategorizerFacts.









(** The asynchronous path assigns the fallback category to an item whose
    category text neither matches nor is repaired by the retry. *)
Lemma batch_result_line_fallback :
  let st := batch_result_line UnmatchedRun.client UnmatchedRun.categories
              UnmatchedRun.import_id [py "Widget"] UnmatchedRun.start
              (py "1. Gadgets") in
  cs_results st !! UnmatchedRun.import_id
    = Some [(py "Groceries", [py "Widget"])]
  /\ get_cached_category (cs_cache st) (py "Widget") = Some (py "Groceries")
  /\ py "Gadgets" ∈ cs_unmatched st.
Proof. vm_compute. split; [reflexivity|]. split; [reflexivity|]. reflexivity. Qed.

(** C9 (fails on the synchronous path). For the item "Widget", the valid
    categories Electronics and Groceries, the chunk response "1. Gadgets"
    and the retry response "Stuff", batch_categorize_items records the
    text "Gadgets" as unmatched and then stores and caches the item under
    that very text, which is not a valid category; no fallback category is
    assigned. *)
Theorem batch_categorize_items_keeps_unmatched_text :
  let st := batch_categorize_items UnmatchedRun.client
              UnmatchedRun.categories UnmatchedRun.all_items empty_cache in
  cs_trace st = [ReqChunk [py "Widget"]; ReqRetry (py "Widget")]
  /\ py "Gadgets" ∈ cs_unmatched st
  /\ cs_results st !! UnmatchedRun.import_id
     = Some [(py "Gadgets", [py "Widget"])]
  /\ get_cached_category (cs_cache st) (py "Widget") = Some (py "Gadgets")
  /\ py "Gadgets" ∉ UnmatchedRun.categories.
Proof.
  vm_compute. repeat split; try reflexivity.
  intros H. apply list_elem_of_In in H. simpl in H.
  destruct H as [H|[H|[]]]; discriminate H.
Qed.


(** ** Strategy 1: date proximity *)

Section DateMatch.

Local Open Scope Z_scope.

Variable charge_date : Z.

Lemma date_eligible_unique s k k' :
  date_eligible charge_date s k -> date_eligible charge_date s k' -> k = k'.
Proof. intros (d & Hd & -> & _) (d' & Hd' & -> & _). congruence. Qed.

Lemma date_step_inv seen st x :
  date_inv charge_date seen st ->
  date_inv charge_date (seen ++ [x]) (date_step charge_date st x).
Proof.
  destruct st as [best bd]. unfold date_inv, date_step. simpl.
  intros Hinv.
  destruct (ship_date x) as [d|] eqn:Hd.
  - destruct (_ && _) eqn:Hc; simpl.
    + (* the shipment becomes the best match *)
      apply andb_true_iff in Hc as [Hc Hlt].
      apply andb_true_iff in Hc as [H0 H7].
      apply Z.leb_le in H0, H7. apply Z.ltb_lt in Hlt.
      exists seen, []. split; [done|]. split.
      { exists d. repeat split; [done|lia|lia]. }
      split; [|intros ? ? Hin; by apply elem_of_nil in Hin].
      intros s' k' Hin Hel.
      destruct best as [s|].
      * destruct Hinv as (pre & post & -> & Hs & Hpre & Hpost).
        apply elem_of_app in Hin as [Hin|Hin].
        { specialize (Hpre _ _ Hin Hel). lia. }
        apply elem_of_cons in Hin as [->|Hin].
        { rewrite (date_eligible_unique _ _ _ Hel Hs). lia. }
        specialize (Hpost _ _ Hin Hel). lia.
      * destruct Hinv as [_ Hnone]. by destruct (Hnone _ _ Hin Hel).
    + (* the shipment is passed over *)
      destruct best as [s|].
      * destruct Hinv as (pre & post & -> & Hs & Hpre & Hpost).
        exists pre, (post ++ [x]). split; [by rewrite <- app_assoc|].
        split; [done|]. split; [done|].
        intros s' k' Hin Hel.
        apply elem_of_app in Hin as [Hin|Hin]; [by eapply Hpost|].
        apply list_elem_of_singleton in Hin as ->.
        destruct Hel as (d' & Hd' & -> & Hr).
        assert (d' = d) as -> by congruence.
        apply andb_false_iff in Hc as [Hc|Hc]; [|apply Z.ltb_ge in Hc; lia].
        apply andb_false_iff in Hc as [Hc|Hc];
          [apply Z.leb_gt in Hc | apply Z.leb_gt in Hc]; lia.
      * destruct Hinv as [-> Hnone]. split; [done|].
        intros s' k' Hin Hel.
        apply elem_of_app in Hin as [Hin|Hin]; [by eapply Hnone|].
        apply list_elem_of_singleton in Hin as ->.
        destruct Hel as (d' & Hd' & -> & Hr).
        assert (d' = d) as -> by congruence.
        apply andb_false_iff in Hc as [Hc|Hc]; [|apply Z.ltb_ge in Hc; lia].
        apply andb_false_iff in Hc as [Hc|Hc];
          [apply Z.leb_gt in Hc | apply Z.leb_gt in Hc]; lia.
  - (* no ship date *)
    destruct best as [s|].
    + destruct Hinv as (pre & post & -> & Hs & Hpre & Hpost).
      exists pre, (post ++ [x]). split; [by rewrite <- app_assoc|].
      split; [done|]. split; [done|].
      intros s' k' Hin Hel.
      apply elem_of_app in Hin as [Hin|Hin]; [by eapply Hpost|].
      apply list_elem_of_singleton in Hin as ->.
      destruct Hel as (d' & Hd' & _). congruence.
    + destruct Hinv as [-> Hnone]. split; [done|].
      intros s' k' Hin Hel.
      apply elem_of_app in Hin as [Hin|Hin]; [by eapply Hnone|].
      apply list_elem_of_singleton in Hin as ->.
      destruct Hel as (d' & Hd' & _). congruence.
Qed.

Lemma date_fold_inv shipments seen st :
  date_inv charge_date seen st ->
  date_inv charge_date (seen ++ shipments)
           (fold_left (date_step charge_date) shipments st).
Proof.
  revert seen st. induction shipments as [|x l IH]; intros seen st Hinv.
  - by rewrite app_nil_r.
  - simpl. replace (seen ++ x :: l) with ((seen ++ [x]) ++ l)
      by (by rewrite <- app_assoc).
    apply IH. by apply date_step_inv.
Qed.

Lemma match_by_date_inv shipments :
  date_inv charge_date shipments
           (fold_left (date_step charge_date) shipments (None, 999)).
Proof.
  apply (date_fold_inv shipments [] (None, 999)).
  split; [done|]. intros s k Hin. by apply elem_of_nil in Hin.
Qed.

End DateMatch.

(** ** The shipment sort of load_order_history *)

Lemma insert_by_key_perm (s : Shipment) (l : list Shipment) :
  insert_by_key s l ≡ₚ s :: l.
Proof.
  induction l as [|y r IH]; simpl; [done|].
  destruct (sort_key s <=? sort_key y)%Z; [done|].
  rewrite IH. apply Permutation_swap.
Qed.

Lemma insert_by_key_hd (s : Shipment) (l : list Shipment) (a : Shipment) :
  key_le a s -> HdRel key_le a l -> HdRel key_le a (insert_by_key s l).
Proof.
  intros Has Hl. destruct l as [|y r]; simpl; [by constructor|].
  destruct (sort_key s <=? sort_key y)%Z; constructor; [done|].
  by inversion Hl.
Qed.

Lemma insert_by_key_sorted (s : Shipment) (l : list Shipment) :
  Sorted key_le l -> Sorted key_le (insert_by_key s l).
Proof.
  induction 1 as [|y r Hr IH Hhd]; simpl; [by repeat constructor|].
  destruct (sort_key s <=? sort_key y)%Z eqn:Hc.
  - apply Z.leb_le in Hc. constructor; [by constructor|by constructor].
  - apply Z.leb_gt in Hc. constructor; [exact IH|].
    apply insert_by_key_hd; [|done]. unfold key_le. lia.
Qed.

Lemma sort_shipments_sorted (l : list Shipment) :
  Sorted key_le (sort_shipments l).
Proof.
  induction l as [|s l IH]; simpl; [constructor|].
  by apply insert_by_key_sorted.
Qed.

Lemma sort_shipments_perm (l : list Shipment) : sort_shipments l ≡ₚ l.
Proof.
  induction l as [|s l IH]; simpl; [done|].
  by rewrite insert_by_key_perm, IH.
Qed.

Lemma key_le_date_order (a b : Shipment) : key_le a b -> date_order a b.
Proof.
  unfold key_le, sort_key, date_order, date_max.
  destruct (ship_date a), (ship_date b); simpl; done.
Qed.

Lemma sorted_pairs {A} (R : A -> A -> Prop) (l : list A) :
  Transitive R -> Sorted R l ->
  forall pre a mid b post, l = pre ++ a :: mid ++ b :: post -> R a b.
Proof.
  intros Htr Hs pre a mid b post ->.
  apply Sorted_StronglySorted in Hs; [|exact Htr].
  induction pre as [|x pre IH]; simpl in Hs.
  - apply StronglySorted_inv in Hs as [_ Hall].
    rewrite Forall_forall in Hall. apply Hall.
    apply elem_of_app. right. by left.
  - apply StronglySorted_inv in Hs as [Hs _]. by apply IH.
Qed.

Lemma sort_shipments_ascending (l : list Shipment) :
  dates_ascending (sort_shipments l).
Proof.
  intros pre a mid b post Heq. apply key_le_date_order.
  eapply (sorted_pairs key_le); [|apply sort_shipments_sorted|exact Heq].
  intros x y z. unfold key_le. lia.
Qed.

(** The date strategy has the first word: what it selects is the matched
    shipment, whatever the amount. *)
Lemma match_charge_by_date (charge_date : Z) (amount : Q) (order : Order)
    (s : Shipment) :
  match_by_date charge_date (order_shipments order) = Some s ->
  fst (match_charge (Some charge_date) amount order) = Some s.
Proof. intros H. unfold match_charge. by rewrite H. Qed.

(** Without a date match the charge is handled like one without a date. *)
Lemma match_charge_no_date (charge_date : Z) (amount : Q) (order : Order) :
  match_by_date charge_date (order_shipments order) = None ->
  match_charge (Some charge_date) amount order
  = match_charge None amount order.
Proof. intros H. unfold match_charge. by rewrite H. Qed.

(** C2. Strategy 1 of the shipment matcher. For every charge date, amount
    and order: when some shipment with a known ship date lies 0 to 7 days
    before the charge, the shipment the matcher returns is such a shipment,
    whatever the amount (the date strategy precedes the amount
    strategies), and its day difference is strictly smaller than that of
    every eligible shipment before it in the order's list and not larger
    than that of every eligible shipment after it: the closest one, the
    earliest in list order among equals. When no shipment is eligible the
    date strategy selects nothing and the charge is matched as a charge
    without a date. The list of an order as load_order_history builds it
    holds the shipments made of the rows grouped by ship date, in
    ascending order of ship date, shipments without a date where
    9999-12-31 would stand. The result is a function of its inputs. *)
Theorem date_strategy_first_closest (charge_date : Z) (amount : Q)
    (order : Order) (raw_items : list RawItem) :
  (forall s0 k0,
     s0 ∈ order_shipments order -> date_eligible charge_date s0 k0 ->
     exists s pre post k,
       fst (match_charge (Some charge_date) amount order) = Some s
       /\ order_shipments order = pre ++ s :: post
       /\ date_eligible charge_date s k
       /\ (forall s' k', s' ∈ pre -> date_eligible charge_date s' k' ->
                         (k < k')%Z)
       /\ (forall s' k', s' ∈ post -> date_eligible charge_date s' k' ->
                         (k <= k')%Z))
  /\ ((forall s k, s ∈ order_shipments order ->
                   ~ date_eligible charge_date s k) ->
      match_by_date charge_date (order_shipments order) = None
      /\ match_charge (Some charge_date) amount order
         = match_charge None amount order)
  /\ dates_ascending (order_shipments (make_order raw_items))
  /\ order_shipments (make_order raw_items)
     ≡ₚ map (fun g => make_shipment (snd g))
            (group_by ri_ship_date raw_items).
Proof.
  pose proof (match_by_date_inv charge_date (order_shipments order)) as Hinv.
  unfold date_inv in Hinv.
  split; [|split; [|split]].
  - intros s0 k0 Hin0 Hel0.
    destruct (match_by_date charge_date (order_shipments order))
      as [s|] eqn:Hm.
    + pose proof (match_charge_by_date charge_date amount order s Hm) as Hc.
      unfold match_by_date in Hm.
      destruct (fold_left _ _ _) as [best bd]. cbn [fst snd] in *.
      subst best. destruct Hinv as (pre & post & Heq & Hel & Hpre & Hpost).
      by exists s, pre, post, bd.
    + exfalso. unfold match_by_date in Hm.
      destruct (fold_left _ _ _) as [best bd]. cbn [fst snd] in *.
      subst best. destruct Hinv as [_ Hnone]. by apply (Hnone s0 k0).
  - intros Hnone.
    assert (match_by_date charge_date (order_shipments order) = None) as Hm.
    { unfold match_by_date.
      destruct (fold_left _ _ _) as [[s|] bd]; [|done]. cbn [fst snd] in *.
      destruct Hinv as (pre & post & Heq & Hel & _). exfalso.
      apply (Hnone s bd); [|done]. rewrite Heq.
      apply elem_of_app. right. by left. }
    split; [exact Hm|]. by apply match_charge_no_date.
  - apply sort_shipments_ascending.
  - apply sort_shipments_perm.
Qed.

Lemma date_strategy_first_closest_witness :
  exists s pre post k,
    fst (match_charge (Some DateScenario.charge_date) 9 DateScenario.order)
      = Some s
    /\ order_shipments DateScenario.order = pre ++ s :: post
    /\ date_eligible DateScenario.charge_date s k.
Proof.
  destruct (proj1 (date_strategy_first_closest
                     DateScenario.charge_date 9 DateScenario.order
                     DateScenario.raw_items)
              DateScenario.jan09 1%Z)
    as (s & pre & post & k & Hm & Heq & Hel & _).
  - apply list_elem_of_In. vm_compute. right. left. reflexivity.
  - exists 738894%Z. vm_compute. repeat split; discriminate.
  - exists s, pre, post, k. split; [exact Hm|]. split; [exact Heq|exact Hel].
Defined.

(** ** Strategies 2 to 4 and the allocation guard *)

Section Fallbacks.

Local Open Scope Q_scope.

Lemma Qltb_lt (x y : Q) : Qltb x y = true <-> x < y.
Proof.
  unfold Qltb. rewrite negb_true_iff. split.
  - intros H. apply Qnot_le_lt. intros Hle.
    apply Qle_bool_iff in Hle. congruence.
  - intros H. destruct (Qle_bool y x) eqn:E; [|done].
    apply Qle_bool_iff in E. by apply Qlt_not_le in H.
Qed.

Lemma Qltb_ge (x y : Q) : Qltb x y = false <-> y <= x.
Proof.
  unfold Qltb. rewrite negb_false_iff. apply Qle_bool_iff.
Qed.

(** [find] returns the first element that satisfies the test. *)
Lemma find_first {A} (p : A -> bool) (l : list A) (x : A) :
  find p l = Some x ->
  exists pre post, l = pre ++ x :: post /\ p x = true
                   /\ forall y, y ∈ pre -> p y = false.
Proof.
  induction l as [|a l IH]; simpl; [done|].
  destruct (p a) eqn:Ha.
  - intros [= ->]. exists [], l. split; [done|]. split; [done|].
    intros y Hy. by apply elem_of_nil in Hy.
  - intros Hf. destruct (IH Hf) as (pre & post & -> & Hx & Hpre).
    exists (a :: pre), post. split; [done|]. split; [done|].
    intros y Hy. apply elem_of_cons in Hy as [->|Hy]; [done|by apply Hpre].
Qed.

Variable amount : Q.

Lemma best_fit_step_inv seen st x :
  best_fit_inv amount seen st ->
  best_fit_inv amount (seen ++ [x]) (best_fit_step amount st x).
Proof.
  destruct st as [best bd]. unfold best_fit_inv, best_fit_step.
  cbn [fst snd]. fold (amount_diff amount x).
  intros Hinv. destruct (Qltb (amount_diff amount x) bd) eqn:Hc; cbn [fst snd].
  - apply Qltb_lt in Hc.
    exists seen, []. split; [done|]. split; [done|].
    destruct best as [s|].
    + destruct Hinv as (pre & post & -> & -> & Hs & Hpre & Hpost).
      split; [by eapply Qlt_trans|].
      split; [|intros ? Hin; by apply elem_of_nil in Hin].
      intros s' Hin.
      apply elem_of_app in Hin as [Hin|Hin].
      { eapply Qlt_trans; [exact Hc | by apply Hpre]. }
      apply elem_of_cons in Hin as [->|Hin]; [done|].
      eapply Qlt_le_trans; [exact Hc | by apply Hpost].
    + destruct Hinv as [-> Hnone].
      split; [done|].
      split; [|intros ? Hin; by apply elem_of_nil in Hin].
      intros s' Hin. eapply Qlt_le_trans; [exact Hc | by apply Hnone].
  - apply Qltb_ge in Hc.
    destruct best as [s|].
    + destruct Hinv as (pre & post & -> & -> & Hs & Hpre & Hpost).
      exists pre, (post ++ [x]). split; [by rewrite <- app_assoc|].
      split; [done|]. split; [done|]. split; [done|].
      intros s' Hin.
      apply elem_of_app in Hin as [Hin|Hin]; [by apply Hpost|].
      by apply list_elem_of_singleton in Hin as ->.
    + destruct Hinv as [-> Hnone]. split; [done|].
      intros s' Hin.
      apply elem_of_app in Hin as [Hin|Hin]; [by apply Hnone|].
      by apply list_elem_of_singleton in Hin as ->.
Qed.

Lemma best_fit_fold_inv shipments seen st :
  best_fit_inv amount seen st ->
  best_fit_inv amount (seen ++ shipments)
               (fold_left (best_fit_step amount) shipments st).
Proof.
  revert seen st. induction shipments as [|x l IH]; intros seen st Hinv.
  - by rewrite app_nil_r.
  - simpl. replace (seen ++ x :: l) with ((seen ++ [x]) ++ l)
      by (by rewrite <- app_assoc).
    apply IH. by apply best_fit_step_inv.
Qed.

(** Strategy 4 finds the first shipment of smallest difference, provided
    that difference is below the initial bound 999999. *)
Lemma match_best_fit_spec shipments :
  (match_best_fit amount shipments = None <->
     forall s, s ∈ shipments -> 999999 <= amount_diff amount s)
  /\ (forall s, match_best_fit amount shipments = Some s ->
        exists pre post,
          shipments = pre ++ s :: post
          /\ amount_diff amount s < 999999
          /\ (forall s', s' ∈ pre ->
                         amount_diff amount s < amount_diff amount s')
          /\ (forall s', s' ∈ post ->
                         amount_diff amount s <= amount_diff amount s')).
Proof.
  pose proof (best_fit_fold_inv shipments [] (None, 999999)) as Hinv.
  simpl in Hinv. unfold match_best_fit.
  destruct (fold_left _ _ _) as [best bd].
  unfold best_fit_inv in Hinv. simpl in *.
  destruct best as [s|].
  - destruct Hinv as (pre & post & -> & _ & Hs & Hpre & Hpost).
    { split; [done|]. intros ? Hin. by apply elem_of_nil in Hin. }
    split.
    + split; [done|]. intros Hall. exfalso.
      apply (Qlt_not_le _ _ Hs). apply Hall.
      apply elem_of_app. right. by left.
    + intros ? [= <-]. by exists pre, post.
  - destruct Hinv as [_ Hnone].
    { split; [done|]. intros ? Hin. by apply elem_of_nil in Hin. }
    split; [done|]. by intros ? [=].
Qed.

End Fallbacks.

Local Open Scope Q_scope.

(** C3 (as the code has it). When no shipment matches by date proximity:
    the matcher selects the first shipment whose total is within 1.00 of
    the absolute charge; failing that, the first order item within the
    same tolerance, as a one-item match carrying the signed charge amount;
    failing that, the first shipment of smallest difference among those
    whose difference is below 999999, and none when every difference is at
    least 999999. A selected shipment is itemized only when its total is
    positive: otherwise no items are matched. *)
Theorem fallback_cascade (charge_date : option Z) (amount : Q)
    (order : Order) :
  match charge_date with
  | Some d => match_by_date d (order_shipments order)
  | None => None
  end = None ->
  (forall s, match_by_amount amount (order_shipments order) = Some s ->
     fst (match_charge charge_date amount order) = Some s
     /\ exists pre post,
          order_shipments order = pre ++ s :: post
          /\ within_dollar (shipment_total s) amount = true
          /\ forall s', s' ∈ pre ->
                        within_dollar (shipment_total s') amount = false)
  /\ (match_by_amount amount (order_shipments order) = None ->
      forall item, match_single_item amount (order_items order) = Some item ->
        match_charge charge_date amount order
          = (None, Some [single_item_match item amount])
        /\ exists pre post,
             order_items order = pre ++ item :: post
             /\ within_dollar (oi_total item) amount = true
             /\ forall i, i ∈ pre -> within_dollar (oi_total i) amount = false)
  /\ (match_by_amount amount (order_shipments order) = None ->
      match_single_item amount (order_items order) = None ->
      fst (match_charge charge_date amount order)
        = match_best_fit amount (order_shipments order)
      /\ (match_best_fit amount (order_shipments order) = None <->
            forall s, s ∈ order_shipments order ->
                      999999 <= amount_diff amount s)
      /\ forall s, match_best_fit amount (order_shipments order) = Some s ->
           exists pre post,
             order_shipments order = pre ++ s :: post
             /\ amount_diff amount s < 999999
             /\ (forall s', s' ∈ pre ->
                            amount_diff amount s < amount_diff amount s')
             /\ (forall s', s' ∈ post ->
                            amount_diff amount s <= amount_diff amount s'))
  /\ (forall s, fst (match_charge charge_date amount order) = Some s ->
        snd (match_charge charge_date amount order)
          = if Qltb 0 (shipment_total s)
            then Some (allocate (Qabs amount) s) else None).
Proof.
  intros Hdate. unfold match_charge. rewrite Hdate.
  split; [|split; [|split]].
  - intros s Hs. rewrite Hs. cbn [fst]. split; [done|].
    by apply find_first in Hs.
  - intros Hnone item Hitem. rewrite Hnone, Hitem. split; [done|].
    by apply find_first in Hitem.
  - intros Hnone Hitem. rewrite Hnone, Hitem.
    split; [by destruct (match_best_fit _ _)|].
    apply match_best_fit_spec.
  - intros s.
    destruct (match_by_amount _ _) as [s2|].
    { by intros [= ->]. }
    destruct (match_single_item _ _) as [item|]; [by intros [=]|].
    destruct (match_best_fit _ _) as [s4|]; [by intros [= ->] | by intros [=]].
Qed.

Lemma fallback_cascade_witness :
  fst (match_charge None (- (1 # 2)) ZeroTotal.order)
    = Some ZeroTotal.shipment.
Proof.
  refine (proj1 (proj1 (fallback_cascade None (- (1 # 2)) ZeroTotal.order _)
                   ZeroTotal.shipment _)).
  - reflexivity.
  - vm_compute. reflexivity.
Defined.

(** C3 fails as stated. An order with one shipment, whose only item was
    free, charged 5.00: best fit selects the shipment, its total is not
    positive, and the charge is emitted flagged, without items and without
    splits. And a shipment of 25.00 against a charge of 1,000,025.00 is
    not selected by best fit at all. *)
Lemma fallback_cascade_counterexample :
  order_shipments ZeroTotal.order = [ZeroTotal.shipment]
  /\ (exists txn,
        process_row ZeroTotal.order_history ∅ ZeroTotal.row_5_00
          = NotFound txn
        /\ txn_flag txn = py "blue"
        /\ txn_memo txn
           = py "Order 111-2222222-3333333 - NO SHIPMENT MATCH"
        /\ txn_splits txn = []
        /\ txn_items_with_amounts txn = None)
  /\ match_best_fit (- 1000025) [DateScenario.jan09] = None.
Proof.
  split; [reflexivity|]. split; [|vm_compute; reflexivity].
  eexists. split; [vm_compute; reflexivity|].
  repeat split; vm_compute; reflexivity.
Qed.

(** A selected shipment is itemized exactly when its total is positive. *)
Lemma match_charge_shipment (charge_date : option Z) (amount : Q)
    (order : Order) (s : Shipment) :
  fst (match_charge charge_date amount order) = Some s ->
  snd (match_charge charge_date amount order)
    = if Qltb 0 (shipment_total s)
      then Some (allocate (Qabs amount) s) else None.
Proof.
  unfold match_charge.
  destruct (match charge_date with Some d => _ | None => None end) as [s1|].
  { by intros [= ->]. }
  destruct (match_by_amount _ _) as [s2|]; [by intros [= ->]|].
  destruct (match_single_item _ _) as [item|]; [by intros [=]|].
  destruct (match_best_fit _ _) as [s4|]; [by intros [= ->] | by intros [=]].
Qed.

(** C4 (as the code has it). For every charge matched to a shipment whose
    total is not positive, no division takes place and no item is
    allocated: the charge is emitted flagged blue with the memo
    NO SHIPMENT MATCH, the names of the order's items attached and no
    splits. *)
Theorem zero_total_shipment_flagged
    (order_history : gmap pystr Order) (existing_ids : gset pystr)
    (row : Row) (order_id : pystr) (amount : Q) (order : Order)
    (s : Shipment) :
  is_amazon_transaction (row_payee row) = true ->
  row_order_id row = Some order_id ->
  parse_amount row = Some amount ->
  row_import_id order_id amount row ∉ existing_ids ->
  order_history !! order_id = Some order ->
  contains (py "amazon tips") (lower (row_payee row)) = false ->
  fst (match_charge (row_charge_date row) amount order) = Some s ->
  shipment_total s <= 0 ->
  snd (match_charge (row_charge_date row) amount order) = None
  /\ process_row order_history existing_ids row
     = NotFound
         (with_flag_memo
            (base_txn row (row_import_id order_id amount row) order_id amount)
            (py "blue")
            (py "Order " ++ order_id ++ py " - NO SHIPMENT MATCH")
            (Some (map oi_name (order_items order)))).
Proof.
  intros Hamazon Hid Hamount Hnew Horder Htip Hs Hzero.
  assert (snd (match_charge (row_charge_date row) amount order) = None)
    as Hnone.
  { rewrite (match_charge_shipment _ _ _ _ Hs).
    destruct (Qltb 0 (shipment_total s)) eqn:E; [|done].
    apply Qltb_lt in E. by apply Qlt_not_le in E. }
  split; [exact Hnone|].
  unfold process_row. rewrite Hamazon, Hid, Hamount. cbn [negb].
  rewrite bool_decide_eq_false_2 by done.
  rewrite Horder, Htip.
  destruct (match_charge _ _ _) as [ms mi]. simpl in Hnone. by subst mi.
Qed.

Lemma zero_total_shipment_flagged_witness :
  snd (match_charge (row_charge_date ZeroTotal.row_0_50) (- (1 # 2))
         ZeroTotal.order) = None.
Proof.
  refine (proj1 (zero_total_shipment_flagged ZeroTotal.order_history ∅
                   ZeroTotal.row_0_50 ZeroTotal.order_id (- (1 # 2))
                   ZeroTotal.order ZeroTotal.shipment _ _ _ _ _ _ _ _)).
  - reflexivity.
  - reflexivity.
  - reflexivity.
  - apply not_elem_of_empty.
  - reflexivity.
  - vm_compute. reflexivity.
  - vm_compute. reflexivity.
  - vm_compute. discriminate.
Defined.

(** C4 fails as stated. A charge of 0.50 against the order whose only
    shipment has total zero: the amount strategy selects the shipment, and
    the charge is emitted flagged and without any allocated item, rather
    than with the item at its raw total. *)
Lemma zero_total_shipment_counterexample :
  fst (match_charge (row_charge_date ZeroTotal.row_0_50) (- (1 # 2))
         ZeroTotal.order) = Some ZeroTotal.shipment
  /\ shipment_total ZeroTotal.shipment = 0
  /\ exists txn,
       process_row ZeroTotal.order_history ∅ ZeroTotal.row_0_50
         = NotFound txn
       /\ txn_flag txn = py "blue"
       /\ txn_memo txn = py "Order 111-2222222-3333333 - NO SHIPMENT MATCH"
       /\ txn_items_with_amounts txn = None
       /\ txn_splits txn = [].
Proof.
  split; [vm_compute; reflexivity|]. split; [reflexivity|].
  eexists. split; [vm_compute; reflexivity|].
  repeat split; vm_compute; reflexivity.
Qed.

(** ** Grocery orders and tips *)

Lemma emitted_in_run client cats order_history batch category_cache
    (transactions : list Txn) (rows : list Row) (row : Row) (txn : Txn) :
  row ∈ rows ->
  emitted (process_row order_history (existing_ids_of transactions) row)
    = Some txn ->
  txn ∈ run_transactions
          (main client cats order_history batch category_cache
                transactions rows).
Proof.
  intros Hrow Hem.
  assert (txn ∈ transactions
                ++ omap emitted
                     (map (process_row order_history
                             (existing_ids_of transactions)) rows)) as Hin.
  { apply elem_of_app. right. apply list_elem_of_omap.
    eexists. split; [|exact Hem].
    apply list_elem_of_fmap. by exists row. }
  unfold main. destruct (items_to_categorize_of _); [done|].
  destruct batch; cbn [run_transactions]; apply elem_of_app; by left.
Qed.




Lemma startswith_app (p q s : pystr) :
  startswith (p ++ q) s = true -> startswith p s = true.
Proof.
  revert s. induction p as [|a p IH]; intros s; [done|].
  destruct s as [|b s]; simpl; [done|].
  intros H. apply andb_true_iff in H as [Hab Hrest].
  rewrite Hab. by apply IH.
Qed.

Lemma contains_app (p q s : pystr) :
  contains (p ++ q) s = true -> contains p s = true.
Proof.
  induction s as [|b s IH].
  - simpl. rewrite !orb_false_r. apply startswith_app.
  - cbn [contains]. intros H. apply orb_true_iff in H as [H|H].
    + apply startswith_app in H. by rewrite H.
    + rewrite (IH H). by rewrite orb_true_r.
Qed.

Lemma tip_is_amazon (payee : pystr) :
  contains (py "amazon tips") (lower payee) = true ->
  is_amazon_transaction payee = true.
Proof.
  intros H. unfold is_amazon_transaction. cbn [existsb].
  change (py "amazon tips") with (py "amazon" ++ py " tips") in H.
  apply contains_app in H. by rewrite H.
Qed.

(** The tip case where it is reached. For every charge whose payee carries
    the tip marker, whose amount parses, whose import id is not in the
    cache and whose order is in the order history, the builder emits a
    single split of category Delivery Fee and of the signed charge amount,
    with no items, whatever the order holds: the tip case comes before
    shipment matching, before the no-shipment-match case and before
    grocery handling. *)
Lemma tip_single_split
    (client : nat -> Request -> Reply) (ynab_categories : list pystr)
    (batch : bool) (category_cache : CategoryCache)
    (order_history : gmap pystr Order) (transactions : list Txn)
    (rows : list Row) (row : Row) (order_id : pystr) (amount : Q)
    (order : Order) :
  row ∈ rows ->
  contains (py "amazon tips") (lower (row_payee row)) = true ->
  row_order_id row = Some order_id ->
  parse_amount row = Some amount ->
  row_import_id order_id amount row ∉ existing_ids_of transactions ->
  order_history !! order_id = Some order ->
  exists txn,
    process_row order_history (existing_ids_of transactions) row
      = Processed txn
    /\ txn_splits txn
       = [ {| split_category := py "Delivery Fee";
              split_amount := signed (has_inflow row) amount;
              split_memo := py "Delivery Tip";
              split_items := [] |} ]
    /\ txn_items txn = Some []
    /\ txn_items_with_amounts txn = Some []
    /\ txn_memo txn = py "Delivery Tip"
    /\ txn ∈ run_transactions
               (main client ynab_categories order_history batch
                     category_cache transactions rows).
Proof.
  intros Hrow Htip Hid Hamount Hnew Horder.
  assert (process_row order_history (existing_ids_of transactions) row
          = Processed
              (tip_txn (base_txn row (row_import_id order_id amount row)
                                 order_id amount))) as Hp.
  { unfold process_row. rewrite (tip_is_amazon _ Htip), Hid, Hamount.
    cbn [negb]. rewrite bool_decide_eq_false_2 by done.
    by rewrite Horder, Htip. }
  eexists. split; [exact Hp|].
  repeat (split; [reflexivity|]).
  eapply emitted_in_run; [exact Hrow|]. by rewrite Hp.
Qed.

(** C6 (fails on the code). The order lookup comes before the tip check:
    for every charge whose payee carries the tip marker, whose amount
    parses and whose import id is not in the cache, but whose order is not
    in the order history, the builder emits no Delivery Fee split; the
    charge is flagged blue with the memo NEEDS ITEMIZATION and has no
    split at all. *)
Theorem tip_unknown_order_flagged
    (order_history : gmap pystr Order) (existing_ids : gset pystr)
    (row : Row) (order_id : pystr) (amount : Q) :
  contains (py "amazon tips") (lower (row_payee row)) = true ->
  row_order_id row = Some order_id ->
  parse_amount row = Some amount ->
  row_import_id order_id amount row ∉ existing_ids ->
  order_history !! order_id = None ->
  exists txn,
    process_row order_history existing_ids row = NotFound txn
    /\ txn_flag txn = py "blue"
    /\ txn_memo txn = py "Order " ++ order_id ++ py " - NEEDS ITEMIZATION"
    /\ txn_splits txn = [].
Proof.
  intros Htip Hid Hamount Hnew Horder.
  eexists. split.
  - unfold process_row. rewrite (tip_is_amazon _ Htip), Hid, Hamount.
    cbn [negb]. rewrite bool_decide_eq_false_2 by done.
    rewrite Horder. reflexivity.
  - repeat split; reflexivity.
Qed.

Lemma tip_unknown_order_flagged_witness :
  contains (py "amazon tips") (lower (row_payee TipScenario.unknown)) = true
  /\ exists txn,
       process_row GroceryScenario.order_history ∅ TipScenario.unknown
         = NotFound txn
       /\ txn_flag txn = py "blue"
       /\ txn_memo txn = py "Order 999-0000000-0000000 - NEEDS ITEMIZATION"
       /\ txn_splits txn = [].
Proof.
  split; [vm_compute; reflexivity|].
  apply (tip_unknown_order_flagged GroceryScenario.order_history ∅
           TipScenario.unknown (py "999-0000000-0000000") (- 5)).
  - vm_compute. reflexivity.
  - reflexivity.
  - reflexivity.
  - apply not_elem_of_empty.
  - vm_compute. reflexivity.
Defined.

(** ** Allocation and the exact sum *)

Local Open Scope Z_scope.

Lemma sum_amounts_from (subs : list SubTxn) (acc : Z) :
  fold_left (fun a s => a + sub_amount s) subs acc
  = acc + sum_amounts subs.
Proof.
  unfold sum_amounts. revert acc.
  induction subs as [|s l IH]; intros acc; simpl; [lia|].
  rewrite (IH (acc + sub_amount s)), (IH (0 + sub_amount s)). lia.
Qed.

Lemma sum_amounts_cons (s : SubTxn) (subs : list SubTxn) :
  sum_amounts (s :: subs) = sub_amount s + sum_amounts subs.
Proof.
  unfold sum_amounts at 1. simpl. by rewrite sum_amounts_from.
Qed.

(** The last subtransaction takes the whole difference. *)
Lemma sum_amounts_adjust_last (d : Z) (subs : list SubTxn) :
  subs <> [] -> sum_amounts (adjust_last d subs) = sum_amounts subs + d.
Proof.
  induction subs as [|s l IH]; [done|]. intros _.
  destruct l as [|s' l'].
  - cbn [adjust_last]. rewrite !sum_amounts_cons. cbn. lia.
  - change (adjust_last d (s :: s' :: l'))
      with (s :: adjust_last d (s' :: l')).
    rewrite !(sum_amounts_cons s). rewrite IH by done. lia.
Qed.

Lemma length_adjust_last (d : Z) (subs : list SubTxn) :
  length (adjust_last d subs) = length subs.
Proof.
  induction subs as [|a [|b l'] IH]; [done|done|].
  change (adjust_last d (a :: b :: l')) with (a :: adjust_last d (b :: l')).
  cbn [length]. by rewrite IH.
Qed.

Lemma adjusted_sum (parent : Z) (subs : list SubTxn) :
  subs <> [] ->
  let adjusted :=
    if parent - sum_amounts subs =? 0 then subs
    else adjust_last (parent - sum_amounts subs) subs in
  sum_amounts adjusted = parent /\ length adjusted = length subs.
Proof.
  intros Hne adjusted. unfold adjusted.
  destruct (_ =? 0) eqn:Hd.
  - apply Z.eqb_eq in Hd. split; [lia | done].
  - split; [rewrite sum_amounts_adjust_last by done; lia|].
    apply length_adjust_last.
Qed.

(** The subtransactions sent to the ledger sum to the parent amount. *)
Lemma build_subtransactions_exact (txn : Txn)
    (cat_mapping : list (pystr * pystr)) (subs : list SubTxn) :
  build_subtransactions txn cat_mapping = Some subs ->
  sum_amounts subs = milliunits (txn_amount txn)
  /\ length subs = length (txn_splits txn).
Proof.
  unfold build_subtransactions.
  destruct (txn_splits txn) as [|sp sps] eqn:E; [done|].
  intros H. apply (inj Some) in H. rewrite <- H.
  match goal with
  | |- context [adjust_last _ ?m] =>
      pose proof (adjusted_sum (milliunits (txn_amount txn)) m) as Ha
  end.
  cbv zeta in Ha. rewrite length_map in Ha. apply Ha.
  intros Hl. apply map_eq_nil in Hl. discriminate Hl.
Qed.

Local Open Scope Q_scope.

(** A charge matched to a shipment of positive total, of a non-grocery
    order, is queued with the allocation of that shipment. *)
Lemma process_row_pending
    (order_history : gmap pystr Order) (existing_ids : gset pystr)
    (row : Row) (order_id : pystr) (amount : Q) (order : Order)
    (s : Shipment) :
  is_amazon_transaction (row_payee row) = true ->
  row_order_id row = Some order_id ->
  parse_amount row = Some amount ->
  row_import_id order_id amount row ∉ existing_ids ->
  order_history !! order_id = Some order ->
  contains (py "amazon tips") (lower (row_payee row)) = false ->
  fst (match_charge (row_charge_date row) amount order) = Some s ->
  0 < shipment_total s ->
  shipment_items s <> [] ->
  shipment_is_grocery s = false ->
  order_is_grocery order = false ->
  is_grocery_transaction (row_payee row) = false ->
  process_row order_history existing_ids row
  = Pending
      (matched_txn
         (base_txn row (row_import_id order_id amount row) order_id amount)
         false (allocate (Qabs amount) s))
      (map (fun i => default (mi_name i) (mi_base_name i))
           (allocate (Qabs amount) s)).
Proof.
  intros Hamazon Hid Hamount Hnew Horder Htip Hs Hpos Hitems Hg1 Hg2 Hg3.
  pose proof (match_charge_shipment _ _ _ _ Hs) as Hmi.
  apply Qltb_lt in Hpos. rewrite Hpos in Hmi.
  unfold process_row. rewrite Hamazon, Hid, Hamount. cbn [negb].
  rewrite bool_decide_eq_false_2 by done.
  rewrite Horder, Htip.
  destruct (match_charge _ _ _) as [ms mi]. cbn [fst snd] in Hs, Hmi.
  subst ms mi.
  destruct (allocate (Qabs amount) s) as [|m l] eqn:Ea.
  { unfold allocate in Ea. apply map_eq_nil in Ea. done. }
  by rewrite Hg1, Hg2, Hg3.
Qed.

(** Every item of the matched shipment, the last one included, gets the
    same formula: the product of the float item total and the float ratio,
    rounded to two decimals, with the sign of the charge; nothing is added
    to the last split. Only when the transaction is synced are the
    subtransactions made to sum to the charge, the last one taking the
    difference. *)
Lemma allocation_same_formula
    (order_history : gmap pystr Order) (existing_ids : gset pystr)
    (row : Row) (order_id : pystr) (amount : Q) (order : Order)
    (s : Shipment) (categorized : CatDict)
    (cat_mapping : list (pystr * pystr)) :
  is_amazon_transaction (row_payee row) = true ->
  row_order_id row = Some order_id ->
  parse_amount row = Some amount ->
  row_import_id order_id amount row ∉ existing_ids ->
  order_history !! order_id = Some order ->
  contains (py "amazon tips") (lower (row_payee row)) = false ->
  fst (match_charge (row_charge_date row) amount order) = Some s ->
  0 < shipment_total s ->
  shipment_items s <> [] ->
  shipment_is_grocery s = false ->
  order_is_grocery order = false ->
  is_grocery_transaction (row_payee row) = false ->
  exists txn base_items,
    process_row order_history existing_ids row = Pending txn base_items
    /\ base_items = map si_name (shipment_items s)
    /\ txn_amount (itemize categorized txn) = amount
    /\ map split_amount (txn_splits (itemize categorized txn))
       = map (fun item =>
                signed (has_inflow row)
                  (float_round2
                     (float_mul (to_float (si_total item))
                        (to_float (decimal_div (Qabs amount)
                                               (shipment_total s))))))
             (shipment_items s)
    /\ exists subs,
         build_subtransactions (itemize categorized txn) cat_mapping
           = Some subs
         /\ sum_amounts subs = milliunits amount
         /\ length subs = length (shipment_items s).
Proof.
  intros Hamazon Hid Hamount Hnew Horder Htip Hs Hpos Hitems Hg1 Hg2 Hg3.
  eexists _, _. split; [by eapply process_row_pending|].
  set (txn := matched_txn _ _ _).
  assert (txn_splits (itemize categorized txn)
          = map (item_split (has_inflow row)
                            (item_to_category_of categorized))
                (allocate (Qabs amount) s)) as Hsplits.
  { unfold itemize, txn. cbn [txn_items_with_amounts matched_txn default].
    destruct (allocate (Qabs amount) s) as [|m l] eqn:Ea.
    { unfold allocate in Ea. apply map_eq_nil in Ea. done. }
    reflexivity. }
  assert (txn_amount (itemize categorized txn) = amount) as Hamt.
  { unfold itemize, txn. cbn [txn_items_with_amounts matched_txn default].
    by destruct (allocate (Qabs amount) s). }
  split; [|split; [exact Hamt|split]].
  - unfold allocate. rewrite map_map. reflexivity.
  - rewrite Hsplits. unfold allocate. rewrite !map_map. reflexivity.
  - destruct (build_subtransactions (itemize categorized txn) cat_mapping)
      as [subs|] eqn:Eb.
    + exists subs. split; [done|].
      apply build_subtransactions_exact in Eb as [Hsum Hlen].
      rewrite Hamt in Hsum. split; [exact Hsum|].
      rewrite Hlen, Hsplits. unfold allocate. by rewrite !length_map.
    + exfalso. unfold build_subtransactions in Eb. rewrite Hsplits in Eb.
      unfold allocate in Eb.
      destruct (shipment_items s) as [|i l]; [done|]. discriminate Eb.
Qed.

(** The rounding is that of binary floats: items of 10.05 and 9.95 charged
    10.00 get 5.03 and 4.97 (the floats nearest to 10.05 and 9.95 lie
    above and below them), where exact arithmetic would round the two
    ties to 5.02 and 4.98. *)
Example allocation_binary_rounding :
  exists txn base_items,
    process_row
      {[ AllocationScenario.order_id
         := AllocationScenario.order_of [("Item A"%string, 1005 # 100);
                                         ("Item B"%string, 995 # 100)] ]}
      ∅ (AllocationScenario.row_of 10)
      = Pending txn base_items
    /\ Forall2 Qeq (map split_amount (txn_splits (itemize [] txn)))
                   [- (503 # 100); - (497 # 100)].
Proof.
  eexists _, _. split; [vm_compute; reflexivity|].
  repeat (constructor; [vm_compute; reflexivity|]). constructor.
Qed.

(** C1 (fails on the code). A shipment of three items of 1.00 each,
    charged 1.00: each of the three splits, the last one included, is
    -0.33, so the splits do not sum to the charge amount -1.00 (they miss
    it by a cent); the last split is not the charge minus the two before
    it (-0.34). *)
Theorem allocation_misses_charge :
  exists txn base_items,
    process_row
      {[ AllocationScenario.order_id := AllocationScenario.three_items ]}
      ∅ (AllocationScenario.row_of 1)
      = Pending txn base_items
    /\ txn_amount txn == - 1
    /\ Forall2 Qeq (map split_amount (txn_splits (itemize [] txn)))
                   [- (33 # 100); - (33 # 100); - (33 # 100)]
    /\ ~ splits_total (txn_splits (itemize [] txn)) == txn_amount txn.
Proof.
  eexists _, _. split; [vm_compute; reflexivity|].
  split; [vm_compute; reflexivity|]. split.
  { repeat (constructor; [vm_compute; reflexivity|]). constructor. }
  intros H. vm_compute in H. discriminate H.
Qed.

(** ** Idempotency *)

Lemma process_row_no_key (order_history : gmap pystr Order)
    (existing_ids : gset pystr) (row : Row) :
  row_key row = None -> process_row order_history existing_ids row = Skipped.
Proof.
  unfold row_key, process_row.
  destruct (is_amazon_transaction _); [|done]. cbn [negb].
  destruct (row_order_id row); [|done].
  by destruct (parse_amount row).
Qed.

Lemma process_row_cached (order_history : gmap pystr Order)
    (existing_ids : gset pystr)
    (row : Row) (k : pystr) :
  row_key row = Some k -> k ∈ existing_ids ->
  process_row order_history existing_ids row = Cached.
Proof.
  unfold row_key, process_row.
  destruct (is_amazon_transaction _); [|done]. cbn [negb].
  destruct (row_order_id row) as [order_id|]; [|done].
  destruct (parse_amount row) as [amount|]; [|done].
  intros [= <-] Hin. by rewrite bool_decide_eq_true_2.
Qed.

Lemma row_key_nonempty (row : Row) (k : pystr) :
  row_key row = Some k -> exists c r, k = c :: r.
Proof.
  unfold row_key. destruct (is_amazon_transaction _); [|done].
  destruct (row_order_id row) as [order_id|]; [|done].
  destruct (parse_amount row) as [amount|]; [|done].
  intros [= <-]. unfold row_import_id, make_import_id. simpl. eauto.
Qed.

(** A row whose key is not in the cache yields exactly one transaction,
    appended or queued, and that transaction carries the key. *)
Lemma process_row_new (order_history : gmap pystr Order)
    (existing_ids : gset pystr)
    (row : Row) (k : pystr) :
  row_key row = Some k -> k ∉ existing_ids ->
  exists txn,
    txn_import_id txn = Some k
    /\ (emitted (process_row order_history existing_ids row) = Some txn
        \/ pending (process_row order_history existing_ids row) = Some txn).
Proof.
  unfold row_key, process_row.
  destruct (is_amazon_transaction _); [|done]. cbn [negb].
  destruct (row_order_id row) as [order_id|]; [|done].
  destruct (parse_amount row) as [amount|]; [|done].
  intros [= <-] Hnew. rewrite bool_decide_eq_false_2 by done.
  destruct (order_history !! order_id) as [order|];
    [|eexists; split; [|left; reflexivity]; reflexivity].
  destruct (contains _ _);
    [eexists; split; [|left; reflexivity]; reflexivity|].
  destruct (match_charge _ _ _) as [ms [[|m l]|]];
    [eexists; split; [|left; reflexivity]; reflexivity|
    |eexists; split; [|left; reflexivity]; reflexivity].
  destruct (_ || _); eexists;
    (split; [|(left; reflexivity) || (right; reflexivity)]); reflexivity.
Qed.

Lemma existing_ids_of_app (l1 l2 : list Txn) :
  existing_ids_of (l1 ++ l2) = existing_ids_of l1 ∪ existing_ids_of l2.
Proof.
  unfold existing_ids_of. by rewrite omap_app, list_to_set_app_L.
Qed.

Lemma existing_ids_of_elem (l : list Txn) (txn : Txn) (c : N) (r : pystr) :
  txn ∈ l -> txn_import_id txn = Some (c :: r) ->
  (c :: r) ∈ existing_ids_of l.
Proof.
  intros Hin Hid. unfold existing_ids_of.
  apply elem_of_list_to_set, list_elem_of_omap.
  exists txn. split; [done|]. by rewrite Hid.
Qed.

Lemma itemize_import_id (categorized : CatDict) (txn : Txn) :
  txn_import_id (itemize categorized txn) = txn_import_id txn.
Proof. unfold itemize. by destruct (default [] _). Qed.

(** When a run saves the cache file, the file holds the loaded
    transactions, those pass 1 appended and those it queued, the latter
    with their import ids unchanged. *)
Lemma main_saved (client : nat -> Request -> Reply) (cats : list pystr)
    (order_history : gmap pystr Order)
    (batch : bool) (category_cache : CategoryCache)
    (transactions : list Txn) (rows : list Row) :
  let r := main client cats order_history batch category_cache
                transactions rows in
  let outs := map (process_row order_history
                     (existing_ids_of transactions)) rows in
  run_saved r = true ->
  exists f : Txn -> Txn,
    (forall t, txn_import_id (f t) = txn_import_id t)
    /\ run_transactions r
       = (transactions ++ omap emitted outs) ++ map f (omap pending outs).
Proof.
  intros r outs. unfold r, main. fold outs.
  destruct (items_to_categorize_of outs); [done|].
  destruct batch; cbn [run_saved run_transactions]; intros _.
  - exists (fun t => t). split; [done|]. by rewrite map_id.
  - eexists. split; [|reflexivity].
    intros t. apply itemize_import_id.
Qed.

Lemma main_unsaved (client : nat -> Request -> Reply) (cats : list pystr)
    (order_history : gmap pystr Order)
    (batch : bool) (category_cache : CategoryCache)
    (transactions : list Txn) (rows : list Row) :
  run_saved (main client cats order_history batch category_cache
                  transactions rows) = false <->
  items_to_categorize_of
    (map (process_row order_history (existing_ids_of transactions)) rows)
  = [].
Proof.
  unfold main. destruct (items_to_categorize_of _); [done|].
  by destruct batch.
Qed.

Lemma items_to_categorize_nothing (outs : list Outcome) :
  Forall creates_nothing outs -> items_to_categorize_of outs = [].
Proof.
  unfold items_to_categorize_of. intros Hall.
  assert (forall d : list (pystr * list pystr),
            fold_left (fun d o =>
                         match o with
                         | Pending t base_items =>
                             dict_set d (default [] (txn_import_id t))
                                      base_items
                         | _ => d
                         end) outs d = d) as H; [|apply H].
  induction Hall as [|o outs' Ho _ IH]; intros d; [done|].
  simpl. destruct Ho as [-> | ->]; apply IH.
Qed.

(** After a run that saved the cache file, every row of the same input
    is skipped or found in the cache. *)
Lemma second_run_row (client : nat -> Request -> Reply) (cats : list pystr)
    (order_history : gmap pystr Order) (batch : bool)
    (category_cache : CategoryCache) (transactions : list Txn)
    (rows : list Row) (row : Row) :
  let r := main client cats order_history batch category_cache
                transactions rows in
  run_saved r = true -> row ∈ rows ->
  creates_nothing
    (process_row order_history (existing_ids_of (run_transactions r)) row).
Proof.
  intros r Hsaved Hrow.
  destruct (main_saved client cats order_history batch category_cache
              transactions rows Hsaved) as (f & Hf & Heq).
  fold r in Heq. rewrite Heq.
  destruct (row_key row) as [k|] eqn:Hk;
    [|left; by apply process_row_no_key].
  right. apply (process_row_cached _ _ _ k Hk).
  rewrite !existing_ids_of_app.
  destruct (decide (k ∈ existing_ids_of transactions)) as [Hin|Hnew];
    [set_solver|].
  destruct (row_key_nonempty _ _ Hk) as (c & rest & ->).
  destruct (process_row_new order_history _ row _ Hk Hnew)
    as (txn & Hid & [Hem|Hpe]).
  - apply elem_of_union_l, elem_of_union_r.
    apply (existing_ids_of_elem _ txn); [|done].
    apply list_elem_of_omap. eexists. split; [|exact Hem].
    apply list_elem_of_fmap. by exists row.
  - apply elem_of_union_r.
    apply (existing_ids_of_elem _ (f txn)); [|by rewrite Hf].
    apply list_elem_of_fmap. exists txn. split; [done|].
    apply list_elem_of_omap. eexists. split; [|exact Hpe].
    apply list_elem_of_fmap. by exists row.
Qed.

(** Running main a second time over the same rows, from the cache file the
    first run left, leaves the file as it is: no record is added, whatever
    the classifier and the mode of the second run. *)
Lemma second_run_adds_nothing
    (client client2 : nat -> Request -> Reply) (cats cats2 : list pystr)
    (order_history : gmap pystr Order) (batch batch2 : bool)
    (category_cache category_cache2 : CategoryCache)
    (transactions : list Txn) (rows : list Row) :
  let file1 := cache_file_after client cats order_history batch
                 category_cache transactions rows in
  cache_file_after client2 cats2 order_history batch2 category_cache2
                   file1 rows = file1.
Proof.
  intros file1. unfold cache_file_after in *.
  destruct (run_saved (main client cats order_history batch category_cache
                            transactions rows)) eqn:Hsaved.
  - assert (run_saved (main client2 cats2 order_history batch2
                            category_cache2 file1 rows) = false) as ->;
      [|done].
    apply main_unsaved, items_to_categorize_nothing.
    apply Forall_forall. intros o Ho.
    apply list_elem_of_fmap in Ho as (row & -> & Hrow).
    unfold file1. by apply second_run_row.
  - subst file1.
    assert (run_saved (main client2 cats2 order_history batch2
                            category_cache2 transactions rows) = false)
      as ->; [|done].
    apply main_unsaved. by apply main_unsaved in Hsaved.
Qed.

Section SyncFacts.

Variable cat_mapping : list (pystr * pystr).
Variable existing_txns : gmap pystr RemoteTxn.
Variable cutoff_date : pystr.

(** A key the local synced set or the ledger already has is never queued
    for creation; it is reported skipped or duplicate, or updated when the
    ledger's subtransactions differ from the local ones. *)
Lemma sync_action_present (synced : gset pystr) (txn : Txn) (c : N)
    (r : pystr) :
  txn_import_id txn = Some (c :: r) ->
  (c :: r) ∈ synced \/ is_Some (existing_txns !! (c :: r)) ->
  not_created (sync_action cat_mapping existing_txns cutoff_date synced txn)
  /\ ((forall remote subs,
         existing_txns !! (c :: r) = Some remote ->
         build_subtransactions txn cat_mapping = Some subs ->
         subtransactions_differ subs (remote_subtransactions remote) = false)
      -> duplicate_or_skipped
           (sync_action cat_mapping existing_txns cutoff_date synced txn)).
Proof.
  intros Hid Hpresent. unfold sync_action, not_created, duplicate_or_skipped.
  rewrite Hid.
  destruct (str_ltb _ _); [by auto|].
  destruct (existing_txns !! (c :: r)) as [remote|] eqn:Hex.
  - rewrite (bool_decide_eq_false_2 (Some remote = None)) by done.
    rewrite andb_false_r.
    destruct (build_subtransactions txn cat_mapping) as [[|s subs]|] eqn:Hb.
    + split; [|intros _]; case_bool_decide; auto.
    + destruct (subtransactions_differ _ _) eqn:Hd.
      * split; [right; right; eauto|].
        intros Hsame. specialize (Hsame remote (s :: subs) eq_refl eq_refl).
        congruence.
      * split; [|intros _]; case_bool_decide; auto.
    + split; [|intros _]; case_bool_decide; auto.
  - destruct Hpresent as [Hs|[? ?]]; [|done].
    rewrite !bool_decide_eq_true_2 by done. simpl. auto.
Qed.

(** Every transaction queued for creation has a key that neither the
    synced set nor the ledger had. *)
Lemma to_create_fresh (transactions : list Txn) (synced : gset pystr)
    (txn : Txn) :
  txn ∈ (to_create cat_mapping existing_txns cutoff_date synced
                   transactions) ->
  exists k, txn_import_id txn = Some k /\ (k ∉ synced)
            /\ existing_txns !! k = None.
Proof.
  unfold to_create. revert synced.
  induction transactions as [|t rest IH]; intros synced.
  - simpl. intros Hin. by apply elem_of_nil in Hin.
  - cbn [first_pass].
    match goal with
    | |- context [first_pass _ _ _ ?s rest] => specialize (IH s)
    end.
    destruct (first_pass _ _ _ _ rest) as [actions final].
    cbn [fst] in *. rewrite filter_cons. cbn [snd].
    intros Hin.
    assert (txn ∈ (map fst (filter (fun e => is_create (snd e) = true)
                                  actions))
            -> exists k, txn_import_id txn = Some k /\ (k ∉ synced)
                         /\ existing_txns !! k = None) as Htail.
    { intros Hin2. destruct (IH Hin2) as (k & Hk & Hns & Hex). exists k.
      split; [done|]. split; [|done].
      intros Hs. apply Hns.
      destruct (sync_action _ _ _ synced t); try done.
      destruct (txn_import_id t); [|done].
      apply elem_of_union_r. exact Hs. }
    destruct (decide _) as [Hc|Hc]; [|by apply Htail].
    cbn [map fst] in Hin. apply elem_of_cons in Hin as [->|Hin];
      [|by apply Htail].
    clear Htail IH. unfold sync_action in Hc.
    destruct (txn_import_id t) as [[|c r]|]; [done| |done].
    exists (c :: r). split; [done|].
    destruct (str_ltb _ _); [done|].
    destruct (existing_txns !! (c :: r)) as [remote|] eqn:Hex.
    + rewrite (bool_decide_eq_false_2 (Some remote = None)) in Hc by done.
      rewrite andb_false_r in Hc.
      destruct (build_subtransactions t cat_mapping) as [[|s subs]|];
        repeat (first [done | case_bool_decide
                      | destruct (subtransactions_differ _ _)]).
    + split; [|done]. intros Hs.
      by rewrite !bool_decide_eq_true_2 in Hc.
Qed.

End SyncFacts.

(** C7 (as the code has it). The import id is a function of the order id,
    the absolute amount in cents and the direction, and of nothing else.
    A row whose import id the cache already holds creates no record, and a
    second run of main over the same rows leaves the cache file as the
    first run left it. In the sync loop, a transaction is queued for
    creation only if neither the local synced set nor the ledger has its
    import id; a transaction whose import id is already present is
    reported skipped, duplicate or updated, and skipped or duplicate when
    its subtransactions do not differ from the ledger's. *)
Theorem idempotency_key_dedup
    (client client2 : nat -> Request -> Reply) (cats cats2 : list pystr)
    (order_history : gmap pystr Order) (batch batch2 : bool)
    (category_cache category_cache2 : CategoryCache)
    (transactions : list Txn) (rows : list Row)
    (cat_mapping : list (pystr * pystr))
    (existing_txns : gmap pystr RemoteTxn) (cutoff_date : pystr)
    (synced : gset pystr) :
  (forall (row row2 : Row) (order_id : pystr) (amount amount2 : Q),
     py_int (Qabs amount * 100) = py_int (Qabs amount2 * 100) ->
     has_inflow row = has_inflow row2 ->
     row_import_id order_id amount row = row_import_id order_id amount2 row2)
  /\ (forall (existing_ids : gset pystr) (row : Row) (k : pystr),
        row_key row = Some k -> k ∈ existing_ids ->
        process_row order_history existing_ids row = Cached)
  /\ (let file1 := cache_file_after client cats order_history batch
                     category_cache transactions rows in
      cache_file_after client2 cats2 order_history batch2 category_cache2
                       file1 rows = file1)
  /\ (forall txn,
        txn ∈ (to_create cat_mapping existing_txns cutoff_date synced
                         transactions) ->
        exists k, txn_import_id txn = Some k /\ (k ∉ synced)
                  /\ existing_txns !! k = None)
  /\ (forall (txn : Txn) (c : N) (r : pystr),
        txn_import_id txn = Some (c :: r) ->
        (c :: r) ∈ synced \/ is_Some (existing_txns !! (c :: r)) ->
        not_created
          (sync_action cat_mapping existing_txns cutoff_date synced txn)
        /\ ((forall remote subs,
               existing_txns !! (c :: r) = Some remote ->
               build_subtransactions txn cat_mapping = Some subs ->
               subtransactions_differ subs (remote_subtransactions remote)
               = false)
            -> duplicate_or_skipped
                 (sync_action cat_mapping existing_txns cutoff_date synced
                              txn))).
Proof.
  split; [|split; [|split; [|split]]].
  - intros row row2 order_id amount amount2 Hc Hd.
    unfold row_import_id. by rewrite Hc, Hd.
  - intros existing_ids row k. apply process_row_cached.
  - apply second_run_adds_nothing.
  - intros txn. apply to_create_fresh.
  - intros txn c r. apply sync_action_present.
Qed.

Lemma idempotency_key_dedup_witness :
  process_row
    {[ AllocationScenario.order_id := AllocationScenario.two_items ]}
    {[ py "AMZ2:113-7654321-1234567:14000:P" ]}
    (AllocationScenario.row_of 140) = Cached.
Proof.
  refine (proj1 (proj2 (idempotency_key_dedup
                          (fun _ _ => ApiError) (fun _ _ => ApiError)
                          [] [] _ false false empty_cache empty_cache
                          [] [] [] ∅ [] ∅))
            _ _ (py "AMZ2:113-7654321-1234567:14000:P") _ _).
  - vm_compute. reflexivity.
  - apply elem_of_singleton. reflexivity.
Defined.

(** C7 fails as stated. A transaction whose import id is both in the
    local synced set and in the ledger, the ledger's subtransaction memo
    being "Pen" and the local one "2 x Pen": the sync loop reports it
    updated, neither duplicate nor skipped. *)
Lemma idempotency_key_dedup_counterexample :
  txn_import_id SyncScenario.txn = Some SyncScenario.import_id
  /\ SyncScenario.import_id ∈ SyncScenario.synced
  /\ is_Some (SyncScenario.existing_txns !! SyncScenario.import_id)
  /\ sync_action [] SyncScenario.existing_txns SyncScenario.cutoff_date
                 SyncScenario.synced SyncScenario.txn
     = SyncUpdate (py "t-1")
         [ {| sub_amount := -1000; sub_category_id := None;
              sub_memo := py "2 x Pen" |} ]
  /\ ~ duplicate_or_skipped
         (sync_action [] SyncScenario.existing_txns SyncScenario.cutoff_date
                      SyncScenario.synced SyncScenario.txn).
Proof.
  assert (sync_action [] SyncScenario.existing_txns SyncScenario.cutoff_date
                      SyncScenario.synced SyncScenario.txn
          = SyncUpdate (py "t-1")
              [ {| sub_amount := -1000; sub_category_id := None;
                   sub_memo := py "2 x Pen" |} ]) as Ha
    by (vm_compute; reflexivity).
  split; [reflexivity|]. split; [by apply elem_of_singleton|].
  split; [by eexists|]. split; [exact Ha|].
  rewrite Ha. intros [H|H]; discriminate H.
Qed.

(** * Further properties *)

(** ** match_category: failure and completeness *)

Lemma find_none_elem {A} (p : A -> bool) (l : list A) (x : A) :
  find p l = None -> x ∈ l -> p x = false.
Proof.
  intros Hf Hin. apply list_elem_of_In in Hin. by eapply find_none.
Qed.

Lemma find_is_some {A} (p : A -> bool) (l : list A) (x : A) :
  x ∈ l -> p x = true -> exists y, find p l = Some y /\ p y = true.
Proof.
  intros Hin Hp. destruct (find p l) as [y|] eqn:E.
  - exists y. split; [done|]. by apply find_some in E as [_ ?].
  - rewrite (find_none_elem p l x E Hin) in Hp. discriminate Hp.
Qed.

(** X1. When match_category reports no match it returns its input
    unchanged, and then no valid category equals the input, not even up to
    ASCII case. *)
Theorem match_category_unmatched (cat : pystr) (ynab_categories : list pystr)
    (y : pystr) :
  match_category cat ynab_categories = (y, false) ->
  y = cat
  /\ (cat ∉ ynab_categories)
  /\ forall c, c ∈ ynab_categories -> lower c <> lower cat.
Proof.
  unfold match_category. case_bool_decide as Hmem; [by intros [=]|].
  repeat match goal with
    | |- context [match first_match ?p ?l with _ => _ end] =>
        let E := fresh "E" in
        destruct (first_match p l) eqn:E; [by intros [=]|]
    end.
  intros [= ?]; subst y. split; [done|]. split; [done|].
  intros c Hc Heq.
  pose proof (find_none_elem _ _ c E Hc) as Hp. simpl in Hp.
  unfold eqb in Hp. by rewrite bool_decide_eq_true_2 in Hp.
Qed.

Lemma match_category_unmatched_witness :
  py "Gadgets" ∉ [py "Electronics"; py "Groceries"].
Proof.
  refine (proj1 (proj2 (match_category_unmatched (py "Gadgets")
                          [py "Electronics"; py "Groceries"]
                          (py "Gadgets") _))).
  vm_compute. reflexivity.
Defined.

(** X2. An input that equals some valid category up to ASCII case is
    matched to a category of the valid list; when the input and the
    category returned are text of ASCII characters and emoji, the category
    returned equals the input up to case. *)
Theorem match_category_ignores_case (cat : pystr)
    (ynab_categories : list pystr) (c : pystr) :
  c ∈ ynab_categories -> lower c = lower cat ->
  exists y, match_category cat ynab_categories = (y, true)
            /\ y ∈ ynab_categories
            /\ (simple_text cat -> simple_text y -> lower y = lower cat).
Proof.
  intros Hc Heq. unfold match_category.
  case_bool_decide as Hmem; [by exists cat|].
  destruct (find_is_some (fun y => eqb (lower y) (lower cat))
              ynab_categories c Hc) as (y & Hf & Hy).
  { unfold eqb. by apply bool_decide_eq_true. }
  unfold first_match. rewrite Hf. exists y. split; [done|].
  apply find_some in Hf as [Hin _].
  split; [by apply list_elem_of_In|]. intros _ _.
  unfold eqb in Hy. by apply bool_decide_eq_true in Hy.
Qed.

Lemma match_category_ignores_case_witness :
  exists y, match_category (py "household supplies") sample_categories
            = (y, true)
            /\ y ∈ sample_categories
            /\ (simple_text (py "household supplies") -> simple_text y ->
                lower y = lower (py "household supplies")).
Proof.
  apply (match_category_ignores_case (py "household supplies")
           sample_categories (py "Household Supplies")).
  - unfold sample_categories. apply elem_of_cons. by left.
  - vm_compute. reflexivity.
Defined.

(** X3. An input that equals a valid category once that category's
    leading emoji is removed (up to ASCII case) is matched to a valid
    category. *)
Theorem match_category_ignores_emoji (cat : pystr)
    (ynab_categories : list pystr) (c : pystr) :
  c ∈ ynab_categories ->
  lower (strip_leading_emoji c) = lower cat ->
  exists y, match_category cat ynab_categories = (y, true)
            /\ y ∈ ynab_categories.
Proof.
  intros Hc Heq.
  destruct (match_category cat ynab_categories) as [y matched] eqn:E.
  destruct matched.
  - exists y. split; [done|].
    unfold match_category in E.
    case_bool_decide as Hmem; [by injection E as <-|].
    repeat match type of E with
      | context [match first_match ?p ?l with _ => _ end] =>
          let F := fresh "F" in
          destruct (first_match p l) eqn:F;
          [ injection E as <-; by apply first_match_elem in F as [? _] | ]
      end.
    discriminate E.
  - exfalso. unfold match_category in E.
    case_bool_decide as Hmem; [discriminate E|].
    match type of E with
    | context [match first_match ?p ?l with _ => _ end] =>
        destruct (first_match p l) eqn:E1; [discriminate E|]
    end.
    match type of E with
    | context [match first_match ?p ?l with _ => _ end] =>
        destruct (first_match p l) eqn:E2; [discriminate E|]
    end.
    pose proof (find_none_elem _ _ c E2 Hc) as Hp. cbv beta zeta in Hp.
    unfold eqb in Hp. rewrite (bool_decide_eq_true_2 _ Heq) in Hp.
    discriminate Hp.
Qed.

Lemma match_category_ignores_emoji_witness :
  exists y, match_category (py "gear") sample_categories = (y, true)
            /\ y ∈ sample_categories.
Proof.
  apply (match_category_ignores_emoji (py "gear") sample_categories
           (127890%N :: py " Gear")).
  - unfold sample_categories. apply elem_of_cons. right.
    apply elem_of_cons. by left.
  - vm_compute. reflexivity.
Defined.

(** ** The category cache: keys *)

Ltac decide_N_tests :=
  repeat match goal with
    | |- context [(?a <=? ?b)%N] =>
        first [ rewrite (proj2 (N.leb_le a b)) by lia
              | rewrite (proj2 (N.leb_gt a b)) by lia ]
    | |- context [(?a =? ?b)%N] =>
        rewrite (proj2 (N.eqb_neq a b)) by lia
    end.

Lemma is_space_lower_char (c : N) : is_space (lower_char c) = is_space c.
Proof.
  unfold lower_char. destruct (is_upper c) eqn:Hu; [|done].
  unfold is_upper in Hu. apply andb_true_iff in Hu as [H1 H2].
  apply N.leb_le in H1, H2.
  unfold is_space. decide_N_tests. reflexivity.
Qed.

Lemma lower_drop_while_space (s : pystr) :
  lower (drop_while is_space s) = drop_while is_space (lower s).
Proof.
  induction s as [|c s IH]; [done|]. simpl.
  rewrite is_space_lower_char. by destruct (is_space c).
Qed.

Lemma lower_rev (s : pystr) : lower (rev s) = rev (lower s).
Proof. unfold lower. by rewrite map_rev. Qed.

Lemma lower_strip (s : pystr) : lower (strip s) = strip (lower s).
Proof.
  unfold strip, rstrip, lstrip.
  by rewrite lower_rev, lower_drop_while_space, lower_rev,
             lower_drop_while_space.
Qed.

Lemma lstrip_spaces (ws s : pystr) :
  Forall (fun c => is_space c = true) ws -> lstrip (ws ++ s) = lstrip s.
Proof.
  unfold lstrip. induction 1 as [|c ws Hc _ IH]; [done|].
  simpl. by rewrite Hc.
Qed.

Lemma rstrip_spaces (ws s : pystr) :
  Forall (fun c => is_space c = true) ws -> rstrip (s ++ ws) = rstrip s.
Proof.
  intros Hws. unfold rstrip. rewrite rev_app_distr.
  fold (lstrip (rev ws ++ rev s)). rewrite lstrip_spaces; [done|].
  apply Forall_forall. intros c Hc. rewrite Forall_forall in Hws.
  apply Hws. apply list_elem_of_In. apply in_rev.
  by apply list_elem_of_In.
Qed.

(** [strip] after [lstrip] of a string with leading blanks. *)
Lemma strip_spaces (ws1 ws2 s : pystr) :
  Forall (fun c => is_space c = true) ws1 ->
  Forall (fun c => is_space c = true) ws2 ->
  strip (ws1 ++ s ++ ws2) = strip s.
Proof.
  intros H1 H2. unfold strip. rewrite lstrip_spaces by done.
  (* the trailing blanks go with what [lstrip] leaves *)
  assert (forall t, rstrip (lstrip (t ++ ws2)) = rstrip (lstrip t)) as Ht;
    [|apply Ht].
  intros t. unfold lstrip. induction t as [|c t IH].
  - simpl. fold (lstrip ws2).
    assert (lstrip ws2 = []) as ->; [|done].
    rewrite <- (app_nil_r ws2). by rewrite lstrip_spaces.
  - simpl. destruct (is_space c); [exact IH|].
    change (c :: t ++ ws2) with ((c :: t) ++ ws2).
    by rewrite rstrip_spaces.
Qed.

(** The cache key ignores ASCII case and surrounding blanks. *)
Lemma normalize_insensitive (ws1 ws2 name name2 : pystr) :
  Forall (fun c => is_space c = true) ws1 ->
  Forall (fun c => is_space c = true) ws2 ->
  lower name2 = lower name ->
  _normalize_item_name (ws1 ++ name2 ++ ws2) = _normalize_item_name name.
Proof.
  intros H1 H2 Heq. unfold _normalize_item_name.
  rewrite strip_spaces by done. by rewrite !lower_strip, Heq.
Qed.

(** X4. A cached category is found again under any spelling of the item
    name that differs only in ASCII case and in surrounding blanks. *)
Theorem cache_lookup_insensitive (c : CategoryCache)
    (name name2 category ws1 ws2 : pystr) :
  _normalize_item_name name <> [] -> category <> [] ->
  Forall (fun ch => is_space ch = true) ws1 ->
  Forall (fun ch => is_space ch = true) ws2 ->
  lower name2 = lower name ->
  get_cached_category (cache_category c name category)
                      (ws1 ++ name2 ++ ws2) = Some category.
Proof.
  intros Hk Hc H1 H2 Heq.
  rewrite <- (cache_category_lookup c name category Hk Hc).
  unfold get_cached_category. by rewrite (normalize_insensitive _ _ name).
Qed.

Lemma cache_lookup_insensitive_witness :
  get_cached_category
    (cache_category empty_cache (py "Widget X") (py "Electronics"))
    (py "  " ++ py "WIDGET x" ++ py " ") = Some (py "Electronics").
Proof.
  apply cache_lookup_insensitive.
  - vm_compute. discriminate.
  - vm_compute. discriminate.
  - repeat constructor.
  - repeat constructor.
  - vm_compute. reflexivity.
Defined.

(** X5. cache_category leaves the cache and its dirty flag as they are
    when the normalized name or the category is empty; otherwise it marks
    the cache dirty, and for names that are text of ASCII characters and
    emoji it changes the answer for no name with another key. *)
Theorem cache_category_frame (c : CategoryCache)
    (name category other : pystr) :
  (_normalize_item_name name = [] \/ category = [] ->
   cache_category c name category = c)
  /\ (_normalize_item_name name <> [] -> category <> [] ->
      _cache_dirty (cache_category c name category) = true)
  /\ (simple_text name -> simple_text other ->
      _normalize_item_name other <> _normalize_item_name name ->
      get_cached_category (cache_category c name category) other
      = get_cached_category c other).
Proof.
  unfold cache_category, get_cached_category. split; [|split].
  - intros [-> | ->].
    + by rewrite bool_decide_eq_false_2 by auto.
    + rewrite (bool_decide_eq_false_2 ([] <> [])) by auto.
      by rewrite andb_false_r.
  - intros Hk Hc. by rewrite !bool_decide_eq_true_2 by done.
  - intros _ _ Hne. destruct (_ && _); [|done]. simpl.
    by apply lookup_insert_ne.
Qed.

Lemma cache_category_frame_witness :
  get_cached_category
    (cache_category empty_cache (py "Widget X") (py "Electronics"))
    (py "Cable")
  = get_cached_category empty_cache (py "Cable").
Proof.
  refine (proj2 (proj2 (cache_category_frame empty_cache (py "Widget X")
                          (py "Electronics") (py "Cable"))) _ _ _).
  - repeat (constructor; [left; by vm_compute|]). constructor.
  - repeat (constructor; [left; by vm_compute|]). constructor.
  - vm_compute. discriminate.
Defined.

Lemma prefix_length (n : nat) (s : pystr) : (length (prefix n s) <= n)%nat.
Proof. unfold prefix. rewrite length_take. lia. Qed.

(** X6. The cache key has at most 60 characters; a later cache_category
    for a name with the same key replaces the category (a correction
    overwrites), and every name with that key then gets the corrected
    category. *)
Theorem cache_category_overwrite (c : CategoryCache)
    (name name2 name3 category category2 : pystr) :
  (length (_normalize_item_name name) <= 60)%nat
  /\ (_normalize_item_name name <> [] -> category2 <> [] ->
      _normalize_item_name name2 = _normalize_item_name name ->
      _normalize_item_name name3 = _normalize_item_name name ->
      get_cached_category
        (cache_category (cache_category c name category) name2 category2)
        name3 = Some category2).
Proof.
  split; [apply prefix_length|].
  intros Hk Hc H2 H3.
  unfold get_cached_category. rewrite H3, <- H2.
  apply (cache_category_lookup _ name2 category2); [by rewrite H2 | done].
Qed.

Lemma cache_category_overwrite_witness :
  get_cached_category
    (cache_category
       (cache_category empty_cache (py "Widget X") (py "Household Supplies"))
       (py "widget x") (py "Electronics"))
    (py " Widget X") = Some (py "Electronics").
Proof.
  refine (proj2 (cache_category_overwrite empty_cache (py "Widget X")
                   (py "widget x") (py " Widget X")
                   (py "Household Supplies") (py "Electronics")) _ _ _ _).
  - vm_compute. discriminate.
  - vm_compute. discriminate.
  - vm_compute. reflexivity.
  - vm_compute. reflexivity.
Defined.

(** ** The single-item requests *)

Lemma match_category_valid (cat : pystr) (cats : list pystr) (y : pystr) :
  match_category cat cats = (y, true) -> y ∈ cats.
Proof.
  unfold match_category. case_bool_decide as Hmem.
  - by intros [= <-].
  - repeat match goal with
      | |- context [match first_match ?p ?l with _ => _ end] =>
          let E := fresh "E" in
          destruct (first_match p l) eqn:E;
          [ intros [= ?]; subst; by apply first_match_elem in E as [? _] | ]
      end.
    intros H; inversion H.
Qed.

Lemma retry_facts (client : nat -> Request -> Reply)
    (ynab_categories : list pystr) (item : pystr) (st : CatState) :
  let r := retry_categorize_item client ynab_categories item st in
  (fst r = None \/ exists y, fst r = Some y /\ y ∈ ynab_categories)
  /\ cs_trace (snd r) = cs_trace st ++ [ReqRetry item]
  /\ cs_cache (snd r) = cs_cache st
  /\ cs_results (snd r) = cs_results st
  /\ cs_unmatched (snd r) = cs_unmatched st.
Proof.
  unfold retry_categorize_item, call.
  destruct (client _ _) as [| |t]; cbn; [by auto..|].
  destruct (match_category _ _) as [y matched] eqn:E.
  destruct matched; cbn; [|by auto].
  split; [|done]. right. exists y. split; [done|].
  by apply match_category_valid in E.
Qed.

(** X7. retry_categorize_item issues exactly one request, touches neither
    the cache nor the results, and returns either nothing or a category of
    the valid list, whatever the service answers. *)
Theorem retry_categorize_item_sound (client : nat -> Request -> Reply)
    (ynab_categories : list pystr) (item : pystr) (st : CatState) :
  let r := retry_categorize_item client ynab_categories item st in
  (fst r = None \/ exists y, fst r = Some y /\ y ∈ ynab_categories)
  /\ cs_trace (snd r) = cs_trace st ++ [ReqRetry item]
  /\ cs_cache (snd r) = cs_cache st
  /\ cs_results (snd r) = cs_results st
  /\ cs_unmatched (snd r) = cs_unmatched st.
Proof. apply retry_facts. Qed.


(** ** Invariants of a categorisation run *)

Lemma retry_state client cats item st :
  snd (retry_categorize_item client cats item st)
  = snd (call client st (ReqRetry item)).
Proof.
  unfold retry_categorize_item.
  destruct (call client st (ReqRetry item)) as [reply st1].
  destruct reply; try done. by destruct (match_category _ _).
Qed.

Lemma resubmit_state client cats item orig st :
  snd (resubmit_suspicious_item client cats item orig st)
  = snd (call client st (ReqResubmit item orig)).
Proof.
  unfold resubmit_suspicious_item.
  destruct (call client st (ReqResubmit item orig)) as [reply st1].
  destruct reply; try done. by destruct (match_category _ _).
Qed.

Section RunInvariant.

Variable client : nat -> Request -> Reply.
Variable ynab_categories : list pystr.

(** A property of the state that the single-item requests, the unmatched
    bookkeeping and the storing of an admissible pair preserve. *)
Variable Inv : CatState -> Prop.
Variable admissible : pystr * pystr -> Prop.

Hypothesis Inv_call : forall st req,
  single_request req -> Inv st -> Inv (snd (call client st req)).
Hypothesis Inv_unmatched : forall cat st,
  Inv st -> Inv (add_unmatched cat st).
Hypothesis Inv_store : forall import_id cat item st,
  admissible (import_id, item) -> Inv st ->
  Inv (store import_id cat item st).

Lemma categorize_line_inv item_refs st line :
  Forall admissible item_refs -> Inv st ->
  Inv (categorize_line client ynab_categories item_refs st line).
Proof.
  intros Hrefs Hst. unfold categorize_line.
  case_bool_decide; [done|].
  destruct (split_dot _ _) as [[part0 part1]|]; [|done].
  destruct (py_int_of_str part0) as [n|]; [|done].
  destruct (clean_and_match _ _) as [cat matched].
  destruct (_ && _); [|done].
  destruct (item_refs !! _) as [[import_id item_name]|] eqn:Hl; [|done].
  assert (admissible (import_id, item_name)) as Hi.
  { rewrite Forall_forall in Hrefs. apply Hrefs.
    by eapply list_elem_of_lookup_2. }
  assert (forall cat1 st1, Inv st1 ->
            Inv (let '(cat0, st0) :=
                   if is_suspicious_categorization item_name cat1
                   then resubmit_suspicious_item client ynab_categories
                          item_name cat1 st1
                   else (cat1, st1) in
                 store import_id cat0 item_name st0)) as Hfin.
  { intros cat1 st1 Hst1.
    destruct (is_suspicious_categorization item_name cat1).
    - pose proof (resubmit_state client ynab_categories item_name cat1 st1)
        as Hr.
      destruct (resubmit_suspicious_item _ _ _ _ _) as [cat0 st0].
      simpl in Hr. subst st0. apply Inv_store; [done|].
      by apply Inv_call.
    - by apply Inv_store. }
  destruct matched; [by apply Hfin|].
  pose proof (retry_state client ynab_categories item_name st) as Hr.
  destruct (retry_categorize_item _ _ _ _) as [retry_cat st1].
  simpl in Hr. subst st1.
  destruct (truthy retry_cat); apply Hfin.
  - by apply Inv_call.
  - apply Inv_unmatched. by apply Inv_call.
Qed.

Lemma categorize_lines_inv item_refs lines st :
  Forall admissible item_refs -> Inv st ->
  Inv (fold_left (categorize_line client ynab_categories item_refs)
                 lines st).
Proof.
  intros Hrefs. revert st.
  induction lines as [|line ls IH]; intros st Hst; [done|].
  simpl. apply IH. by apply categorize_line_inv.
Qed.

(** The state after a chunk, from the state after its request. *)
Lemma categorize_chunk_inv st chunk :
  Forall admissible chunk ->
  Inv (snd (call client st (ReqChunk (map snd chunk)))) ->
  Inv (categorize_chunk client ynab_categories st chunk).
Proof.
  intros Hch Hc. unfold categorize_chunk.
  destruct (call client st _) as [reply st1]. simpl in Hc.
  destruct reply; try done. by apply categorize_lines_inv.
Qed.

End RunInvariant.

Section RunInvariantAll.

Variable client : nat -> Request -> Reply.
Variable ynab_categories : list pystr.
Variable Inv : CatState -> Prop.
Variable admissible : pystr * pystr -> Prop.

Hypothesis Inv_call : forall st req,
  Inv st -> Inv (snd (call client st req)).
Hypothesis Inv_unmatched : forall cat st,
  Inv st -> Inv (add_unmatched cat st).
Hypothesis Inv_store : forall import_id cat item st,
  admissible (import_id, item) -> Inv st ->
  Inv (store import_id cat item st).

Lemma chunks_inv fuel n (l : list (pystr * pystr)) st :
  Forall admissible l -> Inv st ->
  Inv (fold_left (categorize_chunk client ynab_categories)
                 (chunks_of fuel n l) st).
Proof.
  revert l st. induction fuel as [|f IH]; intros l st Hl Hst; [done|].
  destruct l as [|x l2]; [done|].
  cbn [chunks_of fold_left].
  rewrite <- (firstn_skipn n (x :: l2)) in Hl.
  apply Forall_app in Hl as [Hhead Htail].
  apply IH; [done|].
  apply (categorize_chunk_inv client ynab_categories Inv admissible);
    auto.
Qed.

(** An invariant that holds of the state the cache passes leave holds of
    the state the run ends in. *)
Lemma batch_inv all_items (c : CategoryCache) :
  Forall admissible (all_item_list_of c all_items) ->
  Inv (start_state c (first_pass_results c all_items)) ->
  Inv (start_state c (second_pass_results c all_items)) ->
  Inv (batch_categorize_items client ynab_categories all_items c).
Proof.
  intros Hadm Hfirst Hsecond. unfold batch_categorize_items.
  destruct (filter _ all_items) as [|e es]; [exact Hfirst|].
  apply chunks_inv; [exact Hadm | exact Hsecond].
Qed.

End RunInvariantAll.

Lemma cached_hit_key (c : CategoryCache) (a b : pystr) :
  _normalize_item_name a = _normalize_item_name b ->
  cached_hit c a = cached_hit c b.
Proof.
  intros H. unfold cached_hit, get_cached_category. by rewrite H.
Qed.

Lemma cached_hit_other (c : CategoryCache) (item cat i : pystr) :
  _normalize_item_name i <> _normalize_item_name item ->
  cached_hit (cache_category c item cat) i = cached_hit c i.
Proof.
  intros Hne. unfold cached_hit, get_cached_category, cache_category.
  destruct (_ && _); [|done]. simpl. by rewrite lookup_insert_ne.
Qed.

Lemma all_item_list_uncached (c : CategoryCache)
    (all_items : list (pystr * list pystr)) :
  Forall (fun e => cached_hit c (snd e) = None
                   /\ item_of all_items (fst e) (snd e))
         (all_item_list_of c all_items).
Proof.
  apply Forall_forall. intros [import_id item] Hin.
  unfold all_item_list_of in Hin.
  apply list_elem_of_In, in_flat_map in Hin as ([id items] & Hall & Hin).
  apply list_elem_of_In in Hall.
  apply list_elem_of_In, list_elem_of_fmap in Hin as (i & [= -> ->] & Hi).
  apply list_elem_of_filter in Hi as [Hmiss Hi].
  split; [done|]. by exists items.
Qed.

(** X9. A categorisation run never changes what the cache answers for an
    item it answered (with a non-empty category) when the run started:
    corrections and earlier categorisations survive every run. *)
Theorem batch_keeps_cached (client : nat -> Request -> Reply)
    (ynab_categories : list pystr) (all_items : list (pystr * list pystr))
    (c : CategoryCache) (item category : pystr) :
  cached_hit c item = Some category ->
  cached_hit (cs_cache (batch_categorize_items client ynab_categories
                          all_items c)) item = Some category.
Proof.
  intros Hhit.
  apply (batch_inv client ynab_categories
           (fun st => cached_hit (cs_cache st) item = Some category)
           (fun e => cached_hit c (snd e) = None)).
  - done.
  - done.
  - intros import_id cat i st Hmiss Hst. simpl in *.
    rewrite cached_hit_other; [done|].
    intros Hkey. rewrite (cached_hit_key c item i Hkey) in Hhit. congruence.
  - eapply Forall_impl; [apply all_item_list_uncached|]. by intros e [? _].
  - done.
  - done.
Qed.

Lemma batch_keeps_cached_witness :
  cached_hit (cs_cache (batch_categorize_items CachedRun.client
                          CachedRun.categories CachedRun.all_items
                          CachedRun.cache))
             (py "widget x") = Some (py "Electronics").
Proof.
  apply batch_keeps_cached. vm_compute. reflexivity.
Defined.

Lemma dict_append_elem (d : CatDict) (cat item cat2 : pystr)
    (items : list pystr) (i : pystr) :
  (cat2, items) ∈ dict_append d cat item -> i ∈ items ->
  i = item \/ exists items0, (cat2, items0) ∈ d /\ i ∈ items0.
Proof.
  induction d as [|[k v] d IH]; simpl.
  - intros Hin Hi. apply list_elem_of_singleton in Hin as [= -> ->].
    apply list_elem_of_singleton in Hi. by left.
  - case_bool_decide as Hk.
    + intros Hin Hi. apply elem_of_cons in Hin as [[= -> ->]|Hin].
      * apply elem_of_app in Hi as [Hi|Hi].
        { right. exists v. split; [by left|done]. }
        apply list_elem_of_singleton in Hi. by left.
      * right. exists items. split; [by right|done].
    + intros Hin Hi. apply elem_of_cons in Hin as [[= -> ->]|Hin].
      * right. exists v. split; [by left|done].
      * destruct (IH Hin Hi) as [->|(items0 & H0 & Hi0)]; [by left|].
        right. exists items0. split; [by right|done].
Qed.

Section ResultsFacts.

Variable all_items : list (pystr * list pystr).

Lemma results_append_owned res import_id cat item :
  results_owned all_items res -> item_of all_items import_id item ->
  results_owned all_items (results_append res import_id cat item).
Proof.
  intros Hres Hitem id d cat2 items i Hd Hin Hi.
  unfold results_append in Hd.
  destruct (decide (id = import_id)) as [->|Hne].
  - rewrite lookup_insert_eq in Hd. injection Hd as <-.
    destruct (dict_append_elem _ _ _ _ _ _ Hin Hi) as [->|(items0 & H0 & Hi0)];
      [done|].
    destruct (res !! import_id) as [d0|] eqn:E; simpl in H0.
    + by eapply Hres.
    + by apply elem_of_nil in H0.
  - rewrite lookup_insert_ne in Hd by done. by eapply Hres.
Qed.

Lemma results_append_key res import_id cat item (k : pystr) :
  is_Some (res !! k) \/ k = import_id ->
  is_Some (results_append res import_id cat item !! k).
Proof.
  unfold results_append. intros [Hk| ->].
  - destruct (decide (k = import_id)) as [->|Hne].
    + rewrite lookup_insert_eq. by eexists.
    + by rewrite lookup_insert_ne.
  - rewrite lookup_insert_eq. by eexists.
Qed.

Lemma cached_into_owned (c : CategoryCache) import_id items res :
  Forall (item_of all_items import_id) items ->
  results_owned all_items res ->
  results_owned all_items (cached_into c import_id res items).
Proof.
  unfold cached_into. intros Hitems. revert res.
  induction Hitems as [|i l Hi _ IH]; intros res Hres; [done|].
  simpl. apply IH. destruct (cached_hit c i); [|done].
  by apply results_append_owned.
Qed.

Lemma cached_into_key (c : CategoryCache) import_id items res (k : pystr) :
  is_Some (res !! k) ->
  is_Some (cached_into c import_id res items !! k).
Proof.
  unfold cached_into. revert res.
  induction items as [|i l IH]; intros res Hk; [done|].
  simpl. apply IH. destruct (cached_hit c i); [|done].
  apply results_append_key. by left.
Qed.

Lemma reset_owned res (import_id : pystr) :
  results_owned all_items res ->
  results_owned all_items (<[import_id := []]> res).
Proof.
  intros Hres id d cat items i Hd Hin Hi.
  destruct (decide (id = import_id)) as [->|Hne].
  - rewrite lookup_insert_eq in Hd. injection Hd as <-.
    by apply elem_of_nil in Hin.
  - rewrite lookup_insert_ne in Hd by done. by eapply Hres.
Qed.

Lemma items_of_transaction import_id items :
  (import_id, items) ∈ all_items ->
  Forall (item_of all_items import_id) items.
Proof.
  intros Hin. apply Forall_forall. intros i Hi. by exists items.
Qed.

(** Both cache passes, over a part [l] of the transactions. *)
Lemma first_pass_fold (c : CategoryCache) l res :
  (forall e, e ∈ l -> e ∈ all_items) ->
  results_owned all_items res ->
  let res2 := fold_left (fun res '(import_id, items) =>
                           cached_into c import_id (<[import_id := []]> res)
                                       items) l res in
  results_owned all_items res2
  /\ (forall k, is_Some (res !! k) \/ k ∈ map fst l -> is_Some (res2 !! k)).
Proof.
  revert res. induction l as [|[import_id items] l IH]; intros res Hl Hres.
  - simpl. split; [done|]. intros k [Hk|Hk]; [done|].
    by apply elem_of_nil in Hk.
  - cbn [fold_left].
    destruct (IH (cached_into c import_id (<[import_id := []]> res) items))
      as [Ho Hk].
    { intros e He. apply Hl. by right. }
    { apply cached_into_owned.
      - apply items_of_transaction, Hl. by left.
      - by apply reset_owned. }
    split; [exact Ho|].
    intros k Hin. apply Hk.
    destruct Hin as [Hin|Hin].
    + left. apply cached_into_key.
      destruct (decide (k = import_id)) as [->|Hne].
      * rewrite lookup_insert_eq. by eexists.
      * by rewrite lookup_insert_ne.
    + cbn [map fst] in Hin. apply elem_of_cons in Hin as [->|Hin];
        [|by right].
      left. apply cached_into_key. rewrite lookup_insert_eq. by eexists.
Qed.

Lemma second_pass_fold (c : CategoryCache) l res :
  (forall e, e ∈ l -> e ∈ all_items) ->
  results_owned all_items res ->
  let res2 := fold_left (fun res '(import_id, items) =>
                           cached_into c import_id res items) l res in
  results_owned all_items res2
  /\ (forall k, is_Some (res !! k) -> is_Some (res2 !! k)).
Proof.
  revert res. induction l as [|[import_id items] l IH]; intros res Hl Hres.
  - simpl. by split.
  - cbn [fold_left].
    destruct (IH (cached_into c import_id res items)) as [Ho Hk].
    { intros e He. apply Hl. by right. }
    { apply cached_into_owned; [|done].
      apply items_of_transaction, Hl. by left. }
    split; [exact Ho|].
    intros k Hin. apply Hk. by apply cached_into_key.
Qed.

End ResultsFacts.

Lemma results_owned_empty all_items : results_owned all_items ∅.
Proof. intros id d cat items i Hd. by rewrite lookup_empty in Hd. Qed.

(** X10. After a categorisation run every transaction of the input has an
    entry in the results, and every item recorded under a transaction is
    one of that transaction's own items: a category is never attributed
    to an item of another transaction, whatever indices the service
    returns. *)
Theorem batch_results_owned (client : nat -> Request -> Reply)
    (ynab_categories : list pystr) (all_items : list (pystr * list pystr))
    (c : CategoryCache) :
  let st := batch_categorize_items client ynab_categories all_items c in
  Forall (fun e => is_Some (cs_results st !! fst e)) all_items
  /\ results_owned all_items (cs_results st).
Proof.
  destruct (first_pass_fold all_items c all_items ∅) as [Ho1 Hk1];
    [done | apply results_owned_empty |].
  destruct (second_pass_fold all_items c all_items
              (first_pass_results c all_items)) as [Ho2 Hk2];
    [done | exact Ho1 |].
  assert (forall res : gmap pystr CatDict,
            (forall k, k ∈ map fst all_items -> is_Some (res !! k)) ->
            Forall (fun e => is_Some (res !! fst e)) all_items) as Hall.
  { intros res Hres. apply Forall_forall. intros e He. apply Hres.
    apply list_elem_of_fmap. by exists e. }
  apply (batch_inv client ynab_categories
           (fun st => Forall (fun e => is_Some (cs_results st !! fst e))
                             all_items
                      /\ results_owned all_items (cs_results st))
           (fun e => item_of all_items (fst e) (snd e))).
  - done.
  - done.
  - intros import_id cat item st Hitem [Hkeys Hown]. simpl in *. split.
    + eapply Forall_impl; [exact Hkeys|]. intros e He.
      apply results_append_key. by left.
    + by apply results_append_owned.
  - eapply Forall_impl; [apply all_item_list_uncached|]. by intros e [_ ?].
  - split; [|exact Ho1]. apply Hall. intros k Hk. apply Hk1. by right.
  - split; [|exact Ho2]. apply Hall. intros k Hk. apply Hk2, Hk1. by right.
Qed.

(** ** The chunk requests of a run *)

Lemma chunk_items_app (l1 l2 : list Request) :
  chunk_items (l1 ++ l2) = chunk_items l1 ++ chunk_items l2.
Proof. unfold chunk_items. apply flat_map_app. Qed.

Lemma chunk_items_single (l : list Request) (r : Request) :
  single_request r -> chunk_items (l ++ [r]) = chunk_items l.
Proof.
  intros Hr. rewrite chunk_items_app. destruct r; [done|..];
    simpl; by rewrite app_nil_r.
Qed.

Section ChunkRequests.

Variable client : nat -> Request -> Reply.
Variable ynab_categories : list pystr.

Lemma categorize_chunk_sent sent st (chunk : list (pystr * pystr)) :
  (length chunk <= item_chunk_size)%nat ->
  chunks_sent sent st ->
  chunks_sent (sent ++ map snd chunk)
              (categorize_chunk client ynab_categories st chunk).
Proof.
  intros Hlen [Hsent Hb].
  apply (categorize_chunk_inv client ynab_categories
           (chunks_sent (sent ++ map snd chunk)) (fun _ => True)).
  - intros st1 req Hreq [H1 H2]. unfold chunks_sent, call. simpl. split.
    + by rewrite chunk_items_single.
    + apply Forall_app. split; [done|]. constructor; [|done].
      by destruct req.
  - done.
  - done.
  - by apply Forall_forall.
  - unfold chunks_sent, call. simpl. split.
    + rewrite chunk_items_app, Hsent. simpl. by rewrite app_nil_r.
    + apply Forall_app. split; [done|]. constructor; [|done].
      simpl. by rewrite length_map.
Qed.

Lemma chunks_sent_all fuel (l : list (pystr * pystr)) sent st :
  (length l <= fuel)%nat ->
  chunks_sent sent st ->
  chunks_sent (sent ++ map snd l)
              (fold_left (categorize_chunk client ynab_categories)
                         (chunks_of fuel item_chunk_size l) st).
Proof.
  revert l sent st. induction fuel as [|f IH]; intros l sent st Hlen Hst.
  - destruct l; [|simpl in Hlen; lia]. simpl. by rewrite app_nil_r.
  - destruct l as [|x l2]; [simpl; by rewrite app_nil_r|].
    cbn [chunks_of fold_left].
    assert (map snd (x :: l2)
            = map snd (firstn item_chunk_size (x :: l2))
              ++ map snd (skipn item_chunk_size (x :: l2))) as ->
      by (by rewrite <- map_app, firstn_skipn).
    rewrite app_assoc.
    apply IH.
    + rewrite length_skipn. unfold item_chunk_size. simpl in *. lia.
    + apply categorize_chunk_sent; [|done].
      rewrite length_take. lia.
Qed.

End ChunkRequests.

Lemma all_item_list_nil (c : CategoryCache)
    (all_items : list (pystr * list pystr)) :
  filter (fun e => uncached c (snd e) <> []) all_items = [] ->
  all_item_list_of c all_items = [].
Proof.
  unfold all_item_list_of.
  induction all_items as [|[import_id items] l IH]; [done|].
  rewrite filter_cons. simpl. destruct (decide _) as [Hne|He]; [done|].
  intros Hf. rewrite (IH Hf).
  destruct (uncached c items); [done|]. exfalso. by apply He.
Qed.

(** X11. The chunk requests of a run carry exactly the uncached items of
    the input, each occurrence once, in input order, and no chunk request
    carries more than 30 items. *)
Theorem batch_chunk_requests (client : nat -> Request -> Reply)
    (ynab_categories : list pystr) (all_items : list (pystr * list pystr))
    (c : CategoryCache) :
  let st := batch_categorize_items client ynab_categories all_items c in
  chunk_items (cs_trace st) = map snd (all_item_list_of c all_items)
  /\ Forall chunk_bounded (cs_trace st).
Proof.
  unfold batch_categorize_items.
  destruct (filter _ all_items) as [|e es] eqn:Hf.
  - simpl. rewrite (all_item_list_nil c all_items Hf). by split.
  - apply (chunks_sent_all client ynab_categories
             (length (all_item_list_of c all_items))
             (all_item_list_of c all_items) []); [done|].
    by split.
Qed.

(** ** The asynchronous path stores valid categories only *)

Lemma dict_append_category (d : CatDict) (cat item cat2 : pystr)
    (items : list pystr) :
  (cat2, items) ∈ dict_append d cat item ->
  cat2 = cat \/ exists items0, (cat2, items0) ∈ d.
Proof.
  induction d as [|[k v] d IH]; simpl.
  - intros Hin. apply list_elem_of_singleton in Hin as [= -> ->]. by left.
  - case_bool_decide as Hk.
    + intros Hin. apply elem_of_cons in Hin as [[= -> ->]|Hin].
      * by left.
      * right. exists items. by right.
    + intros Hin. apply elem_of_cons in Hin as [[= -> ->]|Hin].
      * right. exists v. by left.
      * destruct (IH Hin) as [->|(items0 & H0)]; [by left|].
        right. exists items0. by right.
Qed.

Section ValidStore.

Variable V : pystr -> Prop.
Variable c0 : CategoryCache.

Lemma store_valid import_id cat item st :
  V cat ->
  results_valid V (cs_results st) /\ cache_new_valid V c0 (cs_cache st) ->
  results_valid V (cs_results (store import_id cat item st))
  /\ cache_new_valid V c0 (cs_cache (store import_id cat item st)).
Proof.
  intros Hcat [Hres Hcache]. split.
  - intros id d cat2 items Hd Hin. simpl in Hd. unfold results_append in Hd.
    destruct (decide (id = import_id)) as [->|Hne].
    + rewrite lookup_insert_eq in Hd. injection Hd as <-.
      destruct (dict_append_category _ _ _ _ _ Hin) as [->|(items0 & H0)];
        [done|].
      destruct (cs_results st !! import_id) as [d0|] eqn:E; simpl in H0.
      * by eapply Hres.
      * by apply elem_of_nil in H0.
    + rewrite lookup_insert_ne in Hd by done. by eapply Hres.
  - intros k v Hk. simpl in Hk. unfold cache_category in Hk.
    destruct (_ && _); [|by apply Hcache]. simpl in Hk.
    destruct (decide (k = _normalize_item_name item)) as [->|Hne].
    + rewrite lookup_insert_eq in Hk. injection Hk as <-. by right.
    + rewrite lookup_insert_ne in Hk by done. by apply Hcache.
Qed.

End ValidStore.

(** X12. The asynchronous path (retrieve_batch_results) stores and caches
    nothing but valid categories and the fallback: whatever a response
    says and whatever the retries answer, every category it adds to the
    results or to the cache is in the valid list or is the fallback
    category. *)
Theorem batch_result_response_valid (client : nat -> Request -> Reply)
    (ynab_categories : list pystr) (import_id : pystr) (items : list pystr)
    (c0 : CategoryCache) (st : CatState) (response_text : pystr) :
  results_valid (valid_or_fallback ynab_categories) (cs_results st) ->
  cache_new_valid (valid_or_fallback ynab_categories) c0 (cs_cache st) ->
  let st2 := batch_result_response client ynab_categories import_id items
               st response_text in
  results_valid (valid_or_fallback ynab_categories) (cs_results st2)
  /\ cache_new_valid (valid_or_fallback ynab_categories) c0 (cs_cache st2).
Proof.
  intros Hres Hcache. unfold batch_result_response.
  assert (results_valid (valid_or_fallback ynab_categories) (cs_results st)
          /\ cache_new_valid (valid_or_fallback ynab_categories) c0
                             (cs_cache st)) as Hst by done.
  clear Hres Hcache. revert st Hst.
  induction (split_lines (strip response_text)) as [|line ls IH];
    intros st Hst; [done|].
  cbn [fold_left]. apply IH. clear IH.
  unfold batch_result_line.
  case_bool_decide; [done|].
  destruct (split_dot _ _) as [[part0 part1]|]; [|done].
  destruct (py_int_of_str part0) as [n|]; [|done].
  destruct (_ && _); [|done].
  destruct (items !! _) as [item_name|]; [|done].
  destruct (if looks_like_product _ then _ else _) as [matched_cat matched]
    eqn:Em.
  destruct matched.
  - apply store_valid; [|done]. left.
    destruct (looks_like_product _); [by injection Em|].
    by apply match_category_valid in Em.
  - pose proof (retry_facts client ynab_categories item_name st) as Hr.
    cbv zeta in Hr.
    destruct (retry_categorize_item _ _ _ _) as [retry_cat st1].
    simpl in Hr. destruct Hr as (Hcat & _ & Hc & Hr & _).
    destruct (truthy retry_cat) as [rc|] eqn:Et.
    + apply store_valid; [|by rewrite Hc, Hr].
      left. destruct Hcat as [->|(y & -> & Hy)]; [done|].
      destruct y; [done|]. by injection Et as <-.
    + apply store_valid; [by right|]. simpl. by rewrite Hc, Hr.
Qed.

Lemma batch_result_response_valid_witness :
  results_valid (valid_or_fallback UnmatchedRun.categories)
    (cs_results (batch_result_response UnmatchedRun.client
                   UnmatchedRun.categories UnmatchedRun.import_id
                   [py "Widget"] UnmatchedRun.start (py "1. Gadgets"))).
Proof.
  refine (proj1 (batch_result_response_valid UnmatchedRun.client
                   UnmatchedRun.categories UnmatchedRun.import_id
                   [py "Widget"] empty_cache UnmatchedRun.start
                   (py "1. Gadgets") _ _)).
  - intros id d cat items Hd. simpl in Hd. rewrite lookup_empty in Hd.
    discriminate Hd.
  - intros k v Hk. by left.
Defined.

(** ** distribute_amounts *)

Lemma Qsum_snoc (l : list Q) (x : Q) : Qsum (l ++ [x]) = Qsum l + x.
Proof. unfold Qsum. by rewrite fold_left_app. Qed.

(** X13. distribute_amounts returns nothing for zero splits and otherwise
    as many amounts as splits asked for, summing exactly to the total:
    the last amount takes what the rounded ones leave. *)
Theorem distribute_amounts_exact (total : Q) (num_splits : Z) :
  distribute_amounts total 0 = []
  /\ ((1 <= num_splits)%Z ->
      length (distribute_amounts total num_splits) = Z.to_nat num_splits
      /\ Qsum (distribute_amounts total num_splits) == total).
Proof.
  split; [done|]. intros Hn. unfold distribute_amounts.
  destruct (num_splits =? 0)%Z eqn:E0; [apply Z.eqb_eq in E0; lia|].
  destruct (num_splits =? 1)%Z eqn:E1.
  - apply Z.eqb_eq in E1. subst. split; [done|].
    unfold Qsum. simpl. ring.
  - apply Z.eqb_neq in E1. cbv zeta. split.
    + rewrite length_app, repeat_length. simpl. lia.
    + rewrite Qsum_snoc. ring.
Qed.

Lemma distribute_amounts_exact_witness :
  length (distribute_amounts 10 3) = 3%nat
  /\ Qsum (distribute_amounts 10 3) == 10.
Proof.
  apply (proj2 (distribute_amounts_exact 10 3)). lia.
Defined.

(** ** Grouping (load_order_history) *)

Section Grouping.

Context {K A : Type} `{EqDecision K}.
Variable key : A -> K.

Lemma group_append_keys (g : list (K * list A)) (k : K) (x : A) (k2 : K) :
  k2 ∈ map fst (group_append g k x) <-> k2 = k \/ k2 ∈ map fst g.
Proof.
  induction g as [|[k1 v1] g IH]; simpl.
  - rewrite list_elem_of_singleton. split; [by left|].
    intros [?|Hn]; [done|]. by apply elem_of_nil in Hn.
  - destruct (decide (k1 = k)) as [->|Hne]; simpl.
    + rewrite elem_of_cons. split; [by right|]. intros [->|?]; [by left|done].
    + rewrite !elem_of_cons, IH. tauto.
Qed.

Lemma group_append_nodup (g : list (K * list A)) (k : K) (x : A) :
  NoDup (map fst g) -> NoDup (map fst (group_append g k x)).
Proof.
  induction g as [|[k1 v1] g IH]; simpl; intros Hnd.
  - apply NoDup_singleton.
  - destruct (decide (k1 = k)) as [->|Hne]; simpl; [done|].
    apply NoDup_cons in Hnd as [Hnot Hnd].
    apply NoDup_cons. split; [|by apply IH].
    rewrite group_append_keys. intros [?|?]; [by subst|done].
Qed.

Lemma group_append_elem (g : list (K * list A)) (k : K) (x : A)
    (k2 : K) (v2 : list A) :
  NoDup (map fst g) ->
  (k2, v2) ∈ group_append g k x ->
  (k2 <> k /\ (k2, v2) ∈ g)
  \/ (k2 = k
      /\ ((exists v, (k, v) ∈ g /\ v2 = v ++ [x])
          \/ ((k ∉ map fst g) /\ v2 = [x]))).
Proof.
  induction g as [|[k1 v1] g IH]; simpl; intros Hnd Hin.
  - apply list_elem_of_singleton in Hin as [= -> ->].
    right. split; [done|]. right. split; [|done]. apply not_elem_of_nil.
  - apply NoDup_cons in Hnd as [Hnot Hnd].
    destruct (decide (k1 = k)) as [->|Hne].
    + apply elem_of_cons in Hin as [[= -> ->]|Hin].
      * right. split; [done|]. left. exists v1. split; [by left|done].
      * left. split; [|by right]. intros ->. apply Hnot.
        apply list_elem_of_fmap. by exists (k, v2).
    + apply elem_of_cons in Hin as [[= -> ->]|Hin].
      * left. split; [done|by left].
      * destruct (IH Hnd Hin) as [[? ?]|[-> [(v & Hv & ->)|[Hk ->]]]].
        { left. split; [done|by right]. }
        { right. split; [done|]. left. exists v. split; [by right|done]. }
        { right. split; [done|]. right. split; [|done].
          rewrite elem_of_cons. intros [?|?]; [by subst|done]. }
Qed.

Lemma filter_none (P : A -> Prop) `{forall x, Decision (P x)} (l : list A) :
  (forall y, y ∈ l -> ~ P y) -> filter P l = [].
Proof.
  induction l as [|a l IH]; intros Hl; [done|].
  rewrite filter_cons_False by (apply Hl; by left).
  apply IH. intros y Hy. apply Hl. by right.
Qed.

Lemma grouped_step (seen : list A) (g : list (K * list A)) (x : A) :
  grouped key seen g ->
  grouped key (seen ++ [x]) (group_append g (key x) x).
Proof.
  intros (Hnd & Hgroups & Hkeys). split; [by apply group_append_nodup|].
  split.
  - intros k v Hin.
    destruct (group_append_elem g (key x) x k v Hnd Hin)
      as [[Hne Hg]|[-> [(v0 & Hv0 & ->)|[Hk ->]]]].
    + destruct (Hgroups k v Hg) as [-> Hv]. split; [|done].
      rewrite filter_app, (filter_cons_False _ x) by done.
      by rewrite filter_nil, app_nil_r.
    + destruct (Hgroups _ _ Hv0) as [-> _]. split.
      * rewrite filter_app, (filter_cons_True _ x) by done.
        by rewrite filter_nil.
      * intros Hn. by apply app_eq_nil in Hn as [_ ?].
    + split; [|done].
      rewrite filter_app, (filter_cons_True _ x) by done.
      rewrite filter_nil.
      assert (filter (fun y => key y = key x) seen = []) as ->; [|done].
      apply filter_none. intros y Hy Heq.
      apply Hk. rewrite <- Heq. by apply Hkeys.
  - intros y Hy. rewrite group_append_keys.
    apply elem_of_app in Hy as [Hy|Hy]; [right; by apply Hkeys|].
    apply list_elem_of_singleton in Hy as ->. by left.
Qed.

Lemma grouped_fold (l seen : list A) (g : list (K * list A)) :
  grouped key seen g ->
  grouped key (seen ++ l)
          (fold_left (fun groups x => group_append groups (key x) x) l g).
Proof.
  revert seen g. induction l as [|x l IH]; intros seen g Hg.
  - by rewrite app_nil_r.
  - simpl. replace (seen ++ x :: l) with ((seen ++ [x]) ++ l)
      by (by rewrite <- app_assoc).
    apply IH. by apply grouped_step.
Qed.

(** [group_by] makes one group per key, holding the elements of that key
    in their order. *)
Lemma group_by_grouped (l : list A) : grouped key l (group_by key l).
Proof.
  apply (grouped_fold l [] []). split; [constructor|]. split.
  - intros k v Hin. by apply elem_of_nil in Hin.
  - intros x Hx. by apply elem_of_nil in Hx.
Qed.

End Grouping.

(** X14. load_order_history files every row with a non-empty order id
    under that id, and nothing else: the entry of an order id is the order
    made of exactly the rows carrying it, in file order, and an id that no
    row carries (or the empty id) has no entry. *)
Theorem load_order_history_lookup (all_items : list RawItem)
    (order_id : pystr) :
  load_order_history all_items !! order_id
  = match filter (fun i => ri_order_id i = order_id)
                 (filter (fun i => ri_order_id i <> []) all_items) with
    | [] => None
    | rows => Some (make_order rows)
    end.
Proof.
  unfold load_order_history.
  set (rows := filter (fun i => ri_order_id i <> []) all_items).
  destruct (group_by_grouped ri_order_id rows) as (Hnd & Hgroups & Hkeys).
  set (groups := group_by ri_order_id rows) in *.
  assert ((map (fun g => (fst g, make_order (snd g))) groups).*1
          = groups.*1) as Hfst.
  { clear. induction groups as [|g l IH]; [done|]. simpl. f_equal.
    exact IH. }
  change (NoDup groups.*1) in Hnd.
  destruct (filter _ rows) as [|x r] eqn:Hf.
  - apply not_elem_of_list_to_map. rewrite Hfst.
    intros Hin. apply list_elem_of_fmap in Hin as ([k v] & Hk & Hin).
    simpl in Hk. subst k.
    destruct (Hgroups _ _ Hin) as [Hv Hne]. rewrite Hf in Hv. done.
  - assert (x ∈ filter (fun i => ri_order_id i = order_id) rows) as Hx
      by (rewrite Hf; by left).
    apply list_elem_of_filter in Hx as [Hid Hx].
    specialize (Hkeys x Hx). rewrite Hid in Hkeys.
    apply list_elem_of_fmap in Hkeys as ([k v] & Hk & Hin).
    simpl in Hk. subst k.
    destruct (Hgroups _ _ Hin) as [Hv _]. rewrite Hf in Hv. subst v.
    apply elem_of_list_to_map_1.
    + by rewrite Hfst.
    + apply list_elem_of_fmap. by exists (order_id, x :: r).
Qed.

Lemma make_shipment_date (k : option Z) (v : list RawItem) :
  v = filter (fun i => ri_ship_date i = k) v -> v <> [] ->
  ship_date (make_shipment v) = k.
Proof.
  intros Hv Hne. destruct v as [|x v]; [done|]. simpl.
  assert (x ∈ filter (fun i => ri_ship_date i = k) (x :: v)) as Hx
    by (rewrite <- Hv; by left).
  by apply list_elem_of_filter in Hx as [? _].
Qed.

Lemma filter_filter_same {A} (P : A -> Prop) `{forall x, Decision (P x)}
    (l : list A) :
  filter P l = filter P (filter P l).
Proof.
  induction l as [|a l IH]; [done|].
  rewrite filter_cons. destruct (decide (P a)); [|done].
  rewrite filter_cons_True by done. by rewrite <- IH.
Qed.

(** The shipments of an order before sorting. *)
Lemma make_order_groups (items : list RawItem) (s : Shipment) :
  s ∈ order_shipments (make_order items) ->
  exists v, s = make_shipment v
            /\ v = filter (fun i => ri_ship_date i = ship_date s) items
            /\ v <> [].
Proof.
  unfold make_order. cbn [order_shipments]. intros Hs.
  rewrite sort_shipments_perm in Hs.
  apply list_elem_of_fmap in Hs as ([k v] & -> & Hin). cbn [snd].
  destruct (group_by_grouped ri_ship_date items) as (_ & Hgroups & _).
  destruct (Hgroups _ _ Hin) as [Hv Hne].
  exists v. split; [done|]. split; [|done].
  rewrite (make_shipment_date k v); [done| |done].
  rewrite Hv at 1. rewrite Hv at 1. by rewrite <- filter_filter_same.
Qed.

Lemma make_order_dates (items : list RawItem) :
  map ship_date (order_shipments (make_order items))
  ≡ₚ map fst (group_by ri_ship_date items).
Proof.
  unfold make_order. cbn [order_shipments].
  rewrite sort_shipments_perm, map_map.
  destruct (group_by_grouped ri_ship_date items) as (_ & Hgroups & _).
  assert (map (fun x => ship_date (make_shipment (snd x)))
              (group_by ri_ship_date items)
          = map fst (group_by ri_ship_date items)) as ->; [|done].
  apply map_ext_in. intros [k v] Hin. simpl.
  destruct (Hgroups k v) as [Hv Hne]; [by apply list_elem_of_In|].
  apply make_shipment_date; [|done].
  rewrite Hv at 1. rewrite Hv at 1. by rewrite <- filter_filter_same.
Qed.

(** X15. The shipments of an order are one per distinct ship date, items
    without a date forming one shipment of their own: the ship dates of
    the shipments are pairwise different, each shipment holds exactly the
    order's rows of its date, in file order and at least one, its total is
    the sum of their totals, and every row's date has its shipment. *)
Theorem make_order_shipments (items : list RawItem) :
  NoDup (map ship_date (order_shipments (make_order items)))
  /\ (forall s, s ∈ order_shipments (make_order items) ->
        shipment_items s
        = map ship_item_of
              (filter (fun i => ri_ship_date i = ship_date s) items)
        /\ shipment_items s <> []
        /\ shipment_total s = Qsum (map si_total (shipment_items s)))
  /\ (forall i, i ∈ items ->
        exists s, s ∈ order_shipments (make_order items)
                  /\ ship_date s = ri_ship_date i).
Proof.
  destruct (group_by_grouped ri_ship_date items) as (Hnd & Hgroups & Hkeys).
  split; [by rewrite make_order_dates|]. split.
  - intros s Hs.
    destruct (make_order_groups items s Hs) as (v & -> & Hv & Hne).
    rewrite <- Hv. cbn [make_shipment shipment_items shipment_total].
    split; [done|]. split.
    + intros Hn. apply map_eq_nil in Hn. done.
    + by rewrite map_map.
  - intros i Hi.
    assert (ri_ship_date i ∈ map ship_date
                               (order_shipments (make_order items))) as Hd.
    { rewrite make_order_dates. by apply Hkeys. }
    apply list_elem_of_fmap in Hd as (s & Hs & Hin). by exists s.
Qed.

Lemma make_order_shipments_witness :
  exists s, s ∈ order_shipments (make_order GroceryScenario.raw_items)
            /\ ship_date s = Some 738894%Z.
Proof.
  apply (proj2 (proj2 (make_order_shipments GroceryScenario.raw_items))
           (GroceryScenario.raw "Milk" 4)).
  unfold GroceryScenario.raw_items. apply elem_of_cons. right.
  apply elem_of_cons. by left.
Defined.

(** ** The date match on loaded orders *)

Lemma nodup_map_split {A B} (f : A -> B) (pre post : list A) (s s2 : A) :
  NoDup (map f (pre ++ s :: post)) -> s2 ∈ post -> f s2 <> f s.
Proof.
  rewrite map_app. cbn [map]. intros Hnd Hin Heq.
  apply NoDup_app in Hnd as (_ & _ & Hnd).
  apply NoDup_cons in Hnd as [Hnot _]. apply Hnot.
  rewrite <- Heq. apply list_elem_of_fmap. by exists s2.
Qed.

(** X16. For an order as load_order_history builds it, the date match is
    the strictly closest shipment: every other shipment of the order that
    lies 0 to 7 days before the charge lies strictly further away, so the
    order of the shipments never decides the match. *)
Theorem match_by_date_strict (items : list RawItem) (charge_date : Z)
    (s s2 : Shipment) (k k2 : Z) :
  match_by_date charge_date (order_shipments (make_order items)) = Some s ->
  s2 ∈ order_shipments (make_order items) ->
  s2 <> s ->
  date_eligible charge_date s k ->
  date_eligible charge_date s2 k2 ->
  (k < k2)%Z.
Proof.
  intros Hm Hin Hne Hs Hs2.
  pose proof (match_by_date_inv charge_date
                (order_shipments (make_order items))) as Hinv.
  unfold match_by_date in Hm. unfold date_inv in Hinv.
  destruct (fold_left _ _ _) as [best bd]. cbn [fst snd] in Hm, Hinv.
  subst best.
  destruct Hinv as (pre & post & Heq & Hbd & Hpre & Hpost).
  rewrite (date_eligible_unique _ _ _ _ Hs Hbd).
  rewrite Heq in Hin.
  apply elem_of_app in Hin as [Hin|Hin]; [by eapply Hpre|].
  apply elem_of_cons in Hin as [->|Hin]; [done|].
  specialize (Hpost _ _ Hin Hs2).
  destruct (decide (bd = k2)) as [->|Hk]; [|lia].
  exfalso.
  assert (NoDup (map ship_date (pre ++ s :: post))) as Hnd.
  { rewrite <- Heq. rewrite make_order_dates.
    by destruct (group_by_grouped ri_ship_date items) as (? & _). }
  apply (nodup_map_split ship_date pre post s s2 Hnd Hin).
  destruct Hbd as (d & Hd & Hk1 & _). destruct Hs2 as (d2 & Hd2 & Hk2 & _).
  rewrite Hd, Hd2. f_equal. lia.
Qed.

Lemma match_by_date_strict_witness : (1 < 3)%Z.
Proof.
  eapply (match_by_date_strict TwoShipments.raw_items 738895).
  - vm_compute. reflexivity.
  - eapply (list_elem_of_lookup_2 _ 0%nat). vm_compute. reflexivity.
  - intros H. discriminate H.
  - exists 738894%Z. split; [reflexivity|]. split; [reflexivity|]. lia.
  - exists 738892%Z. split; [reflexivity|]. split; [reflexivity|]. lia.
Defined.

(** ** What a match can be *)

Lemma match_by_date_elem (charge_date : Z) (shipments : list Shipment)
    (s : Shipment) :
  match_by_date charge_date shipments = Some s -> s ∈ shipments.
Proof.
  pose proof (match_by_date_inv charge_date shipments) as Hinv.
  unfold match_by_date. unfold date_inv in Hinv.
  destruct (fold_left _ _ _) as [best bd]. cbn [fst snd] in *.
  intros ->. destruct Hinv as (pre & post & -> & _).
  apply elem_of_app. right. by left.
Qed.

(** X17. The four outcomes of matching a charge against an order. A
    matched shipment is always one of the order's shipments; it comes with
    its allocation exactly when its total is positive; a match without a
    shipment is a single item of the order within 1.00 of the charge; and
    nothing is matched only if no shipment differs from the charge by less
    than 999999 and no item lies within 1.00 of it. *)
Theorem match_charge_cases (charge_date : option Z) (amount : Q)
    (order : Order) :
  match match_charge charge_date amount order with
  | (Some s, Some l) =>
      s ∈ order_shipments order /\ 0 < shipment_total s
      /\ l = allocate (Qabs amount) s
  | (Some s, None) =>
      s ∈ order_shipments order /\ shipment_total s <= 0
  | (None, Some l) =>
      exists item, item ∈ order_items order
                   /\ within_dollar (oi_total item) amount = true
                   /\ l = [single_item_match item amount]
  | (None, None) =>
      (forall s, s ∈ order_shipments order ->
                 999999 <= amount_diff amount s)
      /\ (forall item, item ∈ order_items order ->
                       within_dollar (oi_total item) amount = false)
  end.
Proof.
  assert (forall s, s ∈ order_shipments order ->
            match (if Qltb 0 (shipment_total s)
                   then Some (allocate (Qabs amount) s) else None) with
            | Some l => s ∈ order_shipments order /\ 0 < shipment_total s
                        /\ l = allocate (Qabs amount) s
            | None => s ∈ order_shipments order /\ shipment_total s <= 0
            end) as Hship.
  { intros s Hs. destruct (Qltb 0 (shipment_total s)) eqn:E.
    - apply Qltb_lt in E. done.
    - apply Qltb_ge in E. done. }
  unfold match_charge.
  destruct (match charge_date with Some d => _ | None => None end)
    as [s1|] eqn:E1.
  { apply Hship. destruct charge_date as [d|]; [|done].
    by apply match_by_date_elem in E1. }
  destruct (match_by_amount _ _) as [s2|] eqn:E2.
  { apply Hship. apply find_some in E2 as [Hin _].
    by apply list_elem_of_In. }
  destruct (match_single_item _ _) as [item|] eqn:E3.
  { apply find_some in E3 as [Hin Hw]. exists item.
    split; [by apply list_elem_of_In|]. by split. }
  destruct (match_best_fit_spec amount (order_shipments order))
    as [Hnone Hsome].
  destruct (match_best_fit _ _) as [s4|] eqn:E4.
  - apply Hship. destruct (Hsome s4 eq_refl) as (pre & post & -> & _).
    apply elem_of_app. right. by left.
  - split; [by apply Hnone|].
    intros item Hin. by apply (find_none_elem _ _ item E3).
Qed.

(** ** One record per new charge *)

Lemma outcome_records (order_history : gmap pystr Order)
    (existing_ids : gset pystr) (row : Row) :
  (length (omap emitted [process_row order_history existing_ids row])
   + length (omap pending [process_row order_history existing_ids row]))%nat
  = if row_is_new existing_ids row then 1%nat else 0%nat.
Proof.
  unfold row_is_new. destruct (row_key row) as [k|] eqn:Hk.
  - destruct (decide (k ∈ existing_ids)) as [Hin|Hnew].
    + rewrite (process_row_cached _ _ _ k Hk Hin).
      by rewrite bool_decide_eq_true_2.
    + rewrite bool_decide_eq_false_2 by done. simpl.
      destruct (process_row_new order_history existing_ids row k Hk Hnew)
        as (txn & _ & [H|H]);
        destruct (process_row order_history existing_ids row);
        simpl in *; done.
  - by rewrite (process_row_no_key _ _ _ Hk).
Qed.

Lemma records_count (order_history : gmap pystr Order)
    (existing_ids : gset pystr) (rows : list Row) :
  (length (omap emitted (map (process_row order_history existing_ids) rows))
   + length (omap pending
               (map (process_row order_history existing_ids) rows)))%nat
  = length (filter (fun r => row_is_new existing_ids r = true) rows).
Proof.
  induction rows as [|row rows IH]; [done|].
  pose proof (outcome_records order_history existing_ids row) as Hr.
  rewrite filter_cons. cbn [map].
  change (?f row :: ?l) with ([f row] ++ l).
  rewrite !omap_app, !length_app.
  destruct (row_is_new existing_ids row); destruct (decide _); try done;
    simpl length at 5; lia.
Qed.

Lemma dict_set_nonempty {V} (d : list (pystr * V)) (k : pystr) (v : V) :
  dict_set d k v <> [].
Proof. destruct d as [|[k1 v1] d]; simpl; [done|]. by case_bool_decide. Qed.

Lemma items_to_categorize_grows (outs : list Outcome)
    (d : list (pystr * list pystr)) :
  d <> [] ->
  fold_left (fun d o =>
               match o with
               | Pending t base_items =>
                   dict_set d (default [] (txn_import_id t)) base_items
               | _ => d
               end) outs d <> [].
Proof.
  revert d. induction outs as [|o outs IH]; intros d Hd; [done|].
  simpl. apply IH. destruct o; try done. apply dict_set_nonempty.
Qed.

Lemma items_to_categorize_empty (outs : list Outcome) :
  items_to_categorize_of outs = [] -> omap pending outs = [].
Proof.
  unfold items_to_categorize_of.
  generalize (@nil (pystr * list pystr)) at 1.
  induction outs as [|o outs IH]; intros d; [done|].
  simpl. destruct o; try apply IH.
  intros Hf. exfalso. revert Hf.
  apply items_to_categorize_grows, dict_set_nonempty.
Qed.

(** X18. A run of main adds exactly one transaction to the cache list for
    every row whose key the loaded cache does not hold, and none for any
    other row (skipped or already cached); rows are not compared with one
    another, so a new charge listed twice is recorded twice. *)
Theorem main_one_record_per_new_row
    (client : nat -> Request -> Reply) (ynab_categories : list pystr)
    (order_history : gmap pystr Order) (batch : bool)
    (category_cache : CategoryCache) (transactions : list Txn)
    (rows : list Row) :
  length (run_transactions
            (main client ynab_categories order_history batch category_cache
                  transactions rows))
  = (length transactions
     + length (filter (fun r => row_is_new (existing_ids_of transactions) r
                                = true) rows))%nat.
Proof.
  rewrite <- records_count with (order_history := order_history).
  unfold main.
  destruct (items_to_categorize_of _) as [|e l] eqn:E.
  - apply items_to_categorize_empty in E. cbn [run_transactions].
    rewrite length_app, E. simpl. lia.
  - destruct batch; cbn [run_transactions];
      rewrite !length_app, ?length_map; lia.
Qed.

(** ** Batch custom ids *)

Lemma split_on_aux_plain (sep : N) (cur s : pystr) :
  Forall (fun c => c <> sep) s ->
  split_on_aux sep cur s = [rev cur ++ s].
Proof.
  revert cur. induction s as [|c s IH]; intros cur Hs; simpl.
  - by rewrite app_nil_r.
  - apply Forall_cons in Hs as [Hc Hs].
    rewrite (proj2 (N.eqb_neq c sep)) by done.
    rewrite IH by done. simpl. by rewrite <- app_assoc.
Qed.

Lemma split_on_aux_sep (sep : N) (cur s rest : pystr) :
  Forall (fun c => c <> sep) s ->
  split_on_aux sep cur (s ++ sep :: rest)
  = (rev cur ++ s) :: split_on_aux sep [] rest.
Proof.
  revert cur. induction s as [|c s IH]; intros cur Hs; simpl.
  - rewrite N.eqb_refl. by rewrite app_nil_r.
  - apply Forall_cons in Hs as [Hc Hs].
    rewrite (proj2 (N.eqb_neq c sep)) by done.
    rewrite IH by done. simpl. by rewrite <- app_assoc.
Qed.

Lemma replace_char_plain (a b : N) (s : pystr) :
  Forall (fun c => c <> a) s -> replace_char a b s = s.
Proof.
  unfold replace_char. induction 1 as [|c s Hc _ IH]; [done|].
  simpl. rewrite (proj2 (N.eqb_neq c a)) by done. by rewrite IH.
Qed.

Lemma replace_char_app (a b : N) (s t : pystr) :
  replace_char a b (s ++ t) = replace_char a b s ++ replace_char a b t.
Proof. unfold replace_char. apply map_app. Qed.

Lemma uint_digits_plain (u : Decimal.uint) :
  plain (py (NilEmpty.string_of_uint u)).
Proof.
  induction u; simpl; [constructor|..];
    (constructor; [by vm_compute|done]).
Qed.

Lemma of_Z_plain (n : Z) : (0 <= n)%Z -> plain (of_Z n).
Proof.
  intros Hn. unfold of_Z. destruct n as [|p|p]; [| |lia].
  - repeat constructor; by vm_compute.
  - cbn [Z.to_int NilZero.string_of_int]. unfold NilZero.string_of_uint.
    pose proof (uint_digits_plain (Pos.to_uint p)) as H.
    destruct (Pos.to_uint p); try exact H.
    repeat constructor; by vm_compute.
Qed.

Lemma py_int_nonneg (x : Q) : 0 <= x -> (0 <= py_int x)%Z.
Proof.
  intros Hx. unfold py_int. apply Z.quot_pos; [|done].
  unfold Qle in Hx. simpl in Hx. lia.
Qed.

Lemma plain_no (s : pystr) (c : N) :
  c = colon \/ c = underscore -> plain s -> Forall (fun x => x <> c) s.
Proof.
  intros Hc Hs. eapply Forall_impl; [exact Hs|].
  intros x [H1 H2]. by destruct Hc as [-> | ->].
Qed.

(** X19. The custom id of an import id holds no colon, and converting the
    custom id of a row's import id back gives the import id again, as long
    as the order id holds neither a colon nor an underscore (an Amazon
    order id holds digits and hyphens only). *)
Theorem custom_id_round_trip (order_id : pystr) (amount : Q) (row : Row) :
  plain order_id ->
  Forall (fun c => c <> colon)
         (import_id_to_custom_id (row_import_id order_id amount row))
  /\ custom_id_to_import_id
       (import_id_to_custom_id (row_import_id order_id amount row))
     = row_import_id order_id amount row.
Proof.
  intros Ho.
  assert (plain (of_Z (py_int (Qabs amount * 100)))) as Hd.
  { apply of_Z_plain, py_int_nonneg.
    apply Qmult_le_0_compat; [apply Qabs_nonneg | done]. }
  assert (plain (if has_inflow row then py "R" else py "P")) as Hr.
  { destruct (has_inflow row); repeat constructor; by vm_compute. }
  unfold row_import_id, make_import_id, import_id_to_custom_id.
  set (digits := of_Z _) in *. set (dir := if has_inflow row then _ else _) in *.
  assert (replace_char colon underscore
            (py "AMZ2:" ++ order_id ++ py ":" ++ digits ++ py ":" ++ dir)
          = py "AMZ2" ++ underscore :: order_id ++ underscore :: digits
            ++ underscore :: dir) as ->.
  { rewrite !replace_char_app.
    rewrite (replace_char_plain colon underscore order_id)
      by (apply plain_no; auto).
    rewrite (replace_char_plain colon underscore digits)
      by (apply plain_no; auto).
    rewrite (replace_char_plain colon underscore dir)
      by (apply plain_no; auto).
    reflexivity. }
  split.
  - apply Forall_app. split; [repeat constructor; by vm_compute|].
    constructor; [by vm_compute|].
    apply Forall_app. split; [apply plain_no; auto|].
    constructor; [by vm_compute|].
    apply Forall_app. split; [apply plain_no; auto|].
    constructor; [by vm_compute|]. apply plain_no; auto.
  - unfold custom_id_to_import_id, split_on.
    rewrite split_on_aux_sep by (repeat constructor; by vm_compute).
    rewrite split_on_aux_sep by (apply plain_no; auto).
    rewrite split_on_aux_sep by (apply plain_no; auto).
    rewrite split_on_aux_plain by (apply plain_no; auto).
    reflexivity.
Qed.

Lemma custom_id_round_trip_witness :
  custom_id_to_import_id
    (import_id_to_custom_id
       (row_import_id AllocationScenario.order_id (- 140)
                      (AllocationScenario.row_of 140)))
  = row_import_id AllocationScenario.order_id (- 140)
                  (AllocationScenario.row_of 140).
Proof.
  apply custom_id_round_trip.
  repeat (constructor; [by vm_compute|]). constructor.
Defined.

(** ** When an update is queued *)

Local Open Scope Z_scope.

Lemma memos_differ_agree (local_subs : list SubTxn)
    (ynab_subs : list RemoteSub) :
  length local_subs = length ynab_subs ->
  memos_differ local_subs ynab_subs = false
  <-> Forall2 memo_agree local_subs ynab_subs.
Proof.
  revert ynab_subs. induction local_subs as [|l ls IH];
    intros [|r rs] Hlen; simpl in *; try lia.
  - split; [constructor|reflexivity].
  - rewrite orb_false_iff, negb_false_iff, IH by lia.
    unfold eqb. rewrite bool_decide_eq_true. split.
    + intros [? ?]. by constructor.
    + intros H. by inversion H.
Qed.

(** X20. subtransactions_differ answers "no" exactly when the local and
    the ledger's subtransactions are equally many and agree pairwise on the
    first 50 characters of their memos; amounts and categories are not
    compared, so a change of category or amount alone queues no update. *)
Theorem subtransactions_differ_memos (local_subs : list SubTxn)
    (ynab_subs : list RemoteSub) :
  subtransactions_differ local_subs ynab_subs = false
  <-> Forall2 memo_agree local_subs ynab_subs.
Proof.
  unfold subtransactions_differ.
  destruct local_subs as [|l ls], ynab_subs as [|r rs].
  - split; [constructor|reflexivity].
  - split; [discriminate|]. intros H. inversion H.
  - split; [discriminate|]. intros H. inversion H.
  - destruct (length (l :: ls) =? length (r :: rs))%nat eqn:E; cbn [negb].
    + apply Nat.eqb_eq in E. by apply memos_differ_agree.
    + apply Nat.eqb_neq in E. split; [done|].
      intros H. apply Forall2_length in H. done.
Qed.

(** ** The category mapping *)

Lemma lower_char_idemp (c : N) : lower_char (lower_char c) = lower_char c.
Proof.
  unfold lower_char. destruct (is_upper c) eqn:Hu; [|by rewrite Hu].
  unfold is_upper in *. apply andb_true_iff in Hu as [H1 H2].
  apply N.leb_le in H1, H2.
  destruct ((65 <=? c + 32)%N && (c + 32 <=? 90)%N) eqn:E; [|done].
  apply andb_true_iff in E as [H3 H4]. apply N.leb_le in H3, H4. lia.
Qed.

Lemma lower_idemp (s : pystr) : lower (lower s) = lower s.
Proof.
  unfold lower. rewrite map_map. apply map_ext. apply lower_char_idemp.
Qed.

Lemma mapping_get_dict_set (d : list (pystr * pystr)) (k v k2 : pystr) :
  mapping_get (dict_set d k v) k2
  = if bool_decide (k2 = k) then Some v else mapping_get d k2.
Proof.
  unfold mapping_get, eqb.
  induction d as [|[k' v'] d IH]; simpl.
  - repeat case_bool_decide; by subst.
  - destruct (decide (k' = k)) as [Hk|Hk].
    + rewrite (bool_decide_eq_true_2 (k' = k)) by done. simpl. subst k'.
      repeat case_bool_decide; by subst.
    + rewrite (bool_decide_eq_false_2 (k' = k)) by done. simpl.
      destruct (decide (k' = k2)) as [E2|E2].
      * rewrite (bool_decide_eq_true_2 (k' = k2)) by done. subst k2.
        by rewrite (bool_decide_eq_false_2 (k' = k)).
      * rewrite (bool_decide_eq_false_2 (k' = k2)) by done. exact IH.
Qed.

Lemma mapping_get_elem (m : list (pystr * pystr)) (k v : pystr) :
  mapping_get m k = Some v -> (k, v) ∈ m.
Proof.
  unfold mapping_get. destruct (find _ m) as [[k' v']|] eqn:E; [|done].
  simpl. intros [= ->]. apply find_some in E as [Hin Hk].
  unfold eqb in Hk. apply bool_decide_eq_true in Hk. simpl in Hk. subst k'.
  by apply list_elem_of_In.
Qed.

Lemma find_category_id_elem (name : pystr) (m : list (pystr * pystr))
    (v : pystr) :
  find_category_id name m = Some v -> exists k, (k, v) ∈ m.
Proof.
  unfold find_category_id. case_bool_decide; [done|].
  destruct (mapping_get m name) as [v1|] eqn:E1.
  { intros [= ->]. eexists. by apply mapping_get_elem. }
  destruct (mapping_get m (lower name)) as [v2|] eqn:E2.
  { intros [= ->]. eexists. by apply mapping_get_elem. }
  destruct (find _ m) as [[k' v']|] eqn:E3; [|done].
  simpl. intros [= ->]. apply find_some in E3 as [Hin _].
  exists k'. by apply list_elem_of_In.
Qed.

Section CategoryMapping.

Variable all_categories : list Category.

Lemma dict_set_from (d : list (pystr * pystr)) (k v : pystr) :
  Forall (from_category all_categories) d -> (from_category all_categories) (k, v) ->
  Forall (from_category all_categories) (dict_set d k v).
Proof.
  intros Hd Hkv. induction Hd as [|[k' v'] d Hx Hd IH]; simpl.
  - by constructor.
  - case_bool_decide.
    + subst k'. by constructor.
    + by constructor.
Qed.

Lemma mapping_fold_from (l : list Category) (m : list (pystr * pystr)) :
  (forall c, c ∈ l -> c ∈ all_categories /\ included c) ->
  Forall (from_category all_categories) m ->
  Forall (from_category all_categories)
    (fold_left (fun mapping cat =>
                  dict_set (dict_set mapping (cat_name cat) (cat_id cat))
                           (lower (cat_name cat)) (cat_id cat)) l m).
Proof.
  revert m. induction l as [|c l IH]; intros m Hl Hm; [done|]. simpl.
  destruct (Hl c) as [Hin Hinc]; [by left|].
  apply IH; [intros c2 H2; apply Hl; by right|].
  apply dict_set_from; [apply dict_set_from|];
    [done|exists c; simpl; auto|exists c; simpl; auto].
Qed.

Lemma mapping_fold_keys (l : list Category) (m : list (pystr * pystr))
    (k : pystr) :
  is_Some (mapping_get m k)
  \/ (exists c, c ∈ l /\ (k = cat_name c \/ k = lower (cat_name c))) ->
  is_Some (mapping_get
    (fold_left (fun mapping cat =>
                  dict_set (dict_set mapping (cat_name cat) (cat_id cat))
                           (lower (cat_name cat)) (cat_id cat)) l m) k).
Proof.
  revert m. induction l as [|c l IH]; intros m H; simpl.
  - destruct H as [H|(c & Hc & _)]; [done|]. by apply elem_of_nil in Hc.
  - apply IH. rewrite !mapping_get_dict_set.
    destruct H as [H|(c2 & Hc2 & Hk)].
    + left. repeat case_bool_decide; eauto.
    + apply elem_of_cons in Hc2 as [->|Hc2]; [|right; eauto].
      left. destruct Hk as [->| ->]; repeat case_bool_decide; eauto; done.
Qed.

Lemma mapping_from : Forall (from_category all_categories) (get_category_mapping all_categories).
Proof.
  unfold get_category_mapping. apply mapping_fold_from; [|constructor].
  intros c Hc. by apply list_elem_of_filter in Hc as [? ?].
Qed.

End CategoryMapping.

(** X21. Against the mapping get_category_mapping builds, find_category_id
    (a) only ever answers with the id of a category whose group is not
    excluded, (b) for a name and kept category names that are text of ASCII
    characters and emoji, resolves a name that equals, up to letter case,
    the name of such a category to that category's id when no other kept
    category with the same lower-cased name has another id, and (c) answers
    None for the empty name. *)
Theorem find_category_id_mapping (all_categories : list Category) :
  let mapping := get_category_mapping all_categories in
  (forall name id, find_category_id name mapping = Some id ->
     exists c, c ∈ all_categories /\ included c /\ cat_id c = id)
  /\ (forall c name,
        simple_text name ->
        (forall c2, c2 ∈ all_categories -> included c2 ->
                    simple_text (cat_name c2)) ->
        c ∈ all_categories -> included c -> cat_name c <> [] ->
        lower name = lower (cat_name c) ->
        (forall c2, c2 ∈ all_categories -> included c2 ->
                    lower (cat_name c2) = lower (cat_name c) ->
                    cat_id c2 = cat_id c) ->
        find_category_id name mapping = Some (cat_id c))
  /\ find_category_id [] mapping = None.
Proof.
  intros mapping. pose proof (mapping_from all_categories) as Hfrom.
  fold mapping in Hfrom. rewrite Forall_forall in Hfrom.
  split; [|split; [|done]].
  - intros name id H. apply find_category_id_elem in H as [k Hk].
    destruct (Hfrom _ Hk) as (c & Hc & Hinc & Hid & _). simpl in Hid.
    by exists c.
  - intros c name _ _ Hc Hinc Hne Hlow Huniq.
    assert (name <> []) as Hname.
    { intros ->. destruct (cat_name c); [done|discriminate]. }
    assert (forall k v, lower k = lower name -> mapping_get mapping k = Some v
                        -> v = cat_id c) as Hval.
    { intros k v Hk Hget. apply mapping_get_elem in Hget.
      destruct (Hfrom _ Hget) as (c2 & Hc2 & Hinc2 & Hid & Hkey).
      simpl in Hid, Hkey. rewrite Hid. apply Huniq; [done..|].
      rewrite <- Hlow, <- Hk.
      destruct Hkey as [->| ->]; [done|by rewrite lower_idemp]. }
    assert (is_Some (mapping_get mapping (lower name))) as [v2 Hv2].
    { apply mapping_fold_keys. right. exists c. split; [|by right; auto].
      by apply list_elem_of_filter. }
    unfold find_category_id. rewrite bool_decide_eq_false_2 by done.
    destruct (mapping_get mapping name) as [v1|] eqn:E1.
    + f_equal. by apply (Hval name).
    + rewrite Hv2. f_equal. apply (Hval (lower name)); [|done].
      apply lower_idemp.
Qed.

(** ** The subtransactions sent to the ledger *)

Lemma adjust_last_memo (d : Z) (l : list SubTxn) :
  map sub_memo (adjust_last d l) = map sub_memo l.
Proof.
  induction l as [|s [|s2 r] IH]; [done..|].
  change (adjust_last d (s :: s2 :: r)) with (s :: adjust_last d (s2 :: r)).
  change (map sub_memo (s :: ?x)) with (sub_memo s :: map sub_memo x).
  cbn [map] in *. by rewrite IH.
Qed.

Lemma adjust_last_category (d : Z) (l : list SubTxn) :
  map sub_category_id (adjust_last d l) = map sub_category_id l.
Proof.
  induction l as [|s [|s2 r] IH]; [done..|].
  change (adjust_last d (s :: s2 :: r)) with (s :: adjust_last d (s2 :: r)).
  cbn [map] in *. by rewrite IH.
Qed.

Lemma adjust_last_amounts (d : Z) (l : list SubTxn) :
  removelast (map sub_amount (adjust_last d l))
  = removelast (map sub_amount l).
Proof.
  induction l as [|s [|s2 r] IH]; [done..|].
  change (adjust_last d (s :: s2 :: r)) with (s :: adjust_last d (s2 :: r)).
  change (map sub_amount (s :: ?x)) with (sub_amount s :: map sub_amount x).
  change (map sub_amount (s :: s2 :: r))
    with (sub_amount s :: map sub_amount (s2 :: r)).
  assert (forall (a : Z) x, x <> [] ->
            removelast (a :: x) = a :: removelast x) as Hrl.
  { intros a [|? ?]; [done|reflexivity]. }
  rewrite !Hrl; [by rewrite IH|done|].
  destruct r; simpl; done.
Qed.

(** X22. build_subtransactions answers None exactly for a transaction
    without splits; otherwise it answers one subtransaction per split, in
    order, with the split's memo cut to 200 characters and the split's
    category resolved by find_category_id, and every amount but the last is
    the split's amount in milliunits: the rounding fix touches only the
    last one. *)
Theorem build_subtransactions_shape (txn : Txn)
    (cat_mapping : list (pystr * pystr)) :
  match build_subtransactions txn cat_mapping with
  | None => txn_splits txn = []
  | Some subs =>
      txn_splits txn <> []
      /\ map sub_memo subs
         = map (fun split => prefix 200 (split_memo split)) (txn_splits txn)
      /\ map sub_category_id subs
         = map (fun split => find_category_id (split_category split)
                                              cat_mapping)
               (txn_splits txn)
      /\ removelast (map sub_amount subs)
         = removelast (map (fun split => milliunits (split_amount split))
                           (txn_splits txn))
  end.
Proof.
  unfold build_subtransactions.
  destruct (txn_splits txn) as [|s0 rest] eqn:Hs; [done|].
  split; [done|].
  set (splits := s0 :: rest).
  set (subs := map _ splits).
  assert (map sub_memo subs
          = map (fun split => prefix 200 (split_memo split)) splits) as Hm.
  { unfold subs. rewrite map_map. by apply map_ext. }
  assert (map sub_category_id subs
          = map (fun split => find_category_id (split_category split)
                                               cat_mapping) splits) as Hc.
  { unfold subs. rewrite map_map. by apply map_ext. }
  assert (map sub_amount subs
          = map (fun split => milliunits (split_amount split)) splits) as Ha.
  { unfold subs. rewrite map_map. by apply map_ext. }
  destruct (_ =? 0).
  - by rewrite Hm, Hc, Ha.
  - by rewrite adjust_last_memo, adjust_last_category, adjust_last_amounts,
               Hm, Hc, Ha.
Qed.

(** ** The whole sync run *)

Local Open Scope nat_scope.

Lemma chunks_of_concat {A} (fuel n : nat) (l : list A) :
  length l <= fuel -> 0 < n ->
  concat (chunks_of fuel n l) = l /\ Forall (fun b => b <> []) (chunks_of fuel n l).
Proof.
  intros Hlen Hn. revert l Hlen.
  induction fuel as [|f IH]; intros l Hlen.
  - destruct l; [by split|simpl in Hlen; lia].
  - destruct l as [|x l]; [by split|].
    cbn [chunks_of].
    destruct (IH (skipn n (x :: l))) as [Hc Hne].
    { rewrite length_skipn. simpl in *. lia. }
    split.
    + cbn [concat]. rewrite Hc. apply firstn_skipn.
    + constructor; [|done]. destruct n; [lia|done].
Qed.

Lemma count_actions_cons (p : SyncAction -> bool) (t : Txn) (a : SyncAction)
    (actions : list (Txn * SyncAction)) :
  count_actions p ((t, a) :: actions)
  = (if p a then 1 else 0) + count_actions p actions.
Proof.
  unfold count_actions. rewrite filter_cons. cbn [snd].
  destruct (p a); [rewrite decide_True by done|rewrite decide_False by done];
    done.
Qed.

Lemma creates_of_cons (t : Txn) (a : SyncAction)
    (actions : list (Txn * SyncAction)) :
  creates_of ((t, a) :: actions)
  = if is_create a then t :: creates_of actions else creates_of actions.
Proof.
  unfold creates_of. rewrite filter_cons. cbn [snd].
  destruct (is_create a);
    [rewrite decide_True by done|rewrite decide_False by done]; done.
Qed.

Lemma creates_of_elem (t : Txn) (actions : list (Txn * SyncAction)) :
  t ∈ creates_of actions
  <-> exists subs, (t, SyncCreate subs) ∈ actions.
Proof.
  induction actions as [|[t2 a] actions IH].
  - split; [intros H; by apply elem_of_nil in H|].
    intros [? H]. by apply elem_of_nil in H.
  - rewrite creates_of_cons.
    assert ((exists subs, (t, SyncCreate subs) ∈ (t2, a) :: actions)
            <-> (t = t2 /\ is_create a = true)
                \/ exists subs, (t, SyncCreate subs) ∈ actions) as ->.
    { split.
      - intros [subs H]. apply elem_of_cons in H as [H|H].
        + injection H as -> <-. by left.
        + right. eauto.
      - intros [[-> Ha]|[subs H]].
        + destruct a; try done. eexists. apply elem_of_cons. by left.
        + exists subs. apply elem_of_cons. by right. }
    rewrite <- IH. destruct (is_create a).
    + rewrite elem_of_cons.
      split; [intros [->|H]; auto|intros [[-> _]|H]; auto].
    + split; [auto|intros [[_ ?]|H]; [done|auto]].
Qed.

Lemma updates_of_cons (t : Txn) (a : SyncAction)
    (actions : list (Txn * SyncAction)) :
  length (updates_of ((t, a) :: actions))
  = (match a with SyncUpdate _ _ => 1 | _ => 0 end)
    + length (updates_of actions).
Proof. unfold updates_of. simpl. by destruct a. Qed.

Lemma updates_of_elem (e : Txn * pystr * list SubTxn)
    (actions : list (Txn * SyncAction)) :
  e ∈ updates_of actions
  <-> (e.1.1, SyncUpdate e.1.2 e.2) ∈ actions.
Proof.
  unfold updates_of. rewrite list_elem_of_omap. split.
  - intros [[t a] [Hin Ha]]. cbn [fst snd] in Ha.
    destruct a; try done. injection Ha as <-. done.
  - intros H. eexists. split; [exact H|]. by destruct e as [[? ?] ?].
Qed.

Section FirstPassFacts.

Variable cat_mapping : list (pystr * pystr).
Variable existing_txns : gmap pystr RemoteTxn.
Variable cutoff_date : pystr.

Lemma sync_action_ignored (synced : gset pystr) (txn : Txn) :
  sync_action cat_mapping existing_txns cutoff_date synced txn = Ignored
  <-> has_import_id txn = false.
Proof.
  unfold sync_action, has_import_id.
  destruct (txn_import_id txn) as [[|c r]|]; [done| |done].
  split; [|done].
  destruct (str_ltb _ _); [done|]. destruct (_ && _); [done|].
  destruct (existing_txns !! _); [|done].
  destruct (build_subtransactions _ _) as [[|? ?]|];
    [|destruct (subtransactions_differ _ _)|];
    try case_bool_decide; done.
Qed.

(** What a decision other than "ignored" tells about the transaction. *)
Lemma sync_action_cases (synced : gset pystr) (txn : Txn) (k : pystr) :
  txn_import_id txn = Some k ->
  match sync_action cat_mapping existing_txns cutoff_date synced txn with
  | Ignored => k = []
  | SyncSkipped => str_ltb (txn_date txn) cutoff_date = true \/ k ∈ synced
  | SyncDuplicate => (k ∉ synced) /\ is_Some (existing_txns !! k)
  | SyncUpdate _ _ => is_Some (existing_txns !! k)
  | SyncCreate _ =>
      str_ltb (txn_date txn) cutoff_date = false /\ (k ∉ synced)
      /\ existing_txns !! k = None
  end.
Proof.
  intros Hid. unfold sync_action. rewrite Hid.
  destruct k as [|c r]; [done|].
  destruct (str_ltb _ _); [by left|].
  destruct (existing_txns !! (c :: r)) as [remote|] eqn:Hex.
  - rewrite (bool_decide_eq_false_2 (Some remote = None)) by done.
    rewrite andb_false_r.
    destruct (build_subtransactions _ _) as [[|? ?]|];
      [|destruct (subtransactions_differ _ _)|];
      try case_bool_decide; eauto.
  - rewrite (bool_decide_eq_true_2 (None = None)) by done.
    rewrite andb_true_r. case_bool_decide; [by right|done].
Qed.

Lemma first_pass_partition (synced : gset pystr) (transactions : list Txn) :
  count_actions is_skipped
    (fst (first_pass cat_mapping existing_txns cutoff_date synced
                     transactions))
  + count_actions is_duplicate
      (fst (first_pass cat_mapping existing_txns cutoff_date synced
                       transactions))
  + length (updates_of
      (fst (first_pass cat_mapping existing_txns cutoff_date synced
                       transactions)))
  + length (creates_of
      (fst (first_pass cat_mapping existing_txns cutoff_date synced
                       transactions)))
  = length (filter (fun t => has_import_id t = true) transactions).
Proof.
  revert synced. induction transactions as [|t l IH]; intros synced; [done|].
  cbn [first_pass].
  match goal with
  | |- context [first_pass _ _ _ ?s l] => specialize (IH s);
      destruct (first_pass cat_mapping existing_txns cutoff_date s l)
        as [actions final]
  end.
  cbn [fst] in *.
  rewrite !count_actions_cons, creates_of_cons, updates_of_cons, filter_cons.
  pose proof (sync_action_ignored synced t) as Hign.
  destruct (has_import_id t).
  - rewrite decide_True by done.
    destruct (sync_action _ _ _ synced t);
      [destruct Hign as [Hign _]; by specialize (Hign eq_refl)|..];
      cbn [is_skipped is_duplicate is_create length]; lia.
  - rewrite decide_False by done.
    destruct Hign as [_ Hign]. rewrite (Hign eq_refl).
    cbn [is_skipped is_duplicate is_create]. lia.
Qed.

Lemma first_pass_subseteq (synced : gset pystr) (transactions : list Txn) :
  synced ⊆ snd (first_pass cat_mapping existing_txns cutoff_date synced
                           transactions).
Proof.
  revert synced. induction transactions as [|t l IH]; intros synced; [done|].
  cbn [first_pass].
  match goal with
  | |- context [first_pass _ _ _ ?s l] => specialize (IH s);
      destruct (first_pass cat_mapping existing_txns cutoff_date s l)
        as [actions final]
  end.
  cbn [snd] in *. etrans; [|exact IH].
  destruct (sync_action _ _ _ synced t); try done.
  destruct (txn_import_id t); [|done]. set_solver.
Qed.

Lemma first_pass_fst (synced : gset pystr) (transactions : list Txn) :
  map fst (fst (first_pass cat_mapping existing_txns cutoff_date synced
                           transactions)) = transactions.
Proof.
  revert synced. induction transactions as [|t l IH]; intros synced; [done|].
  cbn [first_pass].
  match goal with
  | |- context [first_pass _ _ _ ?s l] => specialize (IH s);
      destruct (first_pass cat_mapping existing_txns cutoff_date s l)
        as [actions final]
  end.
  cbn [fst map] in *. by rewrite IH.
Qed.

(** Every decision of the first pass is sync_action at some stage of the
    growing [synced] set, and a duplicate's key is in the final set. *)
Lemma first_pass_elem (synced : gset pystr) (transactions : list Txn)
    (txn : Txn) (a : SyncAction) :
  (txn, a) ∈ fst (first_pass cat_mapping existing_txns cutoff_date synced
                             transactions) ->
  exists seen,
    synced ⊆ seen
    /\ seen ⊆ snd (first_pass cat_mapping existing_txns cutoff_date synced
                              transactions)
    /\ a = sync_action cat_mapping existing_txns cutoff_date seen txn
    /\ (a = SyncDuplicate ->
        import_id_of txn
          ∈ snd (first_pass cat_mapping existing_txns cutoff_date synced
                            transactions)).
Proof.
  revert synced. induction transactions as [|t l IH]; intros synced.
  - intros H. by apply elem_of_nil in H.
  - pose proof (first_pass_subseteq synced (t :: l)) as Hmono.
    cbn [first_pass] in *.
    match goal with
    | |- context [first_pass _ _ _ ?s l] =>
        pose proof (first_pass_subseteq s l) as Hsub;
        assert (synced ⊆ s) as Hstep;
        [|specialize (IH s);
          destruct (first_pass cat_mapping existing_txns cutoff_date s l)
            as [actions final]]
    end.
    { destruct (sync_action _ _ _ synced t); try done.
      destruct (txn_import_id t); [|done]. set_solver. }
    cbn [fst snd] in *. intros H.
    apply elem_of_cons in H as [[= -> ->]|H].
    + exists synced. split; [done|]. split; [done|]. split; [done|].
      intros Hd. rewrite Hd in Hsub. unfold import_id_of.
      destruct (txn_import_id t) as [k|] eqn:Hid.
      * simpl. set_solver.
      * unfold sync_action in Hd. by rewrite Hid in Hd.
    + destruct (IH H) as (seen & H1 & H2 & H3 & H4).
      exists seen. split; [|done]. by etrans.
Qed.

(** No transaction queued for creation is old, synced or in the ledger. *)
Lemma to_create_new (synced : gset pystr) (transactions : list Txn)
    (txn : Txn) :
  txn ∈ (to_create cat_mapping existing_txns cutoff_date synced
                   transactions) ->
  txn ∈ transactions
  /\ exists k, txn_import_id txn = Some k /\ k <> []
               /\ str_ltb (txn_date txn) cutoff_date = false
               /\ (k ∉ synced).
Proof.
  intros H. change (txn ∈ creates_of
    (fst (first_pass cat_mapping existing_txns cutoff_date synced
                     transactions))) in H.
  apply creates_of_elem in H as [subs H].
  split.
  - rewrite <- (first_pass_fst synced transactions).
    apply list_elem_of_In, in_map_iff. exists (txn, SyncCreate subs).
    split; [done|]. by apply list_elem_of_In.
  - apply first_pass_elem in H as (seen & Hsub & _ & Ha & _).
    destruct (txn_import_id txn) as [k|] eqn:Hid.
    + pose proof (sync_action_cases seen txn k Hid) as Hc.
      rewrite <- Ha in Hc. destruct Hc as (Hd & Hns & _).
      exists k. split; [done|]. split; [|split; [done|set_solver]].
      intros ->. unfold sync_action in Ha. by rewrite Hid in Ha.
    + unfold sync_action in Ha. by rewrite Hid in Ha.
Qed.

End FirstPassFacts.

Section SyncRunFacts.

Variable update_ok : nat -> bool.
Variable create_reply : nat -> BatchReply.

Lemma update_pass_facts (n : nat) (l : list (Txn * pystr * list SubTxn))
    (stats : SyncStats) (synced : gset pystr) :
  stats_total (fst (update_pass update_ok n l stats synced))
  = stats_total stats + length l
  /\ failed stats <= failed (fst (update_pass update_ok n l stats synced))
  /\ synced ⊆ snd (update_pass update_ok n l stats synced)
  /\ (failed (fst (update_pass update_ok n l stats synced)) = failed stats ->
      forall e, e ∈ l ->
                import_id_of e.1.1
                  ∈ snd (update_pass update_ok n l stats synced))
  /\ (forall k, k ∈ snd (update_pass update_ok n l stats synced) ->
                k ∈ synced \/ exists e, e ∈ l /\ import_id_of e.1.1 = k).
Proof.
  revert n stats synced. induction l as [|[[t tid] subs] l IH];
    intros n stats synced.
  - simpl. split; [unfold stats_total; lia|]. split; [lia|].
    split; [done|]. split; [|by left].
    intros _ e He. by apply elem_of_nil in He.
  - cbn [update_pass]. destruct (update_ok n).
    + destruct (IH (S n) (add_updated 1 stats)
                   ({[ import_id_of t ]} ∪ synced))
        as (H1 & H2 & H3 & H4 & H5).
      split; [rewrite H1; unfold stats_total; simpl; lia|].
      split; [exact H2|].
      split; [etrans; [apply union_subseteq_r|exact H3]|]. split.
      * intros Hf e He. apply elem_of_cons in He as [->|He].
        -- simpl. eapply elem_of_weaken; [|exact H3].
           by apply elem_of_union_l, elem_of_singleton.
        -- by apply H4.
      * intros k Hk. destruct (H5 k Hk) as [Hs|(e & He & Hid)].
        -- apply elem_of_union in Hs as [Hs|Hs]; [|by left].
           apply elem_of_singleton in Hs. right.
           exists (t, tid, subs). split; [by left|done].
        -- right. exists e. split; [by right|done].
    + destruct (IH (S n) (add_failed 1 stats) synced)
        as (H1 & H2 & H3 & H4 & H5).
      split; [rewrite H1; unfold stats_total; simpl; lia|].
      simpl in H2. split; [lia|]. split; [done|]. split; [lia|].
      intros k Hk. destruct (H5 k Hk) as [Hs|(e & He & Hid)]; [by left|].
      right. exists e. split; [by right|done].
Qed.

(** A loop that counts one more for every transaction of a batch and adds
    the transaction's key. *)
Lemma batch_fold_facts (f : Txn -> SyncStats -> SyncStats)
    (batch : list Txn) (stats : SyncStats) (synced : gset pystr) :
  (forall t s, stats_total (f t s) = S (stats_total s)
               /\ failed (f t s) = failed s) ->
  let r := fold_left (fun st txn => (f txn (fst st),
                                     {[ import_id_of txn ]} ∪ snd st))
                     batch (stats, synced) in
  stats_total (fst r) = stats_total stats + length batch
  /\ failed (fst r) = failed stats
  /\ snd r = list_to_set (map import_id_of batch) ∪ synced.
Proof.
  intros Hf. revert stats synced.
  induction batch as [|t batch IH]; intros stats synced; simpl.
  - split; [lia|]. split; [done|]. by rewrite (left_id_L ∅ (∪)).
  - destruct (IH (f t stats) ({[ import_id_of t ]} ∪ synced))
      as (H1 & H2 & H3).
    destruct (Hf t stats) as [Ht Hfl].
    split; [rewrite H1, Ht; lia|]. split; [by rewrite H2|].
    rewrite H3. set_unfold. intros x. tauto.
Qed.

Lemma create_batch_facts (reply : BatchReply) (batch : list Txn)
    (stats : SyncStats) (synced : gset pystr) :
  stats_total (fst (create_batch reply batch stats synced))
  = stats_total stats + length batch
  /\ failed stats <= failed (fst (create_batch reply batch stats synced))
  /\ synced ⊆ snd (create_batch reply batch stats synced)
  /\ (batch <> [] ->
      failed (fst (create_batch reply batch stats synced)) = failed stats ->
      forall t, t ∈ batch ->
                import_id_of t ∈ snd (create_batch reply batch stats synced))
  /\ (forall k, k ∈ snd (create_batch reply batch stats synced) ->
                k ∈ synced \/ exists t, t ∈ batch /\ import_id_of t = k).
Proof.
  assert (forall k : pystr,
            k ∈ (list_to_set (map import_id_of batch) : gset pystr) <->
            exists t, t ∈ batch /\ import_id_of t = k) as Hset.
  { intros k. rewrite elem_of_list_to_set.
    change (map import_id_of batch) with (import_id_of <$> batch).
    rewrite list_elem_of_fmap.
    split; intros (t & H1 & H2); exists t; by split. }
  assert (forall f : Txn -> SyncStats -> SyncStats,
            (forall t s, stats_total (f t s) = S (stats_total s)
                         /\ failed (f t s) = failed s) ->
            let r := fold_left (fun st txn => (f txn (fst st),
                                   {[ import_id_of txn ]} ∪ snd st))
                               batch (stats, synced) in
            stats_total (fst r) = stats_total stats + length batch
            /\ failed stats <= failed (fst r)
            /\ synced ⊆ snd r
            /\ (batch <> [] -> failed (fst r) = failed stats ->
                forall t, t ∈ batch -> import_id_of t ∈ snd r)
            /\ (forall k, k ∈ snd r ->
                  k ∈ synced \/ exists t, t ∈ batch /\ import_id_of t = k))
    as Hok.
  { intros f Hf r.
    destruct (batch_fold_facts f batch stats synced Hf) as (H1 & H2 & H3).
    fold r in H1, H2, H3.
    split; [done|]. split; [lia|]. rewrite H3.
    split; [apply union_subseteq_r|]. split.
    - intros _ _ t Ht. apply elem_of_union_l, Hset. eauto.
    - intros k Hk. apply elem_of_union in Hk as [Hk|Hk]; [|by left].
      right. by apply Hset. }
  assert (let r := (add_failed (length batch) stats, synced) in
          stats_total (fst r) = stats_total stats + length batch
          /\ failed stats <= failed (fst r)
          /\ synced ⊆ snd r
          /\ (batch <> [] -> failed (fst r) = failed stats ->
              forall t, t ∈ batch -> import_id_of t ∈ snd r)
          /\ (forall k, k ∈ snd r ->
                k ∈ synced \/ exists t, t ∈ batch /\ import_id_of t = k))
    as Hfail.
  { simpl. split; [unfold stats_total; simpl; lia|]. split; [lia|].
    split; [done|]. split; [|by left].
    intros Hne Hf. destruct batch; [done|]. simpl in Hf. lia. }
  destruct reply as [duplicates|[|]|]; cbn [create_batch].
  - apply (Hok (fun txn s =>
              if bool_decide (import_id_of txn ∈ duplicates)
              then add_duplicate 1 s else add_created 1 s)).
    intros t s. case_bool_decide; unfold stats_total; simpl; lia.
  - apply (Hok (fun _ s => add_created 1 s)).
    intros t s. unfold stats_total; simpl; lia.
  - exact Hfail.
  - exact Hfail.
Qed.

Lemma create_pass_facts (n : nat) (batches : list (list Txn))
    (stats : SyncStats) (synced : gset pystr) :
  stats_total (fst (create_pass create_reply n batches stats synced))
  = stats_total stats + length (concat batches)
  /\ failed stats
     <= failed (fst (create_pass create_reply n batches stats synced))
  /\ synced ⊆ snd (create_pass create_reply n batches stats synced)
  /\ (Forall (fun b => b <> []) batches ->
      failed (fst (create_pass create_reply n batches stats synced))
      = failed stats ->
      forall t, t ∈ concat batches ->
                import_id_of t
                  ∈ snd (create_pass create_reply n batches stats synced))
  /\ (forall k, k ∈ snd (create_pass create_reply n batches stats synced) ->
                k ∈ synced
                \/ exists t, t ∈ concat batches /\ import_id_of t = k).
Proof.
  revert n stats synced. induction batches as [|b batches IH];
    intros n stats synced.
  - simpl. split; [lia|]. split; [lia|]. split; [done|].
    split; [|by left]. intros _ _ t Ht. by apply elem_of_nil in Ht.
  - cbn [create_pass concat].
    destruct (create_batch_facts (create_reply n) b stats synced)
      as (B1 & B2 & B3 & B4 & B5).
    destruct (create_batch (create_reply n) b stats synced)
      as [stats1 synced1].
    cbn [fst snd] in *.
    destruct (IH (S n) stats1 synced1) as (H1 & H2 & H3 & H4 & H5).
    split; [rewrite H1, B1, length_app; lia|].
    split; [lia|]. split; [by etrans|]. split.
    + intros Hne Hf. apply Forall_cons in Hne as [Hb Hne].
      intros t Ht. apply elem_of_app in Ht as [Ht|Ht].
      * apply H3. apply B4; [done|lia|done].
      * apply H4; [done|lia|done].
    + intros k Hk. destruct (H5 k Hk) as [Hs|(t & Ht & Hid)].
      * destruct (B5 k Hs) as [Hs2|(t & Ht & Hid)]; [by left|].
        right. exists t. split; [|done]. apply elem_of_app. by left.
      * right. exists t. split; [|done]. apply elem_of_app. by right.
Qed.

End SyncRunFacts.

(** X23. Every transaction of the cache file that has an import id is
    counted exactly once by a sync run, dry or not and whatever the ledger
    answers: created + updated + skipped + duplicate + failed is the
    number of transactions with a non-empty import id. *)
Theorem sync_counts_every_transaction (cat_mapping : list (pystr * pystr))
    (existing_txns : gmap pystr RemoteTxn) (cutoff_date : pystr)
    (update_ok : nat -> bool) (create_reply : nat -> BatchReply)
    (dry_run : bool) (synced : gset pystr) (transactions : list Txn) :
  stats_total (fst (sync_transactions cat_mapping existing_txns cutoff_date
                                      update_ok create_reply dry_run synced
                                      transactions))
  = length (filter (fun t => has_import_id t = true) transactions).
Proof.
  rewrite <- (first_pass_partition cat_mapping existing_txns cutoff_date
                                   synced transactions).
  unfold sync_transactions.
  destruct (first_pass _ _ _ synced transactions) as [actions synced1].
  cbn [fst]. destruct dry_run.
  - unfold stats_total. simpl. lia.
  - match goal with
    | |- context [update_pass _ 0 ?l ?st ?s] =>
        destruct (update_pass_facts update_ok 0 l st s) as (U1 & _);
        destruct (update_pass update_ok 0 l st s) as [stats1 synced2]
    end.
    cbn [fst] in U1.
    match goal with
    | |- context [create_pass _ 0 ?b ?st ?s] =>
        destruct (create_pass_facts create_reply 0 b st s) as (C1 & _)
    end.
    rewrite C1, U1.
    destruct (chunks_of_concat (length (creates_of actions)) batch_size
                (creates_of actions)) as [-> _];
      [done|unfold batch_size; lia|].
    unfold stats_total. simpl. lia.
Qed.

Lemma first_pass_txn (cat_mapping : list (pystr * pystr))
    (existing_txns : gmap pystr RemoteTxn) (cutoff_date : pystr)
    (synced : gset pystr) (transactions : list Txn) (txn : Txn) :
  txn ∈ transactions
  <-> exists a, (txn, a) ∈ fst (first_pass cat_mapping existing_txns
                                           cutoff_date synced transactions).
Proof.
  rewrite <- (first_pass_fst cat_mapping existing_txns cutoff_date synced
                             transactions) at 1.
  rewrite list_elem_of_In, in_map_iff. split.
  - intros ([t a] & Heq & Hin). simpl in Heq. subst t.
    exists a. by apply list_elem_of_In.
  - intros [a Hin]. exists (txn, a). split; [done|].
    by apply list_elem_of_In.
Qed.

Lemma import_id_of_action (cat_mapping : list (pystr * pystr))
    (existing_txns : gmap pystr RemoteTxn) (cutoff_date : pystr)
    (seen : gset pystr) (txn : Txn) :
  sync_action cat_mapping existing_txns cutoff_date seen txn <> Ignored ->
  txn_import_id txn = Some (import_id_of txn).
Proof.
  unfold sync_action, import_id_of.
  by destruct (txn_import_id txn) as [[|c r]|].
Qed.

(** X24. After a sync run that was not a dry run and reported no failure, a
    second run over the same transactions queues nothing for creation,
    whatever the ledger and the category mapping then hold, as long as the
    cutoff date has not moved back: every transaction that is not too old
    has its import id in the saved synced set. *)
Theorem sync_second_run_creates_nothing
    (cat_mapping : list (pystr * pystr))
    (existing_txns : gmap pystr RemoteTxn) (cutoff_date : pystr)
    (update_ok : nat -> bool) (create_reply : nat -> BatchReply)
    (synced : gset pystr) (transactions : list Txn)
    (cat_mapping2 : list (pystr * pystr))
    (existing_txns2 : gmap pystr RemoteTxn) (cutoff_date2 : pystr) :
  failed (fst (sync_transactions cat_mapping existing_txns cutoff_date
                                 update_ok create_reply false synced
                                 transactions)) = 0 ->
  (forall d, str_ltb d cutoff_date = true -> str_ltb d cutoff_date2 = true) ->
  to_create cat_mapping2 existing_txns2 cutoff_date2
            (snd (sync_transactions cat_mapping existing_txns cutoff_date
                                    update_ok create_reply false synced
                                    transactions))
            transactions = [].
Proof.
  intros Hfail Hcut.
  assert (forall txn k,
            txn ∈ transactions -> txn_import_id txn = Some k -> k <> [] ->
            str_ltb (txn_date txn) cutoff_date = false ->
            k ∈ snd (sync_transactions cat_mapping existing_txns cutoff_date
                                       update_ok create_reply false synced
                                       transactions)) as Hdone.
  { intros txn k Hin Hid Hne Hdate.
    apply (first_pass_txn cat_mapping existing_txns cutoff_date synced)
      in Hin as [a Hin].
    destruct (first_pass_elem _ _ _ _ _ _ _ Hin)
      as (seen & Hs1 & Hs2 & Ha & Hdup).
    pose proof (sync_action_cases cat_mapping existing_txns cutoff_date
                                  seen txn k Hid) as Hcase.
    rewrite <- Ha in Hcase.
    assert (import_id_of txn = k) as Hk by (unfold import_id_of; by rewrite Hid).
    unfold sync_transactions in *.
    destruct (first_pass cat_mapping existing_txns cutoff_date synced
                         transactions) as [actions synced1].
    cbn [fst snd] in *.
    match type of Hfail with
    | context [update_pass _ 0 ?l ?st ?s] =>
        destruct (update_pass_facts update_ok 0 l st s)
          as (_ & U2 & U3 & U4 & _);
        destruct (update_pass update_ok 0 l st s) as [stats1 synced2]
    end.
    cbn [fst snd failed] in *.
    match type of Hfail with
    | context [create_pass _ 0 ?b ?st ?s] =>
        destruct (create_pass_facts create_reply 0 b st s)
          as (_ & C2 & C3 & C4 & _)
    end.
    destruct (chunks_of_concat (length (creates_of actions)) batch_size
                (creates_of actions)) as [Hcc Hne2];
      [done|unfold batch_size; lia|].
    rewrite Hcc in C4.
    assert (failed stats1 = 0) as Hf1 by lia.
    destruct a as [| | |tid subs|subs].
    - done.
    - destruct Hcase as [Hold|Hseen]; [congruence|].
      eapply elem_of_weaken; [|exact C3].
      eapply elem_of_weaken; [|exact U3].
      eapply elem_of_weaken; [exact Hseen|exact Hs2].
    - eapply elem_of_weaken; [|exact C3].
      eapply elem_of_weaken; [|exact U3].
      rewrite <- Hk. by apply Hdup.
    - eapply elem_of_weaken; [|exact C3]. rewrite <- Hk.
      apply (U4 Hf1 (txn, tid, subs)). by apply updates_of_elem.
    - rewrite <- Hk. apply C4; [done|lia|].
      apply creates_of_elem. eauto. }
  destruct (to_create _ _ _ _ transactions) as [|t ts] eqn:E; [done|].
  exfalso.
  assert (t ∈ (to_create cat_mapping2 existing_txns2 cutoff_date2
                 (snd (sync_transactions cat_mapping existing_txns
                         cutoff_date update_ok create_reply false synced
                         transactions)) transactions)) as Ht.
  { rewrite E. by left. }
  apply to_create_new in Ht as (Hin & k & Hid & Hne & Hdate & Hns).
  apply Hns, (Hdone t k); try done.
  destruct (str_ltb (txn_date t) cutoff_date) eqn:Hd; [|done].
  apply Hcut in Hd. congruence.
Qed.

Lemma sync_second_run_creates_nothing_witness :
  to_create [] SyncScenario.existing_txns SyncScenario.cutoff_date
            (snd (sync_transactions [] ∅ SyncScenario.cutoff_date
                                    (fun _ => true) (fun _ => BatchOk [])
                                    false ∅ [SyncScenario.txn]))
            [SyncScenario.txn] = [].
Proof.
  apply sync_second_run_creates_nothing;
    [vm_compute; reflexivity|intros d H; exact H].
Defined.

(** The first pass adds to [synced] only keys the ledger holds. *)
Lemma first_pass_added (cat_mapping : list (pystr * pystr))
    (existing_txns : gmap pystr RemoteTxn) (cutoff_date : pystr)
    (synced : gset pystr) (transactions : list Txn) (k : pystr) :
  k ∈ snd (first_pass cat_mapping existing_txns cutoff_date synced
                      transactions) ->
  k ∈ synced
  \/ (is_Some (existing_txns !! k)
      /\ exists txn, txn ∈ transactions /\ txn_import_id txn = Some k).
Proof.
  revert synced. induction transactions as [|t l IH]; intros synced.
  - simpl. by left.
  - cbn [first_pass].
    pose proof (sync_action_cases cat_mapping existing_txns cutoff_date
                                  synced t) as Hcase.
    match goal with
    | |- context [first_pass _ _ _ ?s l] =>
        assert (forall x, x ∈ s ->
                  x ∈ synced \/ (is_Some (existing_txns !! x)
                                 /\ txn_import_id t = Some x)) as Hstep;
        [|specialize (IH s);
          destruct (first_pass cat_mapping existing_txns cutoff_date s l)
            as [actions final]]
    end.
    { intros x Hx.
      destruct (sync_action _ _ _ synced t); try by left.
      destruct (txn_import_id t) as [id|]; [|by left].
      apply elem_of_union in Hx as [Hx|Hx]; [|by left].
      apply elem_of_singleton in Hx. subst x.
      destruct (Hcase id eq_refl) as [_ Hex]. by right. }
    cbn [snd] in *. intros Hk.
    destruct (IH Hk) as [Hs|(Hex & txn & Hin & Hid)].
    + destruct (Hstep k Hs) as [?|[Hex Hid]]; [by left|].
      right. split; [done|]. exists t. split; [by left|done].
    + right. split; [done|]. exists txn. split; [by right|done].
Qed.

(** X25. The synced set a sync run writes back keeps every id it had, and
    gains only import ids of transactions of the cache file; a dry run
    gains only ids the ledger already holds (the duplicates it found). *)
Theorem sync_synced_bounds (cat_mapping : list (pystr * pystr))
    (existing_txns : gmap pystr RemoteTxn) (cutoff_date : pystr)
    (update_ok : nat -> bool) (create_reply : nat -> BatchReply)
    (dry_run : bool) (synced : gset pystr) (transactions : list Txn) :
  let final := snd (sync_transactions cat_mapping existing_txns cutoff_date
                                      update_ok create_reply dry_run synced
                                      transactions) in
  synced ⊆ final
  /\ (forall k, k ∈ final ->
        k ∈ synced
        \/ exists txn, txn ∈ transactions /\ txn_import_id txn = Some k)
  /\ (dry_run = true ->
      forall k, k ∈ final -> k ∈ synced \/ is_Some (existing_txns !! k)).
Proof.
  pose proof (first_pass_subseteq cat_mapping existing_txns cutoff_date
                                  synced transactions) as Hsub.
  pose proof (first_pass_added cat_mapping existing_txns cutoff_date
                               synced transactions) as Hadd.
  assert (forall txn a,
            (txn, a) ∈ fst (first_pass cat_mapping existing_txns cutoff_date
                                       synced transactions) ->
            a <> Ignored ->
            txn ∈ transactions
            /\ txn_import_id txn = Some (import_id_of txn)) as Hact.
  { intros txn a Hin Hne. split.
    - apply (first_pass_txn cat_mapping existing_txns cutoff_date synced).
      eauto.
    - apply first_pass_elem in Hin as (seen & _ & _ & Ha & _). subst a.
      by apply import_id_of_action in Hne. }
  unfold sync_transactions.
  destruct (first_pass cat_mapping existing_txns cutoff_date synced
                       transactions) as [actions synced1].
  cbv zeta. cbn [fst snd] in *. destruct dry_run; cbn [snd].
  - split; [exact Hsub|]. split.
    + intros k Hk. destruct (Hadd k Hk) as [?|[_ ?]]; auto.
    + intros _ k Hk. destruct (Hadd k Hk) as [?|[? _]]; auto.
  - match goal with
    | |- context [update_pass _ 0 ?l ?st ?s] =>
        destruct (update_pass_facts update_ok 0 l st s)
          as (_ & _ & U3 & _ & U5);
        destruct (update_pass update_ok 0 l st s) as [stats1 synced2]
    end.
    cbn [fst snd] in *.
    match goal with
    | |- context [create_pass _ 0 ?b ?st ?s] =>
        destruct (create_pass_facts create_reply 0 b st s)
          as (_ & _ & C3 & _ & C5)
    end.
    destruct (chunks_of_concat (length (creates_of actions)) batch_size
                (creates_of actions)) as [Hcc _];
      [done|unfold batch_size; lia|].
    rewrite Hcc in C5.
    split; [etrans; [exact Hsub|]; etrans; [exact U3|exact C3]|].
    split; [|intros [=]].
    intros k Hk.
    destruct (C5 k Hk) as [Hk2|(t & Ht & Hid)].
    + destruct (U5 k Hk2) as [Hk1|(e & He & Hid)].
      * destruct (Hadd k Hk1) as [?|[_ ?]]; auto.
      * apply updates_of_elem in He.
        destruct (Hact _ _ He) as [Hin Hsome]; [done|].
        right. exists e.1.1. split; [done|]. by rewrite Hsome, Hid.
    + apply creates_of_elem in Ht as [subs Ht].
      destruct (Hact _ _ Ht) as [Hin Hsome]; [done|].
      right. exists t. split; [done|]. by rewrite Hsome, Hid.
Qed.

(** ** When two rows share an import id *)

Lemma py_inj (s1 s2 : string) : py s1 = py s2 -> s1 = s2.
Proof.
  revert s2. induction s1 as [|a s1 IH]; intros [|b s2]; simpl; try done.
  intros [= Hab Hs]. f_equal; [|by apply IH].
  rewrite <- (ascii_N_embedding a), <- (ascii_N_embedding b). by rewrite Hab.
Qed.

Lemma of_Z_inj (a b : Z) : of_Z a = of_Z b -> a = b.
Proof.
  unfold of_Z. intros H. apply py_inj in H.
  assert (forall n, Z.to_int n <> Decimal.Pos Decimal.Nil
                    /\ Z.to_int n <> Decimal.Neg Decimal.Nil) as Hnn.
  { intros [|p|p]; simpl; split; try done;
      intros [= Hp]; by apply DecimalPos.Unsigned.to_uint_nonnil in Hp. }
  apply (f_equal NilZero.int_of_string) in H.
  destruct (Hnn a) as [Ha1 Ha2], (Hnn b) as [Hb1 Hb2].
  rewrite !NilZero.isi in H by done.
  injection H as H. by apply DecimalZ.to_int_inj.
Qed.

(** A text is cut at its first colon in one way only. *)
Lemma colon_split_unique (a1 a2 r1 r2 : pystr) :
  Forall (fun c => c <> colon) a1 -> Forall (fun c => c <> colon) a2 ->
  a1 ++ colon :: r1 = a2 ++ colon :: r2 -> a1 = a2 /\ r1 = r2.
Proof.
  intros H1. revert a2. induction H1 as [|c a1 Hc H1 IH]; intros a2 H2.
  - destruct H2 as [|c2 a2 Hc2 H2]; simpl.
    + by intros [= ->].
    + intros [= Hx _]. by rewrite <- Hx in Hc2.
  - destruct H2 as [|c2 a2 Hc2 H2]; simpl.
    + intros [= Hx _]. done.
    + intros [= -> Hrest]. destruct (IH a2 H2 Hrest) as [-> ->]. done.
Qed.

(** X26. Two rows get the same import id exactly when they agree on the
    order id, on the amount in whole cents and on the direction (refund or
    purchase), for order ids without a colon: rows of one order that differ
    in cents or direction never collide, and two charges of equal cents on
    one order always do. *)
Theorem row_import_id_collision (order_id1 order_id2 : pystr)
    (amount1 amount2 : Q) (row1 row2 : Row) :
  Forall (fun c => c <> colon) order_id1 ->
  Forall (fun c => c <> colon) order_id2 ->
  row_import_id order_id1 amount1 row1 = row_import_id order_id2 amount2 row2
  <-> order_id1 = order_id2
      /\ py_int (Qabs amount1 * 100) = py_int (Qabs amount2 * 100)
      /\ has_inflow row1 = has_inflow row2.
Proof.
  intros H1 H2. unfold row_import_id, make_import_id. split.
  - intros H. apply app_inv_head in H.
    change (py ":" ++ ?x) with (colon :: x) in H.
    apply colon_split_unique in H as [Ho H]; [|done..].
    assert (forall x, Forall (fun c => c <> colon)
                             (of_Z (py_int (Qabs x * 100)))) as Hd.
    { intros x. apply plain_no; [by left|].
      apply of_Z_plain, py_int_nonneg.
      apply Qmult_le_0_compat; [apply Qabs_nonneg|done]. }
    apply colon_split_unique in H as [Hc Hdir]; [|done..].
    split; [done|]. split; [by apply of_Z_inj|].
    by destruct (has_inflow row1), (has_inflow row2).
  - intros (-> & -> & ->). done.
Qed.

Lemma row_import_id_collision_witness :
  row_import_id AllocationScenario.order_id (- 140)
                (AllocationScenario.row_of 140)
  = row_import_id AllocationScenario.order_id (- (1409 # 1000))
                  (AllocationScenario.row_of 140)
  <-> AllocationScenario.order_id = AllocationScenario.order_id
      /\ py_int (Qabs (- 140) * 100) = py_int (Qabs (- (1409 # 1000)) * 100)
      /\ has_inflow (AllocationScenario.row_of 140)
         = has_inflow (AllocationScenario.row_of 140).
Proof.
  apply row_import_id_collision;
    repeat (constructor; [by vm_compute|]); constructor.
Defined.

(** ** The splits of an itemized transaction *)

Local Open Scope Q_scope.

Lemma item_to_category_fold (keys : list pystr) (l : CatDict)
    (m : gmap pystr pystr) :
  (forall k c, m !! k = Some c -> c ∈ keys) ->
  (forall e, e ∈ l -> fst e ∈ keys) ->
  forall k c,
    fold_left (fun m '(cat, items) =>
                 fold_left (fun m item_name => <[item_name := cat]> m)
                           items m) l m !! k = Some c ->
    c ∈ keys.
Proof.
  revert m. induction l as [|[cat items] l IH]; intros m Hm Hl; [exact Hm|].
  cbn [fold_left]. apply IH; [|intros e He; apply Hl; by right].
  assert (cat ∈ keys) as Hcat by (apply (Hl (cat, items)); by left).
  clear IH Hl. revert m Hm.
  induction items as [|item items IH]; intros m Hm; [exact Hm|].
  cbn [fold_left]. apply IH. intros k c.
  destruct (decide (item = k)) as [->|Hne].
  - rewrite lookup_insert_eq. by intros [= <-].
  - rewrite lookup_insert_ne by done. apply Hm.
Qed.

Lemma item_to_category_of_key (categorized : CatDict) (k c : pystr) :
  item_to_category_of categorized !! k = Some c -> c ∈ map fst categorized.
Proof.
  apply item_to_category_fold; [done|].
  intros e He. apply list_elem_of_In, in_map. by apply list_elem_of_In.
Qed.

Lemma best_category_key (categorized : CatDict) :
  best_category categorized ∈ map fst categorized
  \/ (categorized = [] /\ best_category categorized = py "Household Supplies").
Proof.
  destruct categorized as [|e r]; [by right|]. left.
  unfold best_category.
  assert (forall (r : CatDict) e,
            fold_left (fun best e' =>
                         if (length (snd best) <? length (snd e'))%nat
                         then e' else best) r e ∈ e :: r) as Hfold.
  { clear. induction r as [|e' r IH]; intros e; [by left|].
    cbn [fold_left].
    destruct (length (snd e) <? length (snd e'))%nat.
    - right. apply IH.
    - specialize (IH e). apply elem_of_cons in IH as [->|IH]; [by left|].
      right. by right. }
  apply list_elem_of_In, in_map, list_elem_of_In, Hfold.
Qed.

(** X27. Itemizing a pending transaction keeps the splits it had and
    appends one split per matched item (a single split when there are no
    matched items); the category of every new split is a category of the
    categorizer's answer or Household Supplies, and the per-item splits are
    non-negative for a refund and non-positive for a purchase. *)
Theorem itemize_splits (categorized : CatDict) (txn : Txn) :
  exists new,
    txn_splits (itemize categorized txn) = txn_splits txn ++ new
    /\ length new
       = Nat.max 1 (length (default [] (txn_items_with_amounts txn)))
    /\ Forall (fun s => split_category s ∈ map fst categorized
                        \/ split_category s = py "Household Supplies") new
    /\ (default [] (txn_items_with_amounts txn) <> [] ->
        Forall (fun s => if txn_is_refund txn then 0 <= split_amount s
                         else split_amount s <= 0) new).
Proof.
  unfold itemize.
  destruct (default [] (txn_items_with_amounts txn)) as [|i r] eqn:Hitems.
  - eexists. split; [reflexivity|]. split; [done|]. split; [|done].
    constructor; [|constructor]. cbn [split_category].
    destruct (best_category_key categorized) as [?|[_ ?]]; auto.
  - eexists. split; [reflexivity|]. split; [|split].
    + rewrite length_map. simpl. lia.
    + apply Forall_forall. intros s Hs.
      apply list_elem_of_In, in_map_iff in Hs as (item & <- & _).
      cbn [item_split split_category].
      destruct (item_to_category_of categorized !! _) as [c|] eqn:Hc;
        [|by right].
      left. by apply item_to_category_of_key in Hc.
    + intros _. apply Forall_forall. intros s Hs.
      apply list_elem_of_In, in_map_iff in Hs as (item & <- & _).
      cbn [item_split split_amount]. unfold signed.
      destruct (txn_is_refund txn).
      * apply Qabs_nonneg.
      * apply (Qopp_le_compat 0). apply Qabs_nonneg.
Qed.
